(** * PyDesigner: the diffusion-image data model and the command-line bootstrap

    A shallow embedding of [dwipi.py] (class [DWI]) and of
    [designer/pydesigner.py] (tool discovery and argument parsing), with the
    properties of the specification stated and proved over it.

    Python values are modelled as they occur in the two files: [str] as
    [string], integers as [Z], object and namespace attributes as finite maps
    from attribute names, function locals as a finite map so that reading a
    name that was never bound raises [UnboundLocalError] as in Python.  The
    file system, the NIfTI reader, [numpy.loadtxt] and the executable search
    path are the environment: they are fields of a record the code reads. *)

From Stdlib Require Import ZArith QArith Qround Qabs Lqa Ascii String.
From stdpp Require Import gmap strings list fin_maps.

Open Scope Z_scope.
Open Scope string_scope.
Open Scope list_scope.

(** ** Python [str] operations used by the two files and by [posixpath]

    A [str] is modelled by the sequence of its bytes.  Every character the
    code searches for or cuts at is an ASCII one, so on a UTF-8 string the
    cuts fall where Python makes them. *)
Module PyStr.

(** [s.rfind(c)] for a one-character [c]: index of the last occurrence,
    [-1] when there is none. *)
Fixpoint rfind_from (c : ascii) (s : string) (i last : Z) : Z :=
  match s with
  | EmptyString => last
  | String a r => rfind_from c r (i + 1) (if Ascii.eqb a c then i else last)
  end.

Definition rfind (c : ascii) (s : string) : Z := rfind_from c s 0 (-1).

(** [s[:i]] and [s[i:]] for [0 <= i] (the only slices the code takes). *)
Definition slice_to (i : Z) (s : string) : string :=
  substring 0 (Z.to_nat i) s.

Definition slice_from (i : Z) (s : string) : string :=
  substring (Z.to_nat i) (String.length s - Z.to_nat i) s.

(** [s[i:j]] for [0 <= i]. *)
Definition slice (i j : Z) (s : string) : string :=
  substring (Z.to_nat i) (Z.to_nat (j - i)) s.

(** [c in s]. *)
Fixpoint contains (c : ascii) (s : string) : bool :=
  match s with
  | EmptyString => false
  | String a r => Ascii.eqb a c || contains c r
  end.

(** [s == c * len(s)]. *)
Fixpoint all_char (c : ascii) (s : string) : bool :=
  match s with
  | EmptyString => true
  | String a r => Ascii.eqb a c && all_char c r
  end.

(** [s.rstrip(c)]. *)
Fixpoint rstrip (c : ascii) (s : string) : string :=
  match s with
  | EmptyString => EmptyString
  | String a r =>
      let r' := rstrip c r in
      match r' with
      | EmptyString => if Ascii.eqb a c then EmptyString else String a EmptyString
      | _ => String a r'
      end
  end.

Definition startswith (pre s : string) : bool := String.prefix pre s.

(** [s.endswith(c)] for a one-character [c]. *)
Fixpoint endswith (c : ascii) (s : string) : bool :=
  match s with
  | EmptyString => false
  | String a EmptyString => Ascii.eqb a c
  | String _ r => endswith c r
  end.

(** [s.split(c, 1)] when [c in s]: the text before and after the first [c]. *)
Fixpoint split_first (c : ascii) (s : string) : string * string :=
  match s with
  | EmptyString => (EmptyString, EmptyString)
  | String a r =>
      if Ascii.eqb a c then (EmptyString, r)
      else let '(h, t) := split_first c r in (String a h, t)
  end.

(** [bool(s)]: a string is true exactly when it is not empty. *)
Definition truthy (s : string) : bool :=
  match s with EmptyString => false | String _ _ => true end.

(** [sep.join(l)]. *)
Fixpoint join (sep : string) (l : list string) : string :=
  match l with
  | [] => EmptyString
  | [x] => x
  | x :: r => x +:+ sep +:+ join sep r
  end.

End PyStr.

(** ** [os.path] on a POSIX host ([posixpath.py], [genericpath.py]) *)
Module posixpath.
Import PyStr.

Definition sep : ascii := "/"%char.
Definition extsep : ascii := "."%char.

(** [os.path.split]: the head is everything before the final slash, with
    trailing slashes removed unless it consists of slashes only. *)
Definition split (p : string) : string * string :=
  let i := rfind sep p + 1 in
  let head := slice_to i p in
  let tail := slice_from i p in
  let head := if truthy head && negb (all_char sep head)
              then rstrip sep head else head in
  (head, tail).

(** [os.path.dirname]. *)
Definition dirname (p : string) : string :=
  let i := rfind sep p + 1 in
  let head := slice_to i p in
  if truthy head && negb (all_char sep head) then rstrip sep head else head.

(** [os.path.splitext]: the extension starts at the last dot of the last
    component, unless only dots precede it there.  The [while] loop of
    [genericpath._splitext] looks for a character other than a dot in
    [p[sepIndex+1:dotIndex]]. *)
Definition splitext (p : string) : string * string :=
  let sepIndex := rfind sep p in
  let dotIndex := rfind extsep p in
  if Z.ltb sepIndex dotIndex
     && negb (all_char extsep (slice (sepIndex + 1) dotIndex p))
  then (slice_to dotIndex p, slice_from dotIndex p)
  else (p, EmptyString).

(** [os.path.join(a, b)]. *)
Definition join (a b : string) : string :=
  if startswith (String sep EmptyString) b then b
  else if negb (truthy a) || endswith sep a then a +:+ b
  else a +:+ String sep EmptyString +:+ b.

End posixpath.

(** ** Exceptions, results and the state-and-error monad of method bodies *)
Module Py.

(** The exceptions the two files can raise or let through. *)
Inductive exn : Type :=
| AssertionError                       (* a failed [assert e] *)
| UnboundLocalError (name : string)    (* a local read before assignment *)
| AttributeError (name : string)       (* a missing attribute of [self] *)
| TypeError (what : string)
| ValueError (what : string)
| Exception (msg : string)             (* [raise Exception(msg)] *)
| SystemExit (status : Z)              (* [sys.exit(status)] *)
| LibraryError (origin : string).      (* raised inside an external reader *)

Inductive result (A : Type) : Type :=
| Ok (a : A)
| Raise (e : exn).
Arguments Ok {A} a.
Arguments Raise {A} e.

Definition is_ok {A} (r : result A) : bool :=
  match r with Ok _ => true | Raise _ => false end.

(** A computation over a state [S] that returns or raises; a raise keeps
    the state reached so far (attributes already set, lines already
    printed). *)
Definition M (S A : Type) : Type := S -> result A * S.

Definition ret {S A} (a : A) : M S A := fun s => (Ok a, s).

Definition bind {S A B} (m : M S A) (k : A -> M S B) : M S B :=
  fun s => match m s with
           | (Ok a, s') => k a s'
           | (Raise e, s') => (Raise e, s')
           end.

Definition raise {S A} (e : exn) : M S A := fun s => (Raise e, s).

Definition lift {S A} (r : result A) : M S A := fun s => (r, s).

(** [assert e]: nothing happens when [e] is true, [AssertionError]
    otherwise. *)
Definition py_assert {S} (e : bool) : M S unit :=
  if e then ret tt else raise AssertionError.

(** Scalars that reach the code as arguments or that [argparse] stores. *)
Inductive pyval : Type :=
| PyNone
| PyBool (b : bool)
| PyInt (z : Z)
| PyStr (s : string)
| PyList (l : list string).

(** [v == k] for an integer literal [k]: [bool] is a subclass of [int],
    every other type compares unequal to an integer. *)
Definition py_eq_int (v : pyval) (k : Z) : bool :=
  match v with
  | PyInt z => Z.eqb z k
  | PyBool b => Z.eqb (Z.b2z b) k
  | _ => false
  end.

End Py.

Declare Scope py_scope.
Delimit Scope py_scope with py.
Notation "x <- c ;;; k" := (Py.bind c (fun x => k))
  (at level 100, c at next level, right associativity) : py_scope.
Notation "c ;;; k" := (Py.bind c (fun _ => k))
  (at level 100, right associativity) : py_scope.

(** ** The part of numpy the data model uses *)
Module Numpy.
Import Py.

(** Arrays of dimension 0, 1 and 2; a 2-D array is the list of its rows. *)
Inductive ndarray (T : Type) : Type :=
| Arr0 (x : T)
| Arr1 (xs : list T)
| Arr2 (rows : list (list T)).
Arguments Arr0 {T} x.
Arguments Arr1 {T} xs.
Arguments Arr2 {T} rows.

Section Elementwise.
Context {T : Type}.

(** A ufunc, or a broadcast operation with a scalar, applied to every
    element. *)
Definition np_map (f : T -> T) (a : ndarray T) : ndarray T :=
  match a with
  | Arr0 x => Arr0 (f x)
  | Arr1 xs => Arr1 (List.map f xs)
  | Arr2 rows => Arr2 (List.map (List.map f) rows)
  end.

(** Column [j] of a list of rows. *)
Definition column (j : nat) (rows : list (list T)) : list T :=
  omap (fun r : list T => r !! j) rows.

Definition ncols (rows : list (list T)) : nat :=
  match rows with
  | [] => 0%nat
  | r :: _ => length r
  end.

Definition transpose_rows (rows : list (list T)) : list (list T) :=
  List.map (fun j => column j rows) (seq 0 (ncols rows)).

(** [np.transpose]: reverses the axes, so only a 2-D array changes. *)
Definition np_transpose (a : ndarray T) : ndarray T :=
  match a with
  | Arr2 rows => Arr2 (transpose_rows rows)
  | _ => a
  end.

(** How [np.c_] brings an item to two dimensions: a scalar becomes a
    1-by-1 array, a 1-D array of length k becomes a k-by-1 column. *)
Definition as_columns (a : ndarray T) : list (list T) :=
  match a with
  | Arr0 x => [[x]]
  | Arr1 xs => List.map (fun x => [x]) xs
  | Arr2 rows => rows
  end.

(** [np.c_[a, b]]: concatenation along the last axis; the row counts
    must agree. *)
Definition np_c_ (a b : ndarray T) : result (ndarray T) :=
  let ra := as_columns a in
  let rb := as_columns b in
  if Nat.eqb (length ra) (length rb)
  then Ok (Arr2 (zip_with app ra rb))
  else Raise (ValueError "all the input array dimensions except for the concatenation axis must match exactly").

End Elementwise.

(** [np.rint] on a value that is an exact rational (every finite double
    is): the nearest integer, the even one when two are equally near. *)
Definition rint_Q (x : Q) : Q :=
  let f := Qfloor x in
  match Qcompare (x - inject_Z f) (1 # 2) with
  | Lt => inject_Z f
  | Gt => inject_Z (f + 1)
  | Eq => if Z.even f then inject_Z f else inject_Z (f + 1)
  end.

End Numpy.

(** ** [dwipi.py]: class [DWI] *)
Module Dwipi.
Import Py Numpy.

Section DWI.
(** The element type of the floating-point arrays, the image object
    [nib.load] returns and the voxel array made from it are kept
    abstract; [rint] is [np.rint] on one element. *)
Context {F Hdr Vox : Type}.
Variable rint : F -> F.

(** What the constructor reads from its host. *)
Record World : Type := {
  path_exists : string -> bool;            (* [os.path.exists] *)
  nib_load : string -> result Hdr;         (* [nib.load] *)
  dataobj_array : Hdr -> result Vox;       (* [np.array(hdr.dataobj)] *)
  loadtxt : string -> result (ndarray F)   (* [np.loadtxt] *)
}.

(** Values held by locals and by attributes of [self]. *)
Inductive val : Type :=
| VStr (s : string)
| VFloats (a : ndarray F)
| VInts (a : ndarray Z)
| VImage (h : Hdr)
| VVoxels (v : Vox).

(** The state of a running method: its locals, the attribute dictionary
    of [self], and the lines printed so far. *)
Record frame : Type := {
  locals : gmap string val;
  self : gmap string val;
  stdout : list string
}.

Definition set_local (x : string) (v : val) : M frame unit :=
  fun fr => (Ok tt, {| locals := <[x := v]> (locals fr);
                       self := self fr; stdout := stdout fr |}).

Definition get_local (x : string) : M frame val :=
  fun fr => match locals fr !! x with
            | Some v => (Ok v, fr)
            | None => (Raise (UnboundLocalError x), fr)
            end.

Definition set_attr (x : string) (v : val) : M frame unit :=
  fun fr => (Ok tt, {| locals := locals fr;
                       self := <[x := v]> (self fr); stdout := stdout fr |}).

Definition get_attr (x : string) : M frame val :=
  fun fr => match self fr !! x with
            | Some v => (Ok v, fr)
            | None => (Raise (AttributeError x), fr)
            end.

(** [print(s)]. *)
Definition print (s : string) : M frame unit :=
  fun fr => (Ok tt, {| locals := locals fr; self := self fr;
                       stdout := stdout fr ++ [s] |}).

(** Uses of a value at the type the operation needs. *)
Definition as_str (v : val) : M frame string :=
  match v with
  | VStr s => ret s
  | _ => raise (TypeError "str expected")
  end.

Definition as_floats (v : val) : M frame (ndarray F) :=
  match v with
  | VFloats a => ret a
  | _ => raise (TypeError "float array expected")
  end.

Definition as_image (v : val) : M frame Hdr :=
  match v with
  | VImage h => ret h
  | _ => raise (AttributeError "dataobj")
  end.

Definition local_str (x : string) : M frame string :=
  (v <- get_local x ;;; as_str v)%py.

Definition local_floats (x : string) : M frame (ndarray F) :=
  (v <- get_local x ;;; as_floats v)%py.

(** Line 22, [assert('Unable to locate BVAL or BVEC files')], and
    line 24, [assert('File in path not found. ...')]: the asserted
    expression is the string literal itself, so the assertion tests
    whether that string is true. *)
Definition assert_companions_found : M frame unit :=
  py_assert (PyStr.truthy "Unable to locate BVAL or BVEC files").

Definition assert_file_found : M frame unit :=
  py_assert (PyStr.truthy
               "File in path not found. Please locate file and try again").

Variable W : World.

(** [DWI.__init__(self, imPath)], lines 8 to 25. *)
Definition DWI__init__ (imPath : string) : M frame unit :=
  ((if path_exists W imPath then
      hdr <- lift (nib_load W imPath) ;;;
      set_attr "hdr" (VImage hdr) ;;;
      h <- get_attr "hdr" ;;;
      h <- as_image h ;;;
      img <- lift (dataobj_array W h) ;;;
      set_attr "img" (VVoxels img) ;;;
      set_local "path" (VStr (fst (posixpath.split imPath))) ;;;
      set_local "file" (VStr (snd (posixpath.split imPath))) ;;;
      file <- local_str "file" ;;;
      set_local "fName" (VStr (fst (posixpath.splitext file))) ;;;
      path <- local_str "path" ;;;
      fName <- local_str "fName" ;;;
      set_local "bvalPath" (VStr (posixpath.join path (fName +:+ ".bval"))) ;;;
      path <- local_str "path" ;;;
      fName <- local_str "fName" ;;;
      set_local "bvecPath" (VStr (posixpath.join path (fName +:+ ".bvec"))) ;;;
      bvalPath <- local_str "bvalPath" ;;;
      bvecPath <- local_str "bvecPath" ;;;
      if path_exists W bvalPath && path_exists W bvecPath then
        bvecPath <- local_str "bvecPath" ;;;
        a <- lift (loadtxt W bvecPath) ;;;
        set_local "bvecs" (VFloats a) ;;;
        bvalPath <- local_str "bvalPath" ;;;
        b <- lift (loadtxt W bvalPath) ;;;
        set_local "bvals" (VFloats (np_map rint b)) ;;;
        bvecs <- local_floats "bvecs" ;;;
        bvals <- local_floats "bvals" ;;;
        g <- lift (np_c_ (np_transpose bvecs) bvals) ;;;
        set_attr "grad" (VFloats g)
      else
        assert_companions_found
    else
      assert_file_found) ;;;
   fName <- local_str "fName" ;;;
   print ("Image " +:+ fName +:+ ".nii loaded successfully"))%py.

(** [DWI(imPath)]: a new object with no attributes, then [__init__] with
    fresh locals.  The result is the object's attribute dictionary, or
    the exception that ended the construction, with the lines printed. *)
Definition DWI_new (imPath : string) : result (gmap string val) * list string :=
  match DWI__init__ imPath {| locals := ∅; self := ∅; stdout := [] |} with
  | (Ok _, fr) => (Ok (self fr), stdout fr)
  | (Raise e, fr) => (Raise e, stdout fr)
  end.

(** [DWI.createTensorOrder(self, order)], lines 27 to 37.  The integer
    entries are far from the bounds of numpy's 64-bit [int]. *)
Definition createTensorOrder (order : pyval) : M frame (val * val) :=
  ((if py_eq_int order 2 then
      set_local "cnt" (VInts (Arr1 [1; 2; 2; 1; 2; 1])) ;;;
      set_local "ind"
        (VInts (np_map (fun x => x - 1)
           (Arr2 [[1; 1]; [1; 2]; [1; 3]; [2; 2]; [2; 3]; [3; 3]])))
    else ret tt) ;;;
   (if py_eq_int order 4 then
      set_local "cnt"
        (VInts (Arr1 [1; 4; 4; 6; 12; 6; 4; 12; 12; 4; 1; 4; 6; 4; 1])) ;;;
      set_local "ind"
        (VInts (np_map (fun x => x - 1)
           (Arr2 [[1; 1; 1; 1]; [1; 1; 1; 2]; [1; 1; 1; 3]; [1; 1; 2; 2];
                  [1; 1; 2; 3]; [1; 1; 3; 3]; [1; 2; 2; 2]; [1; 2; 2; 3];
                  [1; 2; 3; 3]; [1; 3; 3; 3]; [2; 2; 2; 2]; [2; 2; 2; 3];
                  [2; 2; 3; 3]; [2; 3; 3; 3]; [3; 3; 3; 3]])))
    else ret tt) ;;;
   cnt <- get_local "cnt" ;;;
   ind <- get_local "ind" ;;;
   ret (cnt, ind))%py.

(** A method call [obj.m(...)]: the body runs with fresh locals on the
    object's attributes; what comes back is the result, the object
    afterwards and the output afterwards. *)
Definition call {A} (m : M frame A) (obj : gmap string val) (out : list string)
  : result A * gmap string val * list string :=
  match m {| locals := ∅; self := obj; stdout := out |} with
  | (r, fr) => (r, self fr, stdout fr)
  end.

(** The companion paths of lines 12 to 15 and the line that line 25
    prints, as functions of [imPath]. *)
Definition fName_of (imPath : string) : string :=
  fst (posixpath.splitext (snd (posixpath.split imPath))).

Definition bvalPath_of (imPath : string) : string :=
  posixpath.join (fst (posixpath.split imPath)) (fName_of imPath +:+ ".bval").

Definition bvecPath_of (imPath : string) : string :=
  posixpath.join (fst (posixpath.split imPath)) (fName_of imPath +:+ ".bvec").

Definition loaded_message (imPath : string) : string :=
  "Image " +:+ fName_of imPath +:+ ".nii loaded successfully".

End DWI.

Arguments World : clear implicits.
Arguments val : clear implicits.
Arguments frame : clear implicits.

End Dwipi.

(** ** [argparse]: the parsing algorithm of [ArgumentParser.parse_args]

    The model covers what the parser of [pydesigner.py] uses: prefix
    character [-], abbreviations allowed, one-argument [store] actions,
    [store_true] actions and the [help] action the constructor adds; no
    mutually exclusive groups, no [choices], no argument files.  [type=str]
    and the absent [type] both leave an argument string as it is.  Help and
    metavar texts only shape the messages and are left out.  The functions
    follow [argparse.py] of Python 3.11 and keep its names.  Argument
    strings are UTF-8: the one place that looks at characters beyond ASCII
    is the test for a negative number, whose [\d] matches every decimal
    digit of Unicode. *)
Module Argparse.
Import Py PyStr.

Inductive action_kind : Type :=
| Store        (* nargs=None: exactly one argument *)
| StoreTrue    (* nargs=0, const=True *)
| Help.        (* nargs=0, prints the help and exits *)

Record Action : Type := {
  option_strings : list string;   (* empty for a positional *)
  dest : string;
  kind : action_kind;
  default : option pyval;         (* [None] stands for [SUPPRESS] *)
  required : bool
}.

Definition dash : ascii := "-"%char.

Fixpoint lstrip (c : ascii) (s : string) : string :=
  match s with
  | String a r => if Ascii.eqb a c then lstrip c r else s
  | EmptyString => EmptyString
  end.

Fixpoint replace_char (c d : ascii) (s : string) : string :=
  match s with
  | String a r => String (if Ascii.eqb a c then d else a) (replace_char c d r)
  | EmptyString => EmptyString
  end.

Definition is_long (o : string) : bool :=
  match o with
  | String _ (String b _) => Ascii.eqb b dash
  | _ => false
  end.

(** The destination [add_argument] infers from the option strings: the
    first long one, else the first one, without leading dashes and with
    inner dashes turned into underscores. *)
Definition infer_dest (flags : list string) : string :=
  let chosen := match List.filter is_long flags with
                | o :: _ => o
                | [] => match flags with o :: _ => o | [] => EmptyString end
                end in
  replace_char dash "_"%char (lstrip dash chosen).

(** [add_argument(name, type=str)]. *)
Definition positional (name : string) : Action :=
  {| option_strings := []; dest := name; kind := Store;
     default := Some PyNone; required := true |}.

(** [add_argument] with option strings, an action and a default. *)
Definition optional (flags : list string) (k : action_kind) (d : option pyval) : Action :=
  {| option_strings := flags; dest := infer_dest flags; kind := k;
     default := d; required := false |}.

(** [ArgumentParser(...)] registers [-h/--help] before any other
    argument. *)
Definition help_action : Action := optional ["-h"; "--help"] Help None.

(** [parser._option_string_actions], in insertion order. *)
Definition option_string_actions (actions : list Action) : list (string * Action) :=
  flat_map (fun a => List.map (fun o => (o, a)) (option_strings a)) actions.

Fixpoint lookup_option (o : string) (m : list (string * Action)) : option Action :=
  match m with
  | [] => None
  | (k, a) :: r => if String.eqb k o then Some a else lookup_option o r
  end.

(** The code points [\d] matches in a [str] pattern: the decimal digits
    of Unicode (general category Nd), as ranges of code points; the table
    is the one of Python 3.11 (Unicode 14.0). *)
Definition decimal_digit_ranges : list (N * N) :=
  [ (48, 57); (1632, 1641); (1776, 1785); (1984, 1993);
    (2406, 2415); (2534, 2543); (2662, 2671); (2790, 2799);
    (2918, 2927); (3046, 3055); (3174, 3183); (3302, 3311);
    (3430, 3439); (3558, 3567); (3664, 3673); (3792, 3801);
    (3872, 3881); (4160, 4169); (4240, 4249); (6112, 6121);
    (6160, 6169); (6470, 6479); (6608, 6617); (6784, 6793);
    (6800, 6809); (6992, 7001); (7088, 7097); (7232, 7241);
    (7248, 7257); (42528, 42537); (43216, 43225); (43264, 43273);
    (43472, 43481); (43504, 43513); (43600, 43609); (44016, 44025);
    (65296, 65305); (66720, 66729); (68912, 68921); (69734, 69743);
    (69872, 69881); (69942, 69951); (70096, 70105); (70384, 70393);
    (70736, 70745); (70864, 70873); (71248, 71257); (71360, 71369);
    (71472, 71481); (71904, 71913); (72016, 72025); (72784, 72793);
    (73040, 73049); (73120, 73129); (92768, 92777); (92864, 92873);
    (93008, 93017); (120782, 120831); (123200, 123209); (123632, 123641);
    (125264, 125273); (130032, 130041) ]%N.

Definition is_decimal (cp : N) : bool :=
  existsb (fun r : N * N => N.leb (fst r) cp && N.leb cp (snd r))
          decimal_digit_ranges.

(** The payload of a UTF-8 continuation byte. *)
Definition continuation (b : ascii) : option N :=
  let n := N_of_ascii b in
  if N.leb 128 n && N.leb n 191 then Some (n - 128)%N else None.

(** [s] without its leading decimal digits.  The characters are read
    from their UTF-8 bytes, one to four for a character; bytes that are not
    the shortest encoding of a character are no digit. *)
Fixpoint drop_digits (s : string) : string :=
  match s with
  | EmptyString => EmptyString
  | String b1 r1 =>
      let n1 := N_of_ascii b1 in
      if N.ltb n1 128 then
        if is_decimal n1 then drop_digits r1 else s
      else
        match r1 with
        | EmptyString => s
        | String b2 r2 =>
            match continuation b2 with
            | None => s
            | Some c2 =>
                if N.leb 194 n1 && N.leb n1 223 then
                  if is_decimal ((n1 - 192) * 64 + c2)%N then drop_digits r2 else s
                else
                  match r2 with
                  | EmptyString => s
                  | String b3 r3 =>
                      match continuation b3 with
                      | None => s
                      | Some c3 =>
                          if N.leb 224 n1 && N.leb n1 239 then
                            let cp := (((n1 - 224) * 64 + c2) * 64 + c3)%N in
                            if N.leb 2048 cp && is_decimal cp
                            then drop_digits r3 else s
                          else
                            match r3 with
                            | EmptyString => s
                            | String b4 r4 =>
                                match continuation b4 with
                                | None => s
                                | Some c4 =>
                                    let cp := ((((n1 - 240) * 64 + c2) * 64 + c3)
                                               * 64 + c4)%N in
                                    if N.leb 240 n1 && N.leb n1 244
                                       && N.leb 65536 cp && is_decimal cp
                                    then drop_digits r4 else s
                                end
                            end
                      end
                  end
            end
        end
  end.

(** [s] is made of decimal digits only. *)
Definition all_digits (s : string) : bool :=
  match drop_digits s with
  | EmptyString => true
  | String _ _ => false
  end.

Definition drop_final_newline (s : string) : string :=
  if endswith "010"%char s then slice_to (Z.of_nat (String.length s) - 1) s else s.

(** [_negative_number_matcher], the expression [^-\d+$|^-\d*\.\d+$]
    (a [$] also matches before a final newline). *)
Definition negative_number_like (s : string) : bool :=
  match drop_final_newline s with
  | String a r =>
      Ascii.eqb a dash
      && ((truthy r && all_digits r)
          || match drop_digits r with
             | String p q => Ascii.eqb p "."%char && truthy q && all_digits q
             | EmptyString => false
             end)
  | EmptyString => false
  end.

(** One candidate reading of an argument string as an option: the action
    (absent for an unknown option), the option string, and the argument
    attached to it, if any. *)
Definition option_tuple : Type := option Action * string * option string.

(** [_get_option_tuples], for a string of at least two characters that
    starts with a dash. *)
Definition get_option_tuples (m : list (string * Action)) (arg : string)
  : list option_tuple :=
  if is_long arg then
    let '(option_prefix, explicit_arg) :=
      if contains "="%char arg
      then let '(h, t) := split_first "="%char arg in (h, Some t)
      else (arg, None) in
    omap (fun '(o, a) =>
            if startswith option_prefix o then Some (Some a, o, explicit_arg)
            else None) m
  else
    let short_option_prefix := slice_to 2 arg in
    let short_explicit_arg := slice_from 2 arg in
    omap (fun '(o, a) =>
            if String.eqb o short_option_prefix
            then Some (Some a, o, Some short_explicit_arg)
            else if startswith arg o then Some (Some a, o, None)
            else None) m.

Inductive classified : Type :=
| Positional
| Optional (t : option_tuple)
| Ambiguous (matches : list string).

(** [_parse_optional]; none of this parser's option strings looks like a
    negative number. *)
Definition parse_optional (m : list (string * Action)) (arg : string) : classified :=
  match arg with
  | EmptyString => Positional
  | String c _ =>
      if negb (Ascii.eqb c dash) then Positional
      else match lookup_option arg m with
      | Some a => Optional (Some a, arg, None)
      | None =>
          if Nat.eqb (String.length arg) 1 then Positional
          else
            let direct :=
              if contains "="%char arg then
                let '(o, e) := split_first "="%char arg in
                match lookup_option o m with
                | Some a => Some (Optional (Some a, o, Some e))
                | None => None
                end
              else None in
            match direct with
            | Some r => r
            | None =>
                match get_option_tuples m arg with
                | [t] => Optional t
                | (_ :: _ :: _) as ts => Ambiguous (List.map (fun t => snd (fst t)) ts)
                | [] =>
                    if negative_number_like arg then Positional
                    else if contains " "%char arg then Positional
                    else Optional (None, arg, None)
                end
            end
      end
  end.

(** The messages [parser.error] can be called with. *)
Inductive usage_error : Type :=
| AmbiguousOption (arg : string) (matches : list string)
| ExpectedOneArgument (a : Action)
| IgnoredExplicitArgument (a : Action) (explicit_arg : string)
| RequiredArguments (names : list string)
| UnrecognizedArguments (extras : list string).

(** How [parse_args] ends: with the namespace, with a usage error
    (usage text and message on stderr, exit status 2), or in the help
    action (help text on stdout, exit status 0). *)
Inductive outcome : Type :=
| Parsed (namespace : gmap string pyval)
| UsageError (e : usage_error)
| HelpExit.

Definition exit_status (o : outcome) : option Z :=
  match o with
  | Parsed _ => None
  | UsageError _ => Some 2
  | HelpExit => Some 0
  end.

(** The letters of [arg_strings_pattern]. *)
Inductive pat : Type := PO | PA | PDash.

Inductive halt : Type :=
| HaltError (e : usage_error)
| HaltHelp.

(** The first loop of [_parse_known_args]: one pattern letter per
    argument string and the option found at each index. *)
Fixpoint classify (m : list (string * Action)) (args : list string)
  : halt + list (pat * option option_tuple) :=
  match args with
  | [] => inr []
  | a :: rest =>
      if String.eqb a "--"
      then inr ((PDash, None) :: List.map (fun _ => (PA, None)) rest)
      else match parse_optional m a with
           | Ambiguous ms => inl (HaltError (AmbiguousOption a ms))
           | Positional =>
               match classify m rest with
               | inl h => inl h
               | inr l => inr ((PA, None) :: l)
               end
           | Optional t =>
               match classify m rest with
               | inl h => inl h
               | inr l => inr ((PO, Some t) :: l)
               end
           end
  end.

(** The mutable state of [_parse_known_args]. *)
Record pstate : Type := {
  namespace : gmap string pyval;
  seen_actions : list string;        (* by destination *)
  positionals : list Action;         (* not yet consumed *)
  extras : list string
}.

Inductive step (A : Type) : Type :=
| Go (a : A) (st : pstate)
| Halt (h : halt).
Arguments Go {A} a st.
Arguments Halt {A} h.

(** [list.remove('--')], ignoring its absence. *)
Fixpoint remove_first (x : string) (l : list string) : list string :=
  match l with
  | [] => []
  | y :: r => if String.eqb y x then r else y :: remove_first x r
  end.

(** [_get_values]: the first [--] is dropped; a single string for a
    one-argument action is the value itself, anything else is a list. *)
Definition get_values (a : Action) (args : list string) : pyval :=
  let args := remove_first "--" args in
  match kind a, args with
  | Store, [x] => PyStr x
  | _, _ => PyList args
  end.

Definition take_action (a : Action) (args : list string) (st : pstate) : step unit :=
  let seen := dest a :: seen_actions st in
  let values := get_values a args in
  match kind a with
  | Store =>
      Go tt {| namespace := <[dest a := values]> (namespace st);
               seen_actions := seen; positionals := positionals st;
               extras := extras st |}
  | StoreTrue =>
      Go tt {| namespace := <[dest a := PyBool true]> (namespace st);
               seen_actions := seen; positionals := positionals st;
               extras := extras st |}
  | Help => Halt HaltHelp
  end.

Fixpoint count_dashes (l : list pat) : nat :=
  match l with
  | PDash :: r => S (count_dashes r)
  | _ => 0%nat
  end.

(** A match of the group [-*A-*] of a one-argument positional at the
    start of a pattern: its length. *)
Definition match_one (l : list pat) : option nat :=
  let d1 := count_dashes l in
  match drop d1 l with
  | PA :: r => Some (d1 + 1 + count_dashes r)%nat
  | _ => None
  end.

(** A match of [n] such groups in a row: their lengths. *)
Fixpoint match_groups (n : nat) (l : list pat) : option (list nat) :=
  match n with
  | O => Some []
  | S k =>
      match match_one l with
      | None => None
      | Some c =>
          match match_groups k (drop c l) with
          | None => None
          | Some cs => Some (c :: cs)
          end
      end
  end.

(** [_match_arguments_partial]: as many leading positionals as match. *)
Fixpoint match_arguments_partial (n : nat) (l : list pat) : list nat :=
  match n with
  | O => []
  | S k =>
      match match_groups n l with
      | Some cs => cs
      | None => match_arguments_partial k l
      end
  end.

Section Parse.
Variable actions : list Action.
Variable arg_strings : list string.
Variable table : list (pat * option option_tuple).

Definition option_at (i : nat) : option option_tuple :=
  match table !! i with
  | Some (_, Some t) => Some t
  | _ => None
  end.

Fixpoint take_actions (l : list (Action * nat)) (start : nat) (st : pstate)
  : step nat :=
  match l with
  | [] => Go start st
  | (a, c) :: r =>
      match take_action a (take c (drop start arg_strings)) st with
      | Halt h => Halt h
      | Go _ st1 => take_actions r (start + c)%nat st1
      end
  end.

Definition consume_positionals (start : nat) (st : pstate) : step nat :=
  let counts := match_arguments_partial (length (positionals st))
                  (drop start (List.map fst table)) in
  match take_actions (zip (positionals st) counts) start st with
  | Halt h => Halt h
  | Go stop st1 =>
      Go stop {| namespace := namespace st1; seen_actions := seen_actions st1;
                 positionals := drop (length counts) (positionals st1);
                 extras := extras st1 |}
  end.

(** [_match_argument] for an optional: its number of arguments. *)
Definition match_argument (a : Action) (l : list pat) : halt + nat :=
  match kind a with
  | Store =>
      match l with
      | PA :: _ => inr 1%nat
      | _ => inl (HaltError (ExpectedOneArgument a))
      end
  | _ => inr 0%nat
  end.

(** The loop of [consume_optional]: the actions to take, with their
    arguments, and the index after them. *)
Definition without_explicit_arg (start : nat) (a : Action)
  (acc : list (Action * list string))
  : halt + (list (Action * list string) * nat) :=
  match match_argument a (drop (S start) (List.map fst table)) with
  | inl h => inl h
  | inr c => inr (acc ++ [(a, take c (drop (S start) arg_strings))], (S start + c)%nat)
  end.

Fixpoint with_explicit_arg (start : nat) (a : Action) (option_string : string)
  (explicit_arg : string) (acc : list (Action * list string))
  : halt + (list (Action * list string) * nat) :=
  match kind a with
  | Store => inr (acc ++ [(a, [explicit_arg])], S start)
  | _ =>
      if is_long option_string then
        inl (HaltError (IgnoredExplicitArgument a explicit_arg))
      else
        match explicit_arg with
        | EmptyString => inl (HaltError (IgnoredExplicitArgument a explicit_arg))
        | String c rest =>
            match lookup_option (String dash (String c EmptyString))
                    (option_string_actions actions) with
            | None => inl (HaltError (IgnoredExplicitArgument a explicit_arg))
            | Some a1 =>
                match rest with
                | EmptyString => without_explicit_arg start a1 (acc ++ [(a, [])])
                | _ => with_explicit_arg start a1
                         (String dash (String c EmptyString)) rest (acc ++ [(a, [])])
                end
            end
        end
  end.

Fixpoint run_actions (l : list (Action * list string)) (st : pstate) : step unit :=
  match l with
  | [] => Go tt st
  | (a, args) :: r =>
      match take_action a args st with
      | Halt h => Halt h
      | Go _ st1 => run_actions r st1
      end
  end.

Definition add_extras (l : list string) (st : pstate) : pstate :=
  {| namespace := namespace st; seen_actions := seen_actions st;
     positionals := positionals st; extras := extras st ++ l |}.

Definition consume_optional (start : nat) (st : pstate) : step nat :=
  match option_at start with
  | None => Go (S start) st
  | Some (None, _, _) =>
      Go (S start) (add_extras (take 1 (drop start arg_strings)) st)
  | Some (Some a, option_string, explicit_arg) =>
      let planned :=
        match explicit_arg with
        | Some e => with_explicit_arg start a option_string e []
        | None => without_explicit_arg start a []
        end in
      match planned with
      | inl h => Halt h
      | inr (tuples, stop) =>
          match run_actions tuples st with
          | Halt h => Halt h
          | Go _ st1 => Go stop st1
          end
      end
  end.

Definition is_option_index (i : nat) : bool :=
  match option_at i with Some _ => true | None => false end.

(** [max(option_string_indices)], absent when there is no option. *)
Definition max_option_string_index : option nat :=
  last (List.filter is_option_index (seq 0 (length table))).

(** [min(index for index in option_string_indices if index >= start)]. *)
Definition next_option_string_index (start : nat) : nat :=
  match List.filter is_option_index (seq start (length table - start)) with
  | i :: _ => i
  | [] => length table
  end.

(** The [while] loop that consumes positionals and optionals in turn.
    Every round moves [start] forward, so [fuel] rounds with [fuel]
    above the number of argument strings are enough. *)
Fixpoint consume_loop (fuel : nat) (start : nat) (st : pstate) : step nat :=
  match max_option_string_index with
  | None => Go start st
  | Some max_index =>
      if Nat.ltb max_index start then Go start st
      else
        match fuel with
        | O => Go start st
        | S fuel1 =>
            let next := next_option_string_index start in
            let before :=
              if Nat.eqb start next then Go (false, start) st
              else match consume_positionals start st with
                   | Halt h => Halt h
                   | Go stop st1 => Go (Nat.ltb start stop, stop) st1
                   end in
            match before with
            | Halt h => Halt h
            | Go (true, start1) st1 => consume_loop fuel1 start1 st1
            | Go (false, start1) st1 =>
                let '(start2, st2) :=
                  if is_option_index start1 then (start1, st1)
                  else (next, add_extras (take (next - start1) (drop start1 arg_strings)) st1) in
                match consume_optional start2 st2 with
                | Halt h => Halt h
                | Go start3 st3 => consume_loop fuel1 start3 st3
                end
            end
        end
  end.

(** [_get_action_name]. *)
Definition action_name (a : Action) : string :=
  match option_strings a with
  | [] => dest a
  | os => PyStr.join "/" os
  end.

Definition required_actions (st : pstate) : list string :=
  List.map action_name
    (List.filter (fun a => required a
                           && negb (existsb (String.eqb (dest a)) (seen_actions st)))
                 actions).

(** [_parse_known_args] after the classification, followed by the check
    of [parse_args] that nothing is left over. *)
Definition parse_classified (st : pstate) : outcome :=
  match consume_loop (S (length arg_strings)) 0 st with
  | Halt (HaltError e) => UsageError e
  | Halt HaltHelp => HelpExit
  | Go start st1 =>
      match consume_positionals start st1 with
      | Halt (HaltError e) => UsageError e
      | Halt HaltHelp => HelpExit
      | Go stop st2 =>
          let st3 := add_extras (drop stop arg_strings) st2 in
          match required_actions st3 with
          | (_ :: _) as names => UsageError (RequiredArguments names)
          | [] =>
              match extras st3 with
              | (_ :: _) as ex => UsageError (UnrecognizedArguments ex)
              | [] => Parsed (namespace st3)
              end
          end
      end
  end.

End Parse.

Definition is_positional (a : Action) : bool :=
  match option_strings a with [] => true | _ => false end.

(** The namespace [parse_known_args] starts from: every action's default
    that is not suppressed. *)
Definition default_namespace (actions : list Action) : gmap string pyval :=
  fold_left (fun ns a => match default a with
                         | Some d => match ns !! dest a with
                                     | None => <[dest a := d]> ns
                                     | Some _ => ns
                                     end
                         | None => ns
                         end) actions ∅.

(** [parser.parse_args(args)]. *)
Definition parse_args (actions : list Action) (args : list string) : outcome :=
  match classify (option_string_actions actions) args with
  | inl (HaltError e) => UsageError e
  | inl HaltHelp => HelpExit
  | inr table =>
      parse_classified actions args table
        {| namespace := default_namespace actions;
           seen_actions := [];
           positionals := List.filter is_positional actions;
           extras := [] |}
  end.

(** *** Notions used to state properties of the algorithm *)

(** An action registered under some option string of the parser. *)
Definition is_optional_of (actions : list Action) (a : Action) : Prop :=
  exists o, (o, a) ∈ option_string_actions actions.

(** An option tuple whose action, if any, is one of the parser's. *)
Definition tuple_of (actions : list Action) (t : option_tuple) : Prop :=
  match t with
  | (Some a, _, _) => is_optional_of actions a
  | (None, _, _) => True
  end.

(** An argument list without a dataset argument: no string of it is the
    separator [--] or is read as a positional. *)
Definition no_positional (actions : list Action) (args : list string) : Prop :=
  Forall (fun a => a <> "--"
                   /\ parse_optional (option_string_actions actions) a <> Positional)
         args.

(** A table the classification produces for such a list: no letter A,
    and every option found is one of the parser's. *)
Definition plain_table (actions : list Action)
  (table : list (pat * option option_tuple)) : Prop :=
  Forall (fun e => e.1 <> PA
                   /\ match e.2 with
                      | Some t => tuple_of actions t
                      | None => True
                      end) table.

End Argparse.

(** ** [designer/pydesigner.py]: tool discovery and the argument parser *)
Module Pydesigner.
Import Py Argparse.

(** The parser after the [add_argument] calls of lines 65 to 138, in the
    order of the calls; the constructor of line 38 has added the help
    action first. *)
Definition parser : list Action :=
  [ help_action;
    positional "dwi";
    optional ["-o"; "--output"] Store (Some PyNone);
    optional ["-s"; "--standard"] StoreTrue (Some (PyBool false));
    optional ["--denoise"] StoreTrue (Some (PyBool false));
    optional ["--extent"] Store (Some (PyStr "5,5,5"));
    optional ["--eddy"] StoreTrue (Some (PyBool false));
    optional ["--b1correct"] StoreTrue (Some (PyBool false));
    optional ["--scaleb0median"] StoreTrue (Some (PyBool false));
    optional ["--smooth"] StoreTrue (Some (PyBool false));
    optional ["-d"; "--DTI"] StoreTrue (Some (PyBool false));
    optional ["-k"; "--DKI"] StoreTrue (Some (PyBool false));
    optional ["-w"; "--WMTI"] StoreTrue (Some (PyBool false));
    optional ["--kcumulants"] StoreTrue (Some (PyBool false));
    optional ["--mask"] StoreTrue (Some (PyBool false));
    optional ["--fit_constraints"] Store (Some (PyStr "0,1,0"));
    optional ["--rpe_none"] StoreTrue (Some (PyBool false));
    optional ["--rpe_pair"] Store (Some PyNone);
    optional ["--rpe_all"] Store (Some PyNone);
    optional ["--pe_dir"] Store (Some PyNone) ].

(** The boolean switches of the command line. *)
Definition boolean_flags : list string :=
  [ "standard"; "denoise"; "eddy"; "b1correct"; "scaleb0median"; "smooth";
    "DTI"; "DKI"; "WMTI"; "kcumulants"; "mask"; "rpe_none" ].

(** What the script reads from its host: the executable search path, as
    [shutil.which] answers for it, and the command line after the program
    name. *)
Record Host : Type := {
  which : string -> option string;
  argv : list string
}.

(** What the script does to its host, in order. *)
Inductive event : Type :=
| Which (name : string)               (* a lookup on the search path *)
| ParseArgs (args : list string)      (* the call of [parser.parse_args] *)
| Stderr (e : usage_error)            (* usage text and error message *)
| PrintHelp.                          (* help text on stdout *)

(** The module's globals once the script has run to its end. *)
Record Globals : Type := {
  mrtrix3path : string;
  fslpath : string;
  args : gmap string pyval
}.

(** The messages of the two [raise Exception(...)] statements. *)
Definition cannot_find_mrtrix3 : string :=
  "Cannot find mrtrix3, please see https://github.com/m-ama/PyDesigner/wiki to troubleshoot.".

Definition cannot_find_fsl : string :=
  "Cannot find FSL, please see https://github.com/m-ama/PyDesigner/wiki to troubleshoot.".

Section Script.
Variable h : Host.

Definition shutil_which (name : string) : M (list event) (option string) :=
  fun tr => (Ok (which h name), tr ++ [Which name]).

(** [if location == None: raise Exception(msg)]; past it the location is
    a path. *)
Definition found_or_raise (location : option string) (msg : string)
  : M (list event) string :=
  match location with
  | None => raise (Exception msg)
  | Some p => ret p
  end.

Definition parse_args_call : M (list event) (gmap string pyval) :=
  fun tr =>
    let tr := tr ++ [ParseArgs (argv h)] in
    match parse_args parser (argv h) with
    | Parsed ns => (Ok ns, tr)
    | UsageError e => (Raise (SystemExit 2), tr ++ [Stderr e])
    | HelpExit => (Raise (SystemExit 0), tr ++ [PrintHelp])
    end.

(** The statements of the module, top to bottom. *)
Definition script : M (list event) Globals :=
  (dwidenoise_location <- shutil_which "dwidenoise" ;;;
   dwidenoise_location <- found_or_raise dwidenoise_location cannot_find_mrtrix3 ;;;
   let mrtrix3path := posixpath.dirname dwidenoise_location in
   fsl_location <- shutil_which "fsl" ;;;
   fsl_location <- found_or_raise fsl_location cannot_find_fsl ;;;
   let fslpath := posixpath.dirname fsl_location in
   args <- parse_args_call ;;;
   ret {| mrtrix3path := mrtrix3path; fslpath := fslpath; args := args |})%py.

(** Running the script from the start: how it ends and what it did. *)
Definition run : result Globals * list event := script [].

End Script.

Definition is_parse_event (e : event) : bool :=
  match e with ParseArgs _ => true | _ => false end.

End Pydesigner.

(** ** A sample dataset and sample hosts, for concrete runs *)
Module Sample.
Import Py Numpy Dwipi.

(** Three volumes: [scan.bvec] holds the three unit directions as a
    3-by-3 table, [scan.bval] the b-values 0, 999.5 and 1000.5. *)
Definition bvec_table : ndarray Q :=
  Arr2 [[1%Q; 0%Q; 0%Q]; [0%Q; 1%Q; 0%Q]; [0%Q; 0%Q; 1%Q]].

Definition bval_row : ndarray Q := Arr1 [0%Q; (1999 # 2)%Q; (2001 # 2)%Q].

Definition scan_world : World Q string (list Z) :=
  {| path_exists := fun p =>
       existsb (String.eqb p) ["/data/scan.nii"; "/data/scan.bval"; "/data/scan.bvec"];
     nib_load := fun p =>
       if String.eqb p "/data/scan.nii" then Ok "scan.nii header"
       else Raise (LibraryError "nibabel");
     dataobj_array := fun _ => Ok [7; 8; 9];
     loadtxt := fun p =>
       if String.eqb p "/data/scan.bvec" then Ok bvec_table
       else if String.eqb p "/data/scan.bval" then Ok bval_row
       else Raise (LibraryError "numpy.loadtxt") |}.

(** The same image without its [.bval] file. *)
Definition scan_world_without_bval : World Q string (list Z) :=
  {| path_exists := fun p =>
       existsb (String.eqb p) ["/data/scan.nii"; "/data/scan.bvec"];
     nib_load := nib_load scan_world;
     dataobj_array := dataobj_array scan_world;
     loadtxt := loadtxt scan_world |}.

(** A host on which no file exists. *)
Definition empty_world : World Q string (list Z) :=
  {| path_exists := fun _ => false;
     nib_load := fun _ => Raise (LibraryError "nibabel");
     dataobj_array := fun _ => Raise (LibraryError "nibabel");
     loadtxt := fun _ => Raise (LibraryError "numpy.loadtxt") |}.

(** A host with neither toolchain, one with mrtrix3 only, one with both. *)
Definition host_without_tools : Pydesigner.Host :=
  {| Pydesigner.which := fun _ => None;
     Pydesigner.argv := ["/data/scan.nii"] |}.

Definition host_without_fsl : Pydesigner.Host :=
  {| Pydesigner.which := fun name =>
       if String.eqb name "dwidenoise" then Some "/opt/mrtrix3/bin/dwidenoise"
       else None;
     Pydesigner.argv := ["/data/scan.nii"] |}.

Definition host_with_tools (argv : list string) : Pydesigner.Host :=
  {| Pydesigner.which := fun name =>
       if String.eqb name "dwidenoise" then Some "/opt/mrtrix3/bin/dwidenoise"
       else if String.eqb name "fsl" then Some "/usr/local/fsl/bin/fsl"
       else None;
     Pydesigner.argv := argv |}.

End Sample.

(** ** More sample hosts *)
Module MoreSamples.
Import Py Numpy Dwipi.

(** The image file exists but the NIfTI reader rejects it. *)
Definition unreadable_world : World Q string (list Z) :=
  {| path_exists := fun p => String.eqb p "/data/scan.nii";
     nib_load := fun _ => Raise (LibraryError "nibabel: not a NIfTI file");
     dataobj_array := fun _ => Ok [];
     loadtxt := fun _ => Raise (LibraryError "numpy.loadtxt") |}.

(** Three gradient directions but only two b-values. *)
Definition short_bval_world : World Q string (list Z) :=
  {| path_exists := path_exists Sample.scan_world;
     nib_load := nib_load Sample.scan_world;
     dataobj_array := dataobj_array Sample.scan_world;
     loadtxt := fun p =>
       if String.eqb p "/data/scan.bvec" then Ok Sample.bvec_table
       else if String.eqb p "/data/scan.bval" then Ok (Arr1 [0%Q; 1000%Q])
       else Raise (LibraryError "numpy.loadtxt") |}.

(** One volume: [scan.bvec] holds three lines of one number and
    [scan.bval] one number, and [np.loadtxt], which drops the axes of
    length one, hands back a vector of three numbers and a scalar. *)
Definition single_volume_world : World Q string (list Z) :=
  {| path_exists := path_exists Sample.scan_world;
     nib_load := nib_load Sample.scan_world;
     dataobj_array := dataobj_array Sample.scan_world;
     loadtxt := fun p =>
       if String.eqb p "/data/scan.bvec" then Ok (Arr1 [1%Q; 0%Q; 0%Q])
       else if String.eqb p "/data/scan.bval" then Ok (Arr0 1000%Q)
       else Raise (LibraryError "numpy.loadtxt") |}.

End MoreSamples.

(** ** Index tuples of a symmetric tensor

    The notions the tables of [createTensorOrder] are compared with. *)
Module TensorIndex.

(** Every tuple of [n] indices over 0, 1, 2, in lexicographic order. *)
Fixpoint tuples (n : nat) : list (list Z) :=
  match n with
  | O => [[]]
  | S k => flat_map (fun x => List.map (cons x) (tuples k)) [0; 1; 2]
  end.

Fixpoint nondecreasing (t : list Z) : bool :=
  match t with
  | x :: r => match r with
              | y :: _ => Z.leb x y && nondecreasing r
              | [] => true
              end
  | [] => true
  end.

(** The number of tuples of [n] indices that are rearrangements of [t]. *)
Definition rearrangements (n : nat) (t : list Z) : Z :=
  Z.of_nat (length (List.filter (fun u => bool_decide (u ≡ₚ t)) (tuples n))).

End TensorIndex.

(** ** Notions used to state further properties of the parser *)
Module ParseNotions.
Import Py Argparse.

(** A state of the parsing loop that satisfies a property of the
    namespace and the destinations seen, with its pending positionals
    among the parser's actions. *)
Definition holds (actions : list Action)
  (I : gmap string pyval -> list string -> Prop) (st : pstate) : Prop :=
  I (namespace st) (seen_actions st)
  /\ Forall (fun a => a ∈ actions) (positionals st).

(** The first string that can be read as several options, among the
    strings before the separator [--], with the options it could be. *)
Fixpoint first_ambiguous (m : list (string * Action)) (args : list string)
  : option (string * list string) :=
  match args with
  | [] => None
  | a :: rest =>
      if String.eqb a "--" then None
      else match parse_optional m a with
           | Ambiguous ms => Some (a, ms)
           | _ => first_ambiguous m rest
           end
  end.

(** The table entry of a string that is neither the separator nor
    ambiguous. *)
Definition entry (m : list (string * Action)) (s : string)
  : pat * option option_tuple :=
  match parse_optional m s with
  | Optional t => (PO, Some t)
  | _ => (PA, None)
  end.

(** The state after an action has stored a value. *)
Definition stored (a : Action) (v : pyval) (st : pstate) : pstate :=
  {| namespace := <[dest a := v]> (namespace st);
     seen_actions := dest a :: seen_actions st;
     positionals := positionals st;
     extras := extras st |}.

(** The ways the loop can stop early: in the help action, for want of
    the argument of a one-argument option, or on an argument attached to
    an option that takes none. *)
Definition expected_halt (actions : list Action) (h : halt) : Prop :=
  match h with
  | HaltHelp => exists a, a ∈ actions /\ kind a = Help
  | HaltError (ExpectedOneArgument a) => is_optional_of actions a /\ kind a = Store
  | HaltError (IgnoredExplicitArgument a _) =>
      is_optional_of actions a /\ kind a <> Store
  | HaltError _ => False
  end.

End ParseNotions.

(** ** Command lines of [pydesigner.py] written option by option *)
Module CommandLine.
Import Py Argparse Pydesigner ParseNotions.

(** An option as it is written on a command line. *)
Inductive item : Type :=
| Switch (o : string)        (* a flag, as in [--denoise] *)
| Valued (o v : string)      (* an option and its value, as in [--extent 3,3,3] *)
| Joined (o v : string).     (* the two in one string, as in [--extent=3,3,3] *)

Definition tokens (i : item) : list string :=
  match i with
  | Switch o => [o]
  | Valued o v => [o; v]
  | Joined o v => [o +:+ "=" +:+ v]
  end.

(** The option strings of the [store_true] arguments and of the
    one-value arguments of lines 65 to 138. *)
Definition switch_strings : list string :=
  [ "-s"; "--standard"; "--denoise"; "--eddy"; "--b1correct";
    "--scaleb0median"; "--smooth"; "-d"; "--DTI"; "-k"; "--DKI";
    "-w"; "--WMTI"; "--kcumulants"; "--mask"; "--rpe_none" ].

Definition value_strings : list string :=
  [ "-o"; "--output"; "--extent"; "--fit_constraints";
    "--rpe_pair"; "--rpe_all"; "--pe_dir" ].

(** An item written with a full option string; a separate value does not
    start with a dash, a joined value is not the separator. *)
Definition well_formed (i : item) : Prop :=
  match i with
  | Switch o => o ∈ switch_strings
  | Valued o v => o ∈ value_strings /\ PyStr.startswith "-" v = false
  | Joined o v => o ∈ value_strings /\ v <> "--"
  end.

(** The action registered under an option string, and the attribute it
    writes. *)
Definition option_action (o : string) : Action :=
  match lookup_option o (option_string_actions parser) with
  | Some a => a
  | None => help_action
  end.

Definition attribute (o : string) : string := dest (option_action o).

(** What an item writes, and where. *)
Definition target (i : item) : string :=
  match i with
  | Switch o => attribute o
  | Valued o _ => attribute o
  | Joined o _ => attribute o
  end.

Definition value (i : item) : pyval :=
  match i with
  | Switch _ => PyBool true
  | Valued _ v => PyStr v
  | Joined _ v => PyStr v
  end.

Definition effect (ns : gmap string pyval) (i : item) : gmap string pyval :=
  <[target i := value i]> ns.

Definition run_item (st : pstate) (i : item) : pstate :=
  stored (option_action (match i with
                         | Switch o => o
                         | Valued o _ => o
                         | Joined o _ => o
                         end)) (value i) st.

(** The value the last item that writes [k] gives it, if any does. *)
Definition last_written (k : string) (items : list item) : option pyval :=
  fold_left (fun acc i => if String.eqb (target i) k then Some (value i) else acc)
            items None.

(** Whether a switch for the flag [f] is among the items. *)
Definition switched (f : string) (items : list item) : bool :=
  existsb (fun i => match i with
                    | Switch o => String.eqb (attribute o) f
                    | _ => false
                    end) items.

(** The state [parse_args] enters the loop with. *)
Definition initial_state : pstate :=
  {| namespace := default_namespace parser;
     seen_actions := [];
     positionals := List.filter is_positional parser;
     extras := [] |}.

End CommandLine.

(** ** The dataset argument during the parse *)
Module DatasetNotions.
Import Py Argparse Pydesigner.

(** The argument strings around the first separator [--]: the strings
    before it and their entries, then either nothing or the separator and
    the strings after it, which are all read as arguments. *)
Definition separator_shape (m : list (string * Action))
  (args : list string) (table : list (pat * option option_tuple))
  (xs tail : list string) (tail_t : list (pat * option option_tuple)) : Prop :=
  args = xs ++ tail
  /\ table = List.map (ParseNotions.entry m) xs ++ tail_t
  /\ ("--" ∉ xs)
  /\ ((tail = [] /\ tail_t = [])
      \/ exists ys, tail = "--" :: ys
                    /\ tail_t = (PDash, None) :: List.map (fun _ => (PA, None)) ys).

(** The state of the dataset argument: still pending and not seen, or
    consumed, and then [dwi] holds a string. *)
Definition dataset_state (st : pstate) : Prop :=
  (positionals st = [positional "dwi"] /\ ("dwi" ∉ seen_actions st))
  \/ (positionals st = [] /\ exists s, namespace st !! "dwi" = Some (PyStr s)).

(** While the dataset is pending, the loop stands at or before the
    separator, or past the last string. *)
Definition dataset_invariant (q len start : nat) (st : pstate) : Prop :=
  dataset_state st
  /\ (positionals st <> [] -> (start <= q)%nat \/ (len <= start)%nat).

(** A consumed dataset is one of the argument strings. *)
Definition dataset_argument (args : list string) (st : pstate) : Prop :=
  positionals st = [] ->
  exists s, s ∈ args /\ namespace st !! "dwi" = Some (PyStr s).

(** The decimal digit three of the Arabic-Indic script, U+0663, whose
    UTF-8 encoding is the two bytes D9 A3. *)
Definition arabic_indic_three : string := String "217" (String "163" "").

End DatasetNotions.

Example split_abs : posixpath.split "/data/sub/scan.nii" = ("/data/sub", "scan.nii").
Proof. reflexivity. Qed.
Example split_root : posixpath.split "/scan.nii" = ("/", "scan.nii").
Proof. reflexivity. Qed.
Example split_rel : posixpath.split "scan.nii" = ("", "scan.nii").
Proof. reflexivity. Qed.
Example split_slashes : posixpath.split "a//b" = ("a", "b").
Proof. reflexivity. Qed.
Example splitext_nii : posixpath.splitext "scan.nii" = ("scan", ".nii").
Proof. reflexivity. Qed.
Example splitext_gz : posixpath.splitext "scan.nii.gz" = ("scan.nii", ".gz").
Proof. reflexivity. Qed.
Example splitext_hidden : posixpath.splitext ".bashrc" = (".bashrc", "").
Proof. reflexivity. Qed.
Example splitext_dots : posixpath.splitext "..a.b" = ("..a", ".b").
Proof. reflexivity. Qed.
Example join_rel : posixpath.join "" "scan.bval" = "scan.bval".
Proof. reflexivity. Qed.
Example join_abs : posixpath.join "/data" "scan.bval" = "/data/scan.bval".
Proof. reflexivity. Qed.
Example join_root : posixpath.join "/" "scan.bval" = "/scan.bval".
Proof. reflexivity. Qed.
Example dirname_bin : posixpath.dirname "/usr/local/bin/dwidenoise" = "/usr/local/bin".
Proof. reflexivity. Qed.

(** * Properties *)

(** ** Arrays *)
Section NumpyFacts.
Import Numpy.
Context {T : Type}.
Implicit Types (rows : list (list T)) (xs ys zs : list T).

Lemma map_is_fmap {A B} (f : A -> B) (l : list A) : List.map f l = f <$> l.
Proof. reflexivity. Qed.

(** The transpose of a table of three rows of equal length is the list
    of its columns, each a triple. *)
Lemma transpose_rows_three xs ys zs :
  length ys = length xs -> length zs = length xs ->
  transpose_rows [xs; ys; zs]
  = zip_with (fun x yz => x :: yz) xs (zip_with (fun y z => [y; z]) ys zs).
Proof.
  intros Hy Hz. apply list_eq. intros i.
  unfold transpose_rows, ncols. rewrite map_is_fmap, list_lookup_fmap.
  rewrite !lookup_zip_with.
  destruct (decide (i < length xs)%nat) as [Hlt | Hge].
  - rewrite lookup_seq_lt by done. simpl.
    destruct (lookup_lt_is_Some_2 xs i Hlt) as [x Hx].
    destruct (lookup_lt_is_Some_2 ys i ltac:(lia)) as [y Hy'].
    destruct (lookup_lt_is_Some_2 zs i ltac:(lia)) as [z Hz'].
    unfold column. simpl. rewrite Hx, Hy', Hz'. reflexivity.
  - rewrite (lookup_ge_None_2 (seq 0 (length xs))) by (rewrite length_seq; lia).
    rewrite (lookup_ge_None_2 xs) by lia. reflexivity.
Qed.

(** Appending a column to a table of triples. *)
Lemma append_column_spec (t : list (list T)) (cs : list T) :
  Forall (fun r => length r = 3%nat) t -> length t = length cs ->
  let rows := zip_with app t (List.map (fun c => [c]) cs) in
  length rows = length cs
  /\ Forall (fun r => length r = 4%nat) rows
  /\ take 3 <$> rows = t
  /\ column 3 rows = cs.
Proof.
  intros Ht. revert cs. induction Ht as [| r t Hr Ht IH]; intros [| c cs] Hlen;
    simpl in *; try discriminate.
  - repeat split; constructor.
  - destruct (IH cs ltac:(lia)) as (H1 & H2 & H3 & H4).
    destruct r as [| a [| b [| d [| ? ?]]]]; simpl in Hr; try discriminate.
    repeat split.
    + simpl. f_equal. exact H1.
    + constructor; [reflexivity | exact H2].
    + simpl. f_equal. exact H3.
    + unfold column in *. simpl. f_equal. exact H4.
Qed.

Lemma triples_length xs ys zs :
  Forall (fun r => length r = 3%nat)
    (zip_with (fun x yz => x :: yz) xs (zip_with (fun y z => [y; z]) ys zs)).
Proof.
  revert ys zs. induction xs as [| x xs IH]; intros [| y ys] [| z zs]; simpl;
    try constructor; auto.
Qed.

End NumpyFacts.

(** ** [np.rint] on rationals *)
Section RintFacts.
Import Numpy.
Local Open Scope Q_scope.

(** [rint_Q] yields an integer at distance at most one half. *)
Lemma rint_Q_nearest (x : Q) :
  exists n : Z, rint_Q x = inject_Z n /\ Qabs (x - inject_Z n) <= 1 # 2.
Proof.
  unfold rint_Q.
  pose proof (Qfloor_le x) as Hlo. pose proof (Qlt_floor x) as Hhi.
  rewrite inject_Z_plus in Hhi. change (inject_Z 1) with 1 in Hhi.
  assert (Hup : inject_Z (Qfloor x + 1) == inject_Z (Qfloor x) + 1)
    by (rewrite inject_Z_plus; reflexivity).
  destruct (Qcompare_spec (x - inject_Z (Qfloor x)) (1 # 2)) as [He | Hl | Hg].
  - destruct (Z.even (Qfloor x)); eexists; (split; [reflexivity |]);
      apply Qabs_Qle_condition; rewrite ?Hup; split; lra.
  - eexists; split; [reflexivity |].
    apply Qabs_Qle_condition; split; lra.
  - eexists; split; [reflexivity |].
    apply Qabs_Qle_condition; rewrite Hup; split; lra.
Qed.

(** Halfway between two integers the even one is taken. *)
Lemma rint_Q_half_even (k : Z) :
  rint_Q (inject_Z k + (1 # 2))
  = inject_Z (if Z.even k then k else (k + 1)%Z).
Proof.
  unfold rint_Q.
  assert (Hf : Qfloor (inject_Z k + (1 # 2)) = k).
  { pose proof (Qfloor_le (inject_Z k + (1 # 2))) as Hlo.
    pose proof (Qlt_floor (inject_Z k + (1 # 2))) as Hhi.
    rewrite inject_Z_plus in Hhi. change (inject_Z 1) with 1 in Hhi.
    apply Z.le_antisymm; apply Z.lt_succ_r; rewrite Zlt_Qlt; unfold Z.succ;
      rewrite inject_Z_plus; change (inject_Z 1) with 1; lra. }
  rewrite Hf.
  assert (Hc : (inject_Z k + (1 # 2) - inject_Z k ?= 1 # 2) = Eq)
    by (apply Qeq_alt; lra).
  rewrite Hc. destruct (Z.even k); reflexivity.
Qed.

End RintFacts.

(** ** The constructor of [DWI] *)
Section ConstructorFacts.
Import Py Numpy Dwipi.
Context {F Hdr Vox : Type} (rint : F -> F) (W : World F Hdr Vox).

(** Running a method body: unfold the monad's operations, then settle
    the reads of locals and attributes. *)
Ltac run_ops :=
  cbv beta iota zeta delta
    [bind set_local get_local set_attr get_attr local_str local_floats
     as_str as_floats as_image lift ret raise print py_assert
     assert_companions_found assert_file_found
     locals self stdout PyStr.truthy].
Ltac read_map :=
  first [ rewrite lookup_insert_eq
        | rewrite lookup_insert_ne by discriminate
        | rewrite lookup_empty ].
Ltac run := run_ops; repeat (read_map; run_ops).

(** A missing image: both assertions are skipped or pass, and line 25
    reads [fName], which only the other branch binds. *)
Lemma DWI_new_no_file imPath :
  path_exists W imPath = false ->
  DWI_new rint W imPath = (Raise (UnboundLocalError "fName"), []).
Proof.
  intros H. unfold DWI_new, DWI__init__. run. rewrite H. run. reflexivity.
Qed.

(** The image loads and a companion is absent. *)
Lemma DWI_new_no_companion imPath hdr vox :
  path_exists W imPath = true ->
  nib_load W imPath = Ok hdr ->
  dataobj_array W hdr = Ok vox ->
  path_exists W (bvalPath_of imPath) && path_exists W (bvecPath_of imPath) = false ->
  DWI_new rint W imPath
  = (Ok (<["img" := VVoxels vox]> (<["hdr" := VImage hdr]> ∅)),
     [loaded_message imPath]).
Proof.
  intros H1 H2 H3 H4. unfold DWI_new, DWI__init__, loaded_message.
  unfold bvalPath_of, bvecPath_of, fName_of in *.
  run. rewrite H1. run. rewrite H2. run. rewrite H3. run. rewrite H4. run.
  reflexivity.
Qed.

(** The image and both companions load. *)
Lemma DWI_new_loaded imPath hdr vox a b g :
  path_exists W imPath = true ->
  nib_load W imPath = Ok hdr ->
  dataobj_array W hdr = Ok vox ->
  path_exists W (bvalPath_of imPath) = true ->
  path_exists W (bvecPath_of imPath) = true ->
  loadtxt W (bvecPath_of imPath) = Ok a ->
  loadtxt W (bvalPath_of imPath) = Ok b ->
  np_c_ (np_transpose a) (np_map rint b) = Ok g ->
  DWI_new rint W imPath
  = (Ok (<["grad" := VFloats g]>
           (<["img" := VVoxels vox]> (<["hdr" := VImage hdr]> ∅))),
     [loaded_message imPath]).
Proof.
  intros H1 H2 H3 H4 H5 H6 H7 H8. unfold DWI_new, DWI__init__, loaded_message.
  unfold bvalPath_of, bvecPath_of, fName_of in *.
  run. rewrite H1. run. rewrite H2. run. rewrite H3. run.
  rewrite H4, H5. cbn [andb]. run. rewrite H6. run. rewrite H7. run. rewrite H8. run.
  reflexivity.
Qed.

(** Whatever the host holds, the construction ends in [AssertionError]
    only if one of the readers raised it: neither [assert] of the
    constructor can fail. *)
Lemma DWI_new_assertion_origin imPath :
  fst (DWI_new rint W imPath) = Raise AssertionError ->
  nib_load W imPath = Raise AssertionError
  \/ (exists h, dataobj_array W h = Raise AssertionError)
  \/ (exists p, loadtxt W p = Raise AssertionError).
Proof.
  unfold DWI_new, DWI__init__. run.
  destruct (path_exists W imPath); run; [| discriminate].
  destruct (nib_load W imPath) as [hdr | e] eqn:Hn; run;
    [| simpl; intros [= ->]; left; reflexivity].
  destruct (dataobj_array W hdr) as [vox | e] eqn:Hd; run;
    [| simpl; intros [= ->]; right; left; exists hdr; exact Hd].
  destruct (path_exists W _ && path_exists W _); run; [| discriminate].
  destruct (loadtxt W _) as [a | e] eqn:Ha; run;
    [| simpl; intros [= ->]; right; right; eexists; exact Ha].
  destruct (loadtxt W _) as [b | e] eqn:Hb in |- *; run;
    [| simpl; intros [= ->]; right; right; eexists; exact Hb].
  unfold np_c_. destruct (Nat.eqb _ _); run; discriminate.
Qed.

(** C1, what the code does for a dataset of one volume: the image and
    both companion files exist and load, [np.loadtxt] gives the three
    numbers of the b-vector file as a vector and the one b-value as a
    scalar, and [np.c_], asked to join three rows with one row, raises
    [ValueError].  The construction ends with that exception: there is
    no object and no gradient table, and nothing is printed, where the
    comment of lines 19 and 20 announces an n-by-4 table for n volumes. *)
Theorem single_volume_gradient_table_fails imPath hdr vox (gx gy gz b : F) :
  path_exists W imPath = true ->
  nib_load W imPath = Ok hdr ->
  dataobj_array W hdr = Ok vox ->
  path_exists W (bvalPath_of imPath) = true ->
  path_exists W (bvecPath_of imPath) = true ->
  loadtxt W (bvecPath_of imPath) = Ok (Arr1 [gx; gy; gz]) ->
  loadtxt W (bvalPath_of imPath) = Ok (Arr0 b) ->
  as_columns (np_transpose (Arr1 [gx; gy; gz])) = [[gx]; [gy]; [gz]]
  /\ as_columns (np_map rint (Arr0 b)) = [[rint b]]
  /\ exists msg, DWI_new rint W imPath = (Raise (ValueError msg), []).
Proof.
  intros H1 H2 H3 H4 H5 H6 H7. split; [reflexivity |]. split; [reflexivity |].
  unfold DWI_new, DWI__init__, bvalPath_of, bvecPath_of, fName_of in *.
  run. rewrite H1. run. rewrite H2. run. rewrite H3. run.
  rewrite H4, H5. cbn [andb]. run. rewrite H6. run. rewrite H7. run.
  eexists. reflexivity.
Qed.

(** X20: when the image and both companion files exist and load, the
    b-vector file as a table of three rows of n entries and the b-value
    file as n entries, as [np.loadtxt] gives them for two volumes or
    more, the constructed object's gradient table has n rows of 4
    columns; its first three columns are the transposed b-vector table,
    its fourth column the b-values after [np.rint], and row i is
    [Gx_i, Gy_i, Gz_i, Bvalue_i]. *)
Theorem gradient_table_of_companions imPath hdr vox (gx gy gz bs : list F) :
  path_exists W imPath = true ->
  nib_load W imPath = Ok hdr ->
  dataobj_array W hdr = Ok vox ->
  path_exists W (bvalPath_of imPath) = true ->
  path_exists W (bvecPath_of imPath) = true ->
  loadtxt W (bvecPath_of imPath) = Ok (Arr2 [gx; gy; gz]) ->
  loadtxt W (bvalPath_of imPath) = Ok (Arr1 bs) ->
  length gx = length bs -> length gy = length bs -> length gz = length bs ->
  exists obj rows,
    DWI_new rint W imPath = (Ok obj, [loaded_message imPath])
    /\ obj !! "grad" = Some (VFloats (Arr2 rows))
    /\ length rows = length bs
    /\ Forall (fun r => length r = 4%nat) rows
    /\ take 3 <$> rows = transpose_rows [gx; gy; gz]
    /\ column 3 rows = rint <$> bs
    /\ forall i x y z b,
         gx !! i = Some x -> gy !! i = Some y -> gz !! i = Some z ->
         bs !! i = Some b ->
         rows !! i = Some [x; y; z; rint b].
Proof.
  intros H1 H2 H3 H4 H5 H6 H7 Lx Ly Lz.
  set (t := zip_with (fun x yz => x :: yz) gx (zip_with (fun y z => [y; z]) gy gz)).
  set (rows := zip_with app t (List.map (fun c => [c]) (List.map rint bs))).
  assert (Ht : transpose_rows [gx; gy; gz] = t)
    by (apply transpose_rows_three; congruence).
  assert (Hlen : length t = length (List.map rint bs)).
  { unfold t. rewrite !length_zip_with, length_map. lia. }
  destruct (append_column_spec t (List.map rint bs) (triples_length gx gy gz) Hlen)
    as (R1 & R2 & R3 & R4).
  fold rows in R1, R2, R3, R4.
  exists (<["grad" := VFloats (Arr2 rows)]>
            (<["img" := VVoxels vox]> (<["hdr" := VImage hdr]> ∅))), rows.
  split; [| split; [| split; [| split; [| split; [| split]]]]].
  - apply (DWI_new_loaded imPath hdr vox (Arr2 [gx; gy; gz]) (Arr1 bs)); try assumption.
    unfold np_c_, np_transpose, np_map, as_columns. rewrite Ht.
    rewrite (length_map (fun c => [c])), <- Hlen, Nat.eqb_refl. reflexivity.
  - apply lookup_insert_eq.
  - rewrite R1. apply length_map.
  - exact R2.
  - rewrite R3. symmetry. exact Ht.
  - rewrite R4. reflexivity.
  - intros i x y z b Hx Hy Hz Hb. unfold rows, t.
    rewrite !lookup_zip_with, Hx, Hy, Hz. simpl.
    rewrite !map_is_fmap, !list_lookup_fmap, Hb. reflexivity.
Qed.

(** C4, what the code does: for a path that does not exist the
    construction ends in [UnboundLocalError] for [fName]; no assertion
    fails and nothing is printed. *)
Theorem missing_file_raises_unbound_local imPath :
  path_exists W imPath = false ->
  DWI_new rint W imPath = (Raise (UnboundLocalError "fName"), [])
  /\ fst (DWI_new rint W imPath) <> Raise AssertionError.
Proof.
  intros H. rewrite (DWI_new_no_file imPath H). split; [reflexivity |].
  simpl. discriminate.
Qed.

(** C5: the guard of line 22 asserts a non-empty string literal, which is
    true: in every state the assertion passes, raises nothing and changes
    nothing. *)
Theorem companion_guard_never_fails (fr : frame F Hdr Vox) :
  PyStr.truthy "Unable to locate BVAL or BVEC files" = true
  /\ assert_companions_found fr = (Ok tt, fr).
Proof. split; reflexivity. Qed.

(** C10: when the image exists and loads but a companion file is
    missing, the construction completes: the confirmation line is printed
    and the object holds [hdr] and [img] and no [grad] attribute. *)
Theorem missing_companion_completes imPath hdr vox :
  path_exists W imPath = true ->
  nib_load W imPath = Ok hdr ->
  dataobj_array W hdr = Ok vox ->
  path_exists W (bvalPath_of imPath) = false
  \/ path_exists W (bvecPath_of imPath) = false ->
  exists obj,
    DWI_new rint W imPath = (Ok obj, [loaded_message imPath])
    /\ obj !! "hdr" = Some (VImage hdr)
    /\ obj !! "img" = Some (VVoxels vox)
    /\ obj !! "grad" = None
    /\ dom obj = {["hdr"; "img"]}.
Proof.
  intros H1 H2 H3 H4.
  exists (<["img" := VVoxels vox]> (<["hdr" := VImage hdr]> ∅)).
  split; [| split; [| split; [| split]]].
  - apply DWI_new_no_companion; try assumption.
    destruct H4 as [-> | ->]; [reflexivity | apply andb_false_r].
  - rewrite lookup_insert_ne by discriminate. apply lookup_insert_eq.
  - apply lookup_insert_eq.
  - rewrite !lookup_insert_ne by discriminate. apply lookup_empty.
  - rewrite !dom_insert_L, dom_empty_L. set_solver.
Qed.

End ConstructorFacts.

(** ** [createTensorOrder] *)
Section TensorOrderFacts.
Import Py Numpy Dwipi.
Context {F Hdr Vox : Type}.
Implicit Types (obj : gmap string (val F Hdr Vox)) (out : list string).

Ltac run_ops :=
  cbv beta iota zeta delta
    [call createTensorOrder bind set_local get_local ret raise
     locals self stdout].
Ltac read_map :=
  first [ rewrite lookup_insert_eq
        | rewrite lookup_insert_ne by discriminate
        | rewrite lookup_empty ].
Ltac run := run_ops; repeat (read_map; run_ops).

Lemma py_eq_int_spec (v : pyval) (k : Z) :
  2 <= k -> (py_eq_int v k = true <-> v = PyInt k).
Proof.
  intros Hk. unfold py_eq_int.
  destruct v as [| b | z | s | l]; try (split; [discriminate | congruence]).
  - rewrite Z.eqb_eq. split; [| discriminate].
    destruct b; cbn [Z.b2z]; lia.
  - rewrite Z.eqb_eq. split; congruence.
Qed.

(** The two tables, as the code builds them. *)
Lemma createTensorOrder_2_run obj out :
  call (createTensorOrder (PyInt 2)) obj out
  = (Ok (VInts (Arr1 [1; 2; 2; 1; 2; 1]),
         VInts (Arr2 [[0; 0]; [0; 1]; [0; 2]; [1; 1]; [1; 2]; [2; 2]])),
     obj, out).
Proof. run. reflexivity. Qed.

Lemma createTensorOrder_4_run obj out :
  call (createTensorOrder (PyInt 4)) obj out
  = (Ok (VInts (Arr1 [1; 4; 4; 6; 12; 6; 4; 12; 12; 4; 1; 4; 6; 4; 1]),
         VInts (Arr2 [[0; 0; 0; 0]; [0; 0; 0; 1]; [0; 0; 0; 2]; [0; 0; 1; 1];
                      [0; 0; 1; 2]; [0; 0; 2; 2]; [0; 1; 1; 1]; [0; 1; 1; 2];
                      [0; 1; 2; 2]; [0; 2; 2; 2]; [1; 1; 1; 1]; [1; 1; 1; 2];
                      [1; 1; 2; 2]; [1; 2; 2; 2]; [2; 2; 2; 2]])),
     obj, out).
Proof. run. reflexivity. Qed.

Lemma createTensorOrder_other_run (order : pyval) obj out :
  py_eq_int order 2 = false -> py_eq_int order 4 = false ->
  call (createTensorOrder order) obj out
  = (Raise (UnboundLocalError "cnt"), obj, out).
Proof. intros H2 H4. run. rewrite H2, H4. run. reflexivity. Qed.

(** The result of a call is a function of [order] alone, and the object
    and the output come back as they went in. *)
Lemma createTensorOrder_run (order : pyval) :
  exists r, forall obj out,
    call (createTensorOrder order) obj out = (r, obj, out).
Proof.
  destruct (py_eq_int order 2) eqn:H2; [| destruct (py_eq_int order 4) eqn:H4].
  - apply py_eq_int_spec in H2; [subst | lia].
    eexists. intros. apply createTensorOrder_2_run.
  - apply py_eq_int_spec in H4; [subst | lia].
    eexists. intros. apply createTensorOrder_4_run.
  - eexists. intros. apply createTensorOrder_other_run; assumption.
Qed.

(** C2: for order 2 the call returns the multiplicities
    [1, 2, 2, 1, 2, 1], which sum to 9, and the 6 index pairs
    (0,0), (0,1), (0,2), (1,1), (1,2), (2,2) in that order, every entry in
    {0,1,2} and no pair twice. *)
Theorem createTensorOrder_rank2 obj out :
  exists cnt ind,
    call (createTensorOrder (PyInt 2)) obj out
    = (Ok (VInts (Arr1 cnt), VInts (Arr2 ind)), obj, out)
    /\ cnt = [1; 2; 2; 1; 2; 1]
    /\ foldr Z.add 0 cnt = 9
    /\ ind = [[0; 0]; [0; 1]; [0; 2]; [1; 1]; [1; 2]; [2; 2]]
    /\ length ind = 6%nat
    /\ Forall (fun t => length t = 2%nat /\ Forall (fun x => 0 <= x <= 2) t) ind
    /\ NoDup ind.
Proof.
  eexists _, _. split; [apply createTensorOrder_2_run |].
  split; [reflexivity |]. split; [reflexivity |]. split; [reflexivity |].
  split; [reflexivity |]. split.
  - repeat (constructor; [split; [reflexivity | repeat constructor; lia] |]).
    constructor.
  - compute_done.
Qed.

(** C3: for order 4 the call returns the 15 multiplicities
    [1, 4, 4, 6, 12, 6, 4, 12, 12, 4, 1, 4, 6, 4, 1], which sum to 81, and
    the 15 index quadruples from (0,0,0,0) to (2,2,2,2) in the enumerated
    order, every entry in {0,1,2} and no quadruple twice. *)
Theorem createTensorOrder_rank4 obj out :
  exists cnt ind,
    call (createTensorOrder (PyInt 4)) obj out
    = (Ok (VInts (Arr1 cnt), VInts (Arr2 ind)), obj, out)
    /\ cnt = [1; 4; 4; 6; 12; 6; 4; 12; 12; 4; 1; 4; 6; 4; 1]
    /\ foldr Z.add 0 cnt = 81
    /\ ind = [[0; 0; 0; 0]; [0; 0; 0; 1]; [0; 0; 0; 2]; [0; 0; 1; 1];
              [0; 0; 1; 2]; [0; 0; 2; 2]; [0; 1; 1; 1]; [0; 1; 1; 2];
              [0; 1; 2; 2]; [0; 2; 2; 2]; [1; 1; 1; 1]; [1; 1; 1; 2];
              [1; 1; 2; 2]; [1; 2; 2; 2]; [2; 2; 2; 2]]
    /\ length ind = 15%nat
    /\ Forall (fun t => length t = 4%nat /\ Forall (fun x => 0 <= x <= 2) t) ind
    /\ NoDup ind.
Proof.
  eexists _, _. split; [apply createTensorOrder_4_run |].
  split; [reflexivity |]. split; [reflexivity |]. split; [reflexivity |].
  split; [reflexivity |]. split.
  - repeat (constructor; [split; [reflexivity | repeat constructor; lia] |]).
    constructor.
  - compute_done.
Qed.

(** C8: the result of [createTensorOrder] depends on [order] only: two
    calls with the same order, on any two objects (or twice on the same
    one) and whatever has been printed, give equal results; the object
    and the output are unchanged by the call. *)
Theorem createTensorOrder_pure (order : pyval) obj1 obj2 out1 out2 :
  (call (createTensorOrder order) obj1 out1).1.1
  = (call (createTensorOrder order) obj2 out2).1.1
  /\ (call (createTensorOrder order) obj1 out1).1.2 = obj1
  /\ (call (createTensorOrder order) obj1 out1).2 = out1.
Proof.
  destruct (createTensorOrder_run order) as [r Hr].
  rewrite !Hr. repeat split.
Qed.

(** C9: the call raises exactly when [order] is neither 2 nor 4, and
    then it is the [return] statement that fails, with
    [UnboundLocalError] for [cnt]; it returns exactly when [order] is 2
    or 4. *)
Theorem createTensorOrder_raises_iff (order : pyval) obj out :
  (call (createTensorOrder order) obj out
     = (Raise (UnboundLocalError "cnt"), obj, out)
   <-> order <> PyInt 2 /\ order <> PyInt 4)
  /\ (is_ok (call (createTensorOrder order) obj out).1.1 = false
      <-> order <> PyInt 2 /\ order <> PyInt 4).
Proof.
  destruct (py_eq_int order 2) eqn:H2; [| destruct (py_eq_int order 4) eqn:H4].
  - apply py_eq_int_spec in H2; [subst | lia].
    rewrite createTensorOrder_2_run. simpl.
    split; split; try discriminate; intros [? ?]; congruence.
  - apply py_eq_int_spec in H4; [subst | lia].
    rewrite createTensorOrder_4_run. simpl.
    split; split; try discriminate; intros [? ?]; congruence.
  - rewrite (createTensorOrder_other_run order obj out H2 H4). simpl.
    assert (order <> PyInt 2 /\ order <> PyInt 4) as Hne.
    { split; intros ->; simpl in *; discriminate. }
    split; split; auto.
Qed.

End TensorOrderFacts.

(** ** The parsing algorithm without a positional argument *)
Section NoPositional.
Import Py Argparse.
Variable actions : list Action.
Let m := option_string_actions actions.

Lemma lookup_option_elem o (l : list (string * Action)) a :
  lookup_option o l = Some a -> exists k, (k, a) ∈ l.
Proof.
  induction l as [| [k b] l IH]; simpl; [discriminate |].
  destruct (String.eqb k o).
  - intros [= ->]. exists k. left.
  - intros H. destruct (IH H) as [k' Hk]. exists k'. right. exact Hk.
Qed.

Lemma get_option_tuples_of arg t :
  t ∈ get_option_tuples m arg -> tuple_of actions t.
Proof.
  unfold get_option_tuples.
  destruct (is_long arg).
  - destruct (if PyStr.contains "=" arg then _ else _) as [pre e].
    rewrite list_elem_of_omap. intros ([o a] & Hin & Hf).
    destruct (PyStr.startswith pre o); [| discriminate].
    injection Hf as <-. exists o. exact Hin.
  - rewrite list_elem_of_omap. intros ([o a] & Hin & Hf).
    destruct (String.eqb o _); [injection Hf as <-; exists o; exact Hin |].
    destruct (PyStr.startswith arg o); [| discriminate].
    injection Hf as <-. exists o. exact Hin.
Qed.

Lemma parse_optional_tuple arg t :
  parse_optional m arg = Optional t -> tuple_of actions t.
Proof.
  unfold parse_optional. destruct arg as [| c r]; [discriminate |].
  destruct (negb _); [discriminate |].
  destruct (lookup_option _ m) as [a |] eqn:Hl.
  { intros [= <-]. destruct (lookup_option_elem _ _ _ Hl) as [k Hk].
    exists k. exact Hk. }
  destruct (Nat.eqb _ 1); [discriminate |].
  destruct (PyStr.contains "=" _).
  - destruct (PyStr.split_first _ _) as [o e].
    destruct (lookup_option o m) as [a |] eqn:Ho.
    + intros [= <-]. destruct (lookup_option_elem _ _ _ Ho) as [k Hk].
      exists k. exact Hk.
    + destruct (get_option_tuples m _) as [| t1 [| t2 ts]] eqn:Hg.
      * destruct (negative_number_like _); [discriminate |].
        destruct (PyStr.contains " " _); [discriminate |].
        intros [= <-]. exact I.
      * intros [= <-]. apply (get_option_tuples_of (String c r)).
        rewrite Hg. left.
      * discriminate.
  - destruct (get_option_tuples m _) as [| t1 [| t2 ts]] eqn:Hg.
    + destruct (negative_number_like _); [discriminate |].
      destruct (PyStr.contains " " _); [discriminate |].
      intros [= <-]. exact I.
    + intros [= <-]. apply (get_option_tuples_of (String c r)).
      rewrite Hg. left.
    + discriminate.
Qed.

Lemma classify_no_positional args table :
  no_positional actions args -> classify m args = inr table ->
  plain_table actions table.
Proof.
  intros Hno. revert table.
  induction Hno as [| a args [Hsep Hpos] Hno IH]; intros table; simpl.
  - intros [= <-]. constructor.
  - apply String.eqb_neq in Hsep. rewrite Hsep.
    fold m in Hpos.
    destruct (parse_optional m a) as [| t | ms] eqn:Hp; [congruence | | discriminate].
    destruct (classify m args) as [h | l]; [discriminate |].
    intros [= <-]. constructor; [| apply IH; reflexivity].
    split; [discriminate |]. simpl. apply (parse_optional_tuple a). exact Hp.
Qed.

(** From here on [x] is a destination that no optional of the parser
    writes, and the table has no letter A. *)
Variable x : string.
Hypothesis optional_dest : forall a, is_optional_of actions a -> dest a <> x.
Variable arg_strings : list string.
Variable table : list (pat * option option_tuple).
Hypothesis plain : plain_table actions table.

Lemma take_action_seen a args st st1 :
  take_action a args st = Go tt st1 ->
  seen_actions st1 = dest a :: seen_actions st.
Proof.
  unfold take_action. destruct (kind a); intros H; try discriminate;
    injection H as <-; reflexivity.
Qed.

Lemma run_actions_unseen l st st1 :
  Forall (fun p => dest p.1 <> x) l -> x ∉ seen_actions st ->
  run_actions l st = Go tt st1 -> x ∉ seen_actions st1.
Proof.
  intros Hl. revert st. induction Hl as [| [a args] l Ha Hl IH]; intros st Hst; simpl.
  - intros [= <-]. exact Hst.
  - destruct (take_action a args st) as [[] st2 |] eqn:Ht; [| discriminate].
    apply IH. rewrite (take_action_seen _ _ _ _ Ht).
    apply not_elem_of_cons. split; [| exact Hst].
    intros Heq. apply Ha. symmetry. exact Heq.
Qed.

Lemma without_explicit_arg_dests start a acc l stop :
  Forall (fun p => dest p.1 <> x) acc -> dest a <> x ->
  without_explicit_arg arg_strings table start a acc = inr (l, stop) ->
  Forall (fun p : Action * list string => dest p.1 <> x) l.
Proof.
  intros Hacc Ha. unfold without_explicit_arg.
  destruct (match_argument _ _) as [h | c]; [discriminate |].
  intros [= <- _]. apply Forall_app. split; [exact Hacc |].
  constructor; [exact Ha | constructor].
Qed.

Lemma with_explicit_arg_dests start e : forall a o acc l stop,
  Forall (fun p => dest p.1 <> x) acc -> dest a <> x ->
  with_explicit_arg actions arg_strings table start a o e acc = inr (l, stop) ->
  Forall (fun p : Action * list string => dest p.1 <> x) l.
Proof.
  induction e as [| c rest IH]; intros a o acc l stop Hacc Ha; simpl.
  - destruct (kind a); [| destruct (is_long o); discriminate ..].
    intros [= <- _]. apply Forall_app. split; [exact Hacc |].
    constructor; [exact Ha | constructor].
  - assert (Hacc1 : Forall (fun p : Action * list string => dest p.1 <> x)
                      (acc ++ [(a, [])])).
    { apply Forall_app. split; [exact Hacc |]. constructor; [exact Ha | constructor]. }
    destruct (kind a).
    + intros [= <- _]. apply Forall_app. split; [exact Hacc |].
      constructor; [exact Ha | constructor].
    + destruct (is_long o); [discriminate |].
      destruct (lookup_option _ _) as [a1 |] eqn:Hl; [| discriminate].
      assert (Ha1 : dest a1 <> x).
      { apply optional_dest. destruct (lookup_option_elem _ _ _ Hl) as [k Hk].
        exists k. exact Hk. }
      destruct rest as [| c1 rest1].
      * apply without_explicit_arg_dests; assumption.
      * apply IH; assumption.
    + destruct (is_long o); [discriminate |].
      destruct (lookup_option _ _) as [a1 |] eqn:Hl; [| discriminate].
      assert (Ha1 : dest a1 <> x).
      { apply optional_dest. destruct (lookup_option_elem _ _ _ Hl) as [k Hk].
        exists k. exact Hk. }
      destruct rest as [| c1 rest1].
      * apply without_explicit_arg_dests; assumption.
      * apply IH; assumption.
Qed.

Lemma option_at_tuple i t :
  option_at table i = Some t -> tuple_of actions t.
Proof.
  unfold option_at. destruct (table !! i) as [[p [t1 |]] |] eqn:Hi; try discriminate.
  intros [= <-].
  apply (Forall_lookup_1 _ _ _ _ plain) in Hi. destruct Hi as [_ Ht]. exact Ht.
Qed.

Lemma consume_optional_unseen start st n st1 :
  x ∉ seen_actions st ->
  consume_optional actions arg_strings table start st = Go n st1 ->
  x ∉ seen_actions st1.
Proof.
  intros Hst. unfold consume_optional.
  destruct (option_at table start) as [[[[a |] o] e] |] eqn:Ho.
  - pose proof (option_at_tuple _ _ Ho) as Ha. simpl in Ha.
    apply optional_dest in Ha.
    destruct (match e with Some _ => _ | None => _ end) as [h | [l stop]] eqn:Hp;
      [discriminate |].
    assert (Hl : Forall (fun p : Action * list string => dest p.1 <> x) l).
    { destruct e as [e |].
      - apply (with_explicit_arg_dests _ _ _ _ _ _ _ (Forall_nil_2 _) Ha Hp).
      - apply (without_explicit_arg_dests _ _ _ _ _ (Forall_nil_2 _) Ha Hp). }
    destruct (run_actions l st) as [[] st2 |] eqn:Hr; [| discriminate].
    intros [= _ <-]. apply (run_actions_unseen _ _ _ Hl Hst Hr).
  - intros [= _ <-]. exact Hst.
  - intros [= _ <-]. exact Hst.
Qed.

Lemma after_dashes_plain (l : list pat) :
  PA ∉ l -> head (drop (count_dashes l) l) <> Some PA.
Proof.
  induction l as [| p l IH]; intros Hl; [discriminate |].
  apply not_elem_of_cons in Hl. destruct Hl as [Hp Hl].
  destruct p; simpl; [discriminate | congruence | apply IH; exact Hl].
Qed.

Lemma match_one_plain (l : list pat) : PA ∉ l -> match_one l = None.
Proof.
  intros Hl. unfold match_one. pose proof (after_dashes_plain l Hl) as Hh.
  destruct (drop (count_dashes l) l) as [| [] r]; simpl in Hh; congruence.
Qed.

Lemma match_arguments_partial_plain n (l : list pat) : PA ∉ l -> match_arguments_partial n l = [].
Proof.
  intros Hl. induction n as [| n IH]; [reflexivity |].
  simpl. rewrite (match_one_plain l Hl). exact IH.
Qed.

Lemma pattern_plain start : PA ∉ drop start (List.map fst table).
Proof.
  intros Hin. apply list_elem_of_lookup in Hin. destruct Hin as [i Hi].
  rewrite lookup_drop, map_is_fmap, list_lookup_fmap in Hi.
  destruct (table !! (start + i)%nat) as [e |] eqn:He; [| discriminate].
  apply (Forall_lookup_1 _ _ _ _ plain) in He. destruct He as [Hne _].
  simpl in Hi. congruence.
Qed.

Lemma consume_positionals_plain start st :
  exists st1, consume_positionals arg_strings table start st = Go start st1
              /\ seen_actions st1 = seen_actions st
              /\ extras st1 = extras st.
Proof.
  unfold consume_positionals.
  rewrite (match_arguments_partial_plain _ _ (pattern_plain start)).
  rewrite zip_with_nil_r. simpl. eexists. repeat split.
Qed.

Lemma consume_loop_unseen fuel : forall start st n st1,
  x ∉ seen_actions st ->
  consume_loop actions arg_strings table fuel start st = Go n st1 ->
  x ∉ seen_actions st1.
Proof.
  induction fuel as [| fuel IH]; intros start st n st1 Hst; simpl.
  - destruct (max_option_string_index table) as [mx |];
      [destruct (Nat.ltb mx start) |]; intros [= _ <-]; exact Hst.
  - destruct (max_option_string_index table) as [mx |];
      [destruct (Nat.ltb mx start) |]; try (intros [= _ <-]; exact Hst).
    destruct (consume_positionals_plain start st) as (st2 & Hc & Hs & _).
    rewrite Hc, Nat.ltb_irrefl.
    destruct (Nat.eqb start (next_option_string_index table start)).
    all: destruct (is_option_index table _);
      (destruct (consume_optional _ _ _ _ _) as [k st3 |] eqn:Ho; [| discriminate]);
      apply IH; (eapply consume_optional_unseen; [| exact Ho]);
      simpl; rewrite ?Hs; exact Hst.
Qed.

(** With a required action of destination [x] the parse cannot succeed. *)
Lemma parse_classified_plain a st :
  a ∈ actions -> required a = true -> dest a = x ->
  x ∉ seen_actions st ->
  forall ns, parse_classified actions arg_strings table st <> Parsed ns.
Proof.
  intros Hin Hreq Hdest Hst ns. unfold parse_classified.
  destruct (consume_loop _ _ _ _ _ _) as [start st1 | [e |]] eqn:Hloop;
    [| discriminate ..].
  pose proof (consume_loop_unseen _ _ _ _ _ Hst Hloop) as Hst1.
  destruct (consume_positionals_plain start st1) as (st2 & Hc & Hs & _).
  rewrite Hc.
  assert (Hne : required_actions actions
                  (add_extras (drop start arg_strings) st2) <> []).
  { unfold required_actions. simpl. rewrite Hs.
    intros Hnil. apply (f_equal length) in Hnil. rewrite length_map in Hnil.
    apply length_zero_iff_nil in Hnil.
    assert (Hmem : In a (List.filter
              (fun a0 => required a0
                 && negb (existsb (String.eqb (dest a0)) (seen_actions st1)))
              actions)).
    { apply filter_In. split; [apply list_elem_of_In; exact Hin |].
      rewrite Hreq, Hdest. simpl.
      destruct (existsb (String.eqb x) (seen_actions st1)) eqn:Hex; [| reflexivity].
      apply existsb_exists in Hex. destruct Hex as (y & Hy & Heq).
      apply String.eqb_eq in Heq. subst y.
      exfalso. apply Hst1. apply list_elem_of_In. exact Hy. }
    rewrite Hnil in Hmem. destruct Hmem. }
  destruct (required_actions _ _) as [| r rs]; [congruence | discriminate].
Qed.

End NoPositional.

(** ** The loop of the parsing algorithm never runs out of rounds *)
Section LoopFuel.
Import Py Argparse.
Variable actions : list Action.
Variable arg_strings : list string.
Variable table : list (pat * option option_tuple).

Lemma take_actions_forward l : forall start st n st1,
  take_actions arg_strings l start st = Go n st1 -> (start <= n)%nat.
Proof.
  induction l as [| [a c] l IH]; intros start st n st1; simpl.
  - intros [= <- _]. lia.
  - destruct (take_action a _ st) as [[] st2 |]; [| discriminate].
    intros H. apply IH in H. lia.
Qed.

Lemma consume_positionals_forward start st n st1 :
  consume_positionals arg_strings table start st = Go n st1 -> (start <= n)%nat.
Proof.
  unfold consume_positionals.
  destruct (take_actions _ _ _ _) as [k st2 |] eqn:Ht; [| discriminate].
  intros [= <- _]. apply (take_actions_forward _ _ _ _ _ Ht).
Qed.

Lemma without_explicit_arg_forward start a acc l stop :
  without_explicit_arg arg_strings table start a acc = inr (l, stop) ->
  (start < stop)%nat.
Proof.
  unfold without_explicit_arg. destruct (match_argument _ _); [discriminate |].
  intros [= _ <-]. lia.
Qed.

Lemma with_explicit_arg_forward start e : forall a o acc l stop,
  with_explicit_arg actions arg_strings table start a o e acc = inr (l, stop) ->
  (start < stop)%nat.
Proof.
  induction e as [| c rest IH]; intros a o acc l stop; simpl.
  - destruct (kind a); [| destruct (is_long o); discriminate ..].
    intros [= _ <-]. lia.
  - destruct (kind a); [intros [= _ <-]; lia | |];
      (destruct (is_long o); [discriminate |]);
      (destruct (lookup_option _ _) as [a1 |]; [| discriminate]);
      (destruct rest as [| c1 rest1];
       [apply without_explicit_arg_forward | apply IH]).
Qed.

Lemma consume_optional_forward start st n st1 :
  consume_optional actions arg_strings table start st = Go n st1 ->
  (start < n)%nat.
Proof.
  unfold consume_optional.
  destruct (option_at table start) as [[[[a |] o] e] |].
  - destruct (match e with Some _ => _ | None => _ end) as [h | [l stop]] eqn:Hp;
      [discriminate |].
    destruct (run_actions l st) as [[] st2 |]; [| discriminate].
    intros [= <- _]. destruct e as [e |].
    + apply (with_explicit_arg_forward _ _ _ _ _ _ _ Hp).
    + apply (without_explicit_arg_forward _ _ _ _ _ Hp).
  - intros [= <- _]. lia.
  - intros [= <- _]. lia.
Qed.

Lemma max_option_string_index_bound mx :
  max_option_string_index table = Some mx -> (mx < length table)%nat.
Proof.
  unfold max_option_string_index. intros H.
  apply last_Some_elem_of, list_elem_of_In, filter_In in H.
  destruct H as [H _]. apply in_seq in H. lia.
Qed.

Lemma next_option_string_index_forward start :
  (start <= length table)%nat ->
  (start <= next_option_string_index table start)%nat.
Proof.
  intros Hs. unfold next_option_string_index.
  destruct (List.filter _ _) as [| i l] eqn:Hf; [exact Hs |].
  assert (Hin : In i (List.filter (is_option_index table)
                        (seq start (length table - start))))
    by (rewrite Hf; left; reflexivity).
  apply filter_In in Hin. destruct Hin as [Hin _]. apply in_seq in Hin. lia.
Qed.

(** Any two amounts of fuel above the number of strings still to read
    give the same run. *)
Lemma consume_loop_fuel fuel1 : forall fuel2 start st,
  (length table - start < fuel1)%nat -> (length table - start < fuel2)%nat ->
  consume_loop actions arg_strings table fuel1 start st
  = consume_loop actions arg_strings table fuel2 start st.
Proof.
  induction fuel1 as [| fuel1 IH]; intros fuel2 start st H1 H2; [lia |].
  destruct fuel2 as [| fuel2]; [lia |]. simpl.
  destruct (max_option_string_index table) as [mx |] eqn:Hmx; [| reflexivity].
  destruct (Nat.ltb mx start) eqn:Hlt; [reflexivity |].
  apply Nat.ltb_ge in Hlt.
  pose proof (max_option_string_index_bound mx Hmx) as Hb.
  pose proof (next_option_string_index_forward start ltac:(lia)) as Hnext.
  destruct (Nat.eqb start (next_option_string_index table start)).
  - destruct (is_option_index table start).
    + destruct (consume_optional _ _ _ start st) as [k st3 |] eqn:Ho; [| reflexivity].
      apply consume_optional_forward in Ho. apply IH; lia.
    + destruct (consume_optional _ _ _ _ _) as [k st3 |] eqn:Ho; [| reflexivity].
      apply consume_optional_forward in Ho. apply IH; lia.
  - destruct (consume_positionals _ _ start st) as [stop st1 |] eqn:Hc; [| reflexivity].
    apply consume_positionals_forward in Hc.
    destruct (Nat.ltb start stop) eqn:Hs.
    + apply Nat.ltb_lt in Hs. apply IH; lia.
    + destruct (is_option_index table stop).
      * destruct (consume_optional _ _ _ stop st1) as [k st3 |] eqn:Ho; [| reflexivity].
        apply consume_optional_forward in Ho. apply IH; lia.
      * destruct (consume_optional _ _ _ _ _) as [k st3 |] eqn:Ho; [| reflexivity].
        apply consume_optional_forward in Ho. apply IH; lia.
Qed.

End LoopFuel.

Section ClassifyLength.
Import Py Argparse.

Lemma classify_length (m : list (string * Action)) (args : list string) table :
  classify m args = inr table -> length table = length args.
Proof.
  revert table. induction args as [| a args IH]; intros table; simpl.
  - intros [= <-]. reflexivity.
  - destruct (String.eqb a "--").
    + intros [= <-]. simpl. rewrite length_map. reflexivity.
    + destruct (parse_optional m a); try discriminate;
        (destruct (classify m args) as [h | l]; [discriminate |]);
        intros [= <-]; simpl; f_equal; apply IH; reflexivity.
Qed.

(** The fuel [parse_args] gives the loop is enough: more fuel changes
    nothing. *)
Lemma parse_args_fuel (actions : list Action) (args : list string) table st extra :
  classify (option_string_actions actions) args = inr table ->
  consume_loop actions args table (S (length args) + extra) 0 st
  = consume_loop actions args table (S (length args)) 0 st.
Proof.
  intros Hc. apply classify_length in Hc.
  apply consume_loop_fuel; lia.
Qed.

End ClassifyLength.

(** ** The parser of [pydesigner.py] on lists without a dataset argument *)
Section ParserNoDataset.
Import Py Argparse Pydesigner.

Lemma parser_optional_dests (a : Action) :
  is_optional_of parser a -> dest a <> "dwi".
Proof.
  intros [o Hin].
  assert (Hall : Forall (fun oa : string * Action => dest oa.2 <> "dwi")
                   (option_string_actions parser)) by compute_done.
  apply (proj1 (Forall_forall _ _) Hall (o, a) Hin).
Qed.

(** Without a dataset argument the parser never returns a namespace. *)
Lemma parse_args_needs_dataset (args : list string) :
  no_positional parser args ->
  forall ns, parse_args parser args <> Parsed ns.
Proof.
  intros Hno ns. unfold parse_args.
  destruct (classify (option_string_actions parser) args) as [[e |] | table] eqn:Hc;
    [discriminate | discriminate |].
  apply (parse_classified_plain parser "dwi" parser_optional_dests args table
           (classify_no_positional parser args table Hno Hc) (positional "dwi")).
  - apply list_elem_of_In. unfold parser. right. left. reflexivity.
  - reflexivity.
  - reflexivity.
  - simpl. apply not_elem_of_nil.
Qed.

End ParserNoDataset.

(** ** The command line *)
Section ParserFacts.
Import Py Argparse Pydesigner.

Lemma no_dash_positional (m : list (string * Action)) (d : string) :
  PyStr.startswith "-" d = false ->
  parse_optional m d = Positional /\ String.eqb d "--" = false.
Proof.
  unfold PyStr.startswith. destruct d as [| c r]; [split; reflexivity |].
  simpl. destruct (ascii_dec "-" c) as [<- | Hne].
  - destruct r; discriminate.
  - intros _. unfold dash.
    assert (Ascii.eqb c "-" = false) as -> by (apply Ascii.eqb_neq; congruence).
    split; reflexivity.
Qed.

Lemma Parsed_inj (a b : gmap string pyval) : Parsed a = Parsed b -> a = b.
Proof. intros H. injection H. auto. Qed.

Lemma parse_args_single (d : string) :
  parse_optional (option_string_actions parser) d = Positional ->
  String.eqb d "--" = false ->
  parse_args parser [d] = Parsed (<["dwi" := PyStr d]> (default_namespace parser)).
Proof.
  intros Hpos Hsep. unfold parse_args. cbn [classify]. rewrite Hsep, Hpos.
  assert (Hv : forall a, kind a = Store -> get_values a [d] = PyStr d).
  { intros a Ha. unfold get_values. cbn [remove_first]. rewrite Hsep, Ha.
    reflexivity. }
  cbv -[get_values insert default_namespace].
  rewrite Hv by reflexivity. reflexivity.
Qed.

Lemma default_namespace_parser :
  default_namespace parser
  = <["pe_dir" := PyNone]> (<["rpe_all" := PyNone]> (<["rpe_pair" := PyNone]>
    (<["rpe_none" := PyBool false]> (<["fit_constraints" := PyStr "0,1,0"]>
    (<["mask" := PyBool false]> (<["kcumulants" := PyBool false]>
    (<["WMTI" := PyBool false]> (<["DKI" := PyBool false]>
    (<["DTI" := PyBool false]> (<["smooth" := PyBool false]>
    (<["scaleb0median" := PyBool false]> (<["b1correct" := PyBool false]>
    (<["eddy" := PyBool false]> (<["extent" := PyStr "5,5,5"]>
    (<["denoise" := PyBool false]> (<["standard" := PyBool false]>
    (<["output" := PyNone]> (<["dwi" := PyNone]> ∅)))))))))))))))))).
Proof. vm_compute. reflexivity. Qed.

Lemma parse_args_empty :
  parse_args parser [] = UsageError (RequiredArguments ["dwi"]).
Proof. vm_compute. reflexivity. Qed.

(** The namespace of the one argument [/data/scan.nii] holds [None]
    for [output], not the directory [/data] of the dataset; and the list
    that holds [-h] alone ends with exit status 0. *)
Lemma output_of_scan_is_none :
  posixpath.dirname "/data/scan.nii" = "/data"
  /\ ~ (exists ns,
          parse_args parser ["/data/scan.nii"] = Parsed ns
          /\ ns !! "output" = Some (PyStr (posixpath.dirname "/data/scan.nii")))
  /\ exit_status (parse_args parser ["-h"]) = Some 0.
Proof.
  split; [reflexivity |]. split; [| vm_compute; reflexivity].
  intros (ns & Hp & Ho).
  rewrite parse_args_single in Hp by (vm_compute; reflexivity).
  apply Parsed_inj in Hp. subst ns.
  rewrite default_namespace_parser in Ho.
  repeat (rewrite lookup_insert_ne in Ho by (apply String.eqb_neq; reflexivity)).
  rewrite lookup_insert_eq in Ho. discriminate Ho.
Qed.

End ParserFacts.

(** ** Tool discovery *)
Section ScriptFacts.
Import Py Argparse Pydesigner.
Variable h : Host.

Ltac run_ops :=
  cbv beta iota zeta delta
    [run script bind shutil_which found_or_raise parse_args_call ret raise].

Lemma run_without_dwidenoise :
  which h "dwidenoise" = None ->
  run h = (Raise (Exception cannot_find_mrtrix3), [Which "dwidenoise"]).
Proof. intros H. run_ops. rewrite H. reflexivity. Qed.

Lemma run_without_fsl p :
  which h "dwidenoise" = Some p -> which h "fsl" = None ->
  run h = (Raise (Exception cannot_find_fsl), [Which "dwidenoise"; Which "fsl"]).
Proof. intros H1 H2. run_ops. rewrite H1. run_ops. rewrite H2. reflexivity. Qed.

(** With both tools on the search path the script reaches
    [parser.parse_args], as its third step. *)
Lemma run_with_tools p q :
  which h "dwidenoise" = Some p -> which h "fsl" = Some q ->
  exists tail, (run h).2 = [Which "dwidenoise"; Which "fsl"; ParseArgs (argv h)] ++ tail.
Proof.
  intros H1 H2. run_ops. rewrite H1. run_ops. rewrite H2. run_ops.
  destruct (parse_args parser (argv h)); simpl; eauto.
Qed.

(** C6: when [dwidenoise] is not on the search path, and likewise when
    [fsl] is not, the script ends in the exception of its troubleshooting
    message and [parser.parse_args] has not been called. *)
Theorem missing_tool_aborts_before_parsing :
  which h "dwidenoise" = None \/ which h "fsl" = None ->
  exists msg tr,
    run h = (Raise (Exception msg), tr)
    /\ Forall (fun e => is_parse_event e = false) tr
    /\ (which h "dwidenoise" = None ->
        msg = cannot_find_mrtrix3 /\ tr = [Which "dwidenoise"])
    /\ (which h "dwidenoise" <> None ->
        msg = cannot_find_fsl /\ tr = [Which "dwidenoise"; Which "fsl"]).
Proof.
  intros H. destruct (which h "dwidenoise") as [p |] eqn:Hd.
  - destruct H as [H | H]; [discriminate |].
    exists cannot_find_fsl, [Which "dwidenoise"; Which "fsl"].
    rewrite (run_without_fsl p Hd H).
    repeat split; try discriminate; repeat constructor.
  - exists cannot_find_mrtrix3, [Which "dwidenoise"].
    rewrite (run_without_dwidenoise Hd).
    repeat split; try congruence; repeat constructor.
Qed.

End ScriptFacts.

(** ** Concrete runs on the sample dataset *)
Section SampleRuns.
Import Py Numpy Dwipi Sample.

Example scan_companion_paths :
  bvalPath_of "/data/scan.nii" = "/data/scan.bval"
  /\ bvecPath_of "/data/scan.nii" = "/data/scan.bvec"
  /\ loaded_message "/data/scan.nii" = "Image scan.nii loaded successfully".
Proof. repeat split. Qed.

(** The gradient table of the sample: the b-values 999.5 and 1000.5 both
    round to the even neighbour 1000. *)
Example scan_gradient_table :
  exists obj,
    DWI_new rint_Q scan_world "/data/scan.nii"
    = (Ok obj, ["Image scan.nii loaded successfully"])
    /\ obj !! "grad"
       = Some (VFloats (Arr2 [[1%Q; 0%Q; 0%Q; 0%Q];
                              [0%Q; 1%Q; 0%Q; 1000%Q];
                              [0%Q; 0%Q; 1%Q; 1000%Q]])).
Proof. eexists. split; vm_compute; reflexivity. Qed.

(** A single volume: [np.loadtxt] hands back a vector of three numbers
    and a scalar, and [np.c_] refuses to join 3 rows with 1 row. *)
Example single_volume_shapes :
  np_c_ (np_transpose (Arr1 [1%Q; 0%Q; 0%Q])) (np_map rint_Q (Arr0 1000%Q))
  = Raise (ValueError "all the input array dimensions except for the concatenation axis must match exactly").
Proof. reflexivity. Qed.

Example tensor_order_3 :
  call (F := Q) (Hdr := string) (Vox := list Z)
       (createTensorOrder (PyInt 3)) ∅ []
  = (Raise (UnboundLocalError "cnt"), ∅, []).
Proof. vm_compute. reflexivity. Qed.

Example assert_false_raises :
  py_assert (S := unit) (PyStr.truthy "") tt = (Raise AssertionError, tt).
Proof. reflexivity. Qed.

Example run_with_both_tools :
  exists ns,
    Pydesigner.run (host_with_tools ["/data/scan.nii"; "--DKI"])
    = (Ok {| Pydesigner.mrtrix3path := "/opt/mrtrix3/bin";
             Pydesigner.fslpath := "/usr/local/fsl/bin";
             Pydesigner.args := ns |},
       [Pydesigner.Which "dwidenoise"; Pydesigner.Which "fsl";
        Pydesigner.ParseArgs ["/data/scan.nii"; "--DKI"]])
    /\ ns !! "DKI" = Some (PyBool true)
    /\ ns !! "DTI" = Some (PyBool false).
Proof. eexists. repeat split; vm_compute; reflexivity. Qed.

Example help_exits_with_status_0 :
  Argparse.parse_args Pydesigner.parser ["-h"] = Argparse.HelpExit.
Proof. vm_compute. reflexivity. Qed.

End SampleRuns.

(** The theorems with hypotheses, at the sample inputs. *)

Lemma gradient_table_of_companions_witness :
  exists obj rows,
    Dwipi.DWI_new Numpy.rint_Q Sample.scan_world "/data/scan.nii"
    = (Py.Ok obj, ["Image scan.nii loaded successfully"])
    /\ obj !! "grad" = Some (Dwipi.VFloats (Numpy.Arr2 rows))
    /\ length rows = 3%nat
    /\ rows !! 1%nat = Some [0%Q; 1%Q; 0%Q; 1000%Q].
Proof.
  destruct (gradient_table_of_companions Numpy.rint_Q Sample.scan_world
              "/data/scan.nii" "scan.nii header" [7; 8; 9]
              [1%Q; 0%Q; 0%Q] [0%Q; 1%Q; 0%Q] [0%Q; 0%Q; 1%Q]
              [0%Q; (1999 # 2)%Q; (2001 # 2)%Q]
              eq_refl eq_refl eq_refl eq_refl eq_refl eq_refl eq_refl
              eq_refl eq_refl eq_refl)
    as (obj & rows & Hnew & Hgrad & Hlen & _ & _ & _ & Hrow).
  exists obj, rows. repeat split.
  - exact Hnew.
  - exact Hgrad.
  - exact Hlen.
  - exact (Hrow 1%nat 0%Q 1%Q 0%Q (1999 # 2)%Q eq_refl eq_refl eq_refl eq_refl).
Defined.

Lemma single_volume_gradient_table_fails_witness :
  exists msg,
    Dwipi.DWI_new Numpy.rint_Q MoreSamples.single_volume_world "/data/scan.nii"
    = (Py.Raise (Py.ValueError msg), []).
Proof.
  exact (proj2 (proj2 (single_volume_gradient_table_fails Numpy.rint_Q
                         MoreSamples.single_volume_world
                         "/data/scan.nii" "scan.nii header" [7; 8; 9]
                         1%Q 0%Q 0%Q 1000%Q
                         eq_refl eq_refl eq_refl eq_refl eq_refl eq_refl eq_refl))).
Defined.

Lemma missing_file_raises_unbound_local_witness :
  Dwipi.path_exists Sample.empty_world "/nowhere/scan.nii" = false
  /\ Dwipi.DWI_new Numpy.rint_Q Sample.empty_world "/nowhere/scan.nii"
     = (Py.Raise (Py.UnboundLocalError "fName"), []).
Proof.
  split; [reflexivity |].
  exact (proj1 (missing_file_raises_unbound_local Numpy.rint_Q Sample.empty_world
                  "/nowhere/scan.nii" eq_refl)).
Defined.

Lemma missing_companion_completes_witness :
  Dwipi.path_exists Sample.scan_world_without_bval "/data/scan.bval" = false
  /\ exists obj,
       Dwipi.DWI_new Numpy.rint_Q Sample.scan_world_without_bval "/data/scan.nii"
       = (Py.Ok obj, ["Image scan.nii loaded successfully"])
       /\ obj !! "grad" = None.
Proof.
  split; [reflexivity |].
  destruct (missing_companion_completes Numpy.rint_Q Sample.scan_world_without_bval
              "/data/scan.nii" "scan.nii header" [7; 8; 9]
              eq_refl eq_refl eq_refl (or_introl eq_refl))
    as (obj & Hnew & _ & _ & Hgrad & _).
  exists obj. split; [exact Hnew | exact Hgrad].
Defined.

Lemma missing_tool_aborts_before_parsing_witness :
  exists tr,
    Pydesigner.run Sample.host_without_fsl
    = (Py.Raise (Py.Exception Pydesigner.cannot_find_fsl), tr)
    /\ Forall (fun e => Pydesigner.is_parse_event e = false) tr.
Proof.
  destruct (missing_tool_aborts_before_parsing Sample.host_without_fsl
              (or_intror eq_refl))
    as (msg & tr & Hrun & Hno & _ & Hfsl).
  destruct (Hfsl ltac:(discriminate)) as [-> _].
  exists tr. split; assumption.
Defined.

(** * Further properties *)

(** ** Lists of names *)
Section Names.

Lemma names_disjoint (l1 l2 : list string) (x : string) :
  forallb (fun y => negb (existsb (String.eqb y) l2)) l1 = true ->
  x ∈ l1 -> x ∈ l2 -> False.
Proof.
  intros H H1 H2. rewrite forallb_forall in H.
  apply list_elem_of_In in H1. apply list_elem_of_In in H2.
  specialize (H x H1). apply negb_true_iff in H.
  assert (existsb (String.eqb x) l2 = true) as Ht; [| congruence].
  apply existsb_exists. exists x. split; [exact H2 | apply String.eqb_refl].
Qed.

Lemma names_included (l1 l2 : list string) (x : string) :
  forallb (fun y => existsb (String.eqb y) l2) l1 = true ->
  x ∈ l1 -> x ∈ l2.
Proof.
  intros H H1. rewrite forallb_forall in H.
  apply list_elem_of_In in H1. specialize (H x H1).
  apply existsb_exists in H. destruct H as (y & Hy & Heq).
  apply String.eqb_eq in Heq. subst y. apply list_elem_of_In. exact Hy.
Qed.

End Names.

(** ** Paths *)
Section PathFacts.
Import PyStr posixpath.
#[local] Arguments String.append !_ _ : simpl nomatch.

Lemma append_nil_r (s : string) : s +:+ "" = s.
Proof. induction s as [| a s IH]; simpl; [reflexivity | f_equal; exact IH]. Qed.

Lemma append_assoc (a b c : string) : (a +:+ b) +:+ c = a +:+ (b +:+ c).
Proof. induction a as [| x a IH]; simpl; [reflexivity | f_equal; exact IH]. Qed.

Lemma length_append (a b : string) :
  String.length (a +:+ b) = (String.length a + String.length b)%nat.
Proof. induction a as [| x a IH]; simpl; [reflexivity | f_equal; exact IH]. Qed.

Lemma substring_whole (s : string) : substring 0 (String.length s) s = s.
Proof. induction s as [| a s IH]; simpl; [reflexivity | f_equal; exact IH]. Qed.

Lemma substring_prefix (a b : string) : substring 0 (String.length a) (a +:+ b) = a.
Proof.
  induction a as [| x a IH]; simpl; [destruct b; reflexivity | f_equal; exact IH].
Qed.

Lemma substring_suffix (a b : string) :
  substring (String.length a) (String.length b) (a +:+ b) = b.
Proof. induction a as [| x a IH]; simpl; [apply substring_whole | exact IH]. Qed.

Lemma rfind_from_absent c s : forall i last,
  contains c s = false -> rfind_from c s i last = last.
Proof.
  induction s as [| a s IH]; intros i last; simpl; [reflexivity |].
  destruct (Ascii.eqb a c); [discriminate |]. simpl. apply IH.
Qed.

Lemma rfind_from_last c a b : forall i last,
  contains c b = false ->
  rfind_from c (a +:+ String c b) i last = i + Z.of_nat (String.length a).
Proof.
  induction a as [| x a IH]; intros i last Hb; simpl.
  - rewrite Ascii.eqb_refl, rfind_from_absent by exact Hb. lia.
  - rewrite IH by exact Hb. lia.
Qed.

(** [rfind] finds the last occurrence. *)
Lemma rfind_last c a b :
  contains c b = false -> rfind c (a +:+ String c b) = Z.of_nat (String.length a).
Proof. intros Hb. unfold rfind. rewrite rfind_from_last by exact Hb. lia. Qed.

Lemma rfind_absent c s : contains c s = false -> rfind c s = -1.
Proof. apply rfind_from_absent. Qed.

Lemma contains_append c a b : contains c (a +:+ b) = contains c a || contains c b.
Proof.
  induction a as [| x a IH]; simpl; [reflexivity |].
  rewrite IH. apply orb_assoc.
Qed.

Lemma slice_to_prefix a b : slice_to (Z.of_nat (String.length a)) (a +:+ b) = a.
Proof. unfold slice_to. rewrite Nat2Z.id. apply substring_prefix. Qed.

Lemma slice_from_suffix a b : slice_from (Z.of_nat (String.length a)) (a +:+ b) = b.
Proof.
  unfold slice_from. rewrite Nat2Z.id, length_append.
  replace (String.length a + String.length b - String.length a)%nat
    with (String.length b) by lia.
  apply substring_suffix.
Qed.

Lemma append_cons a (s b : string) : String a s +:+ b = String a (s +:+ b).
Proof. reflexivity. Qed.

Lemma rstrip_cons c a r :
  rstrip c (String a r)
  = match rstrip c r with
    | "" => if Ascii.eqb a c then "" else String a ""
    | String _ _ => String a (rstrip c r)
    end.
Proof. reflexivity. Qed.

Lemma rstrip_unslashed c d :
  d <> "" -> endswith c d = false -> rstrip c (d +:+ String c "") = d.
Proof.
  induction d as [| a r IH]; intros Hne He; [congruence |].
  rewrite append_cons, rstrip_cons.
  destruct r as [| b r].
  - simpl in *. rewrite Ascii.eqb_refl, He. reflexivity.
  - rewrite IH; [reflexivity | discriminate | exact He].
Qed.

Lemma all_char_unslashed c d b :
  d <> "" -> endswith c d = false -> all_char c (d +:+ b) = false.
Proof.
  induction d as [| a r IH]; intros Hne He; [congruence |].
  rewrite append_cons.
  change (all_char c (String a (r +:+ b)))
    with (Ascii.eqb a c && all_char c (r +:+ b)).
  destruct r as [| x r].
  - simpl in He. rewrite He. reflexivity.
  - rewrite IH; [apply andb_false_r | discriminate | exact He].
Qed.

Lemma truthy_append_cons a c b : truthy (a +:+ String c b) = true.
Proof. destruct a; reflexivity. Qed.

(** [os.path.split] of [dir/base]. *)
Lemma split_dir_base dir base :
  dir <> "" -> endswith sep dir = false -> contains sep base = false ->
  split (dir +:+ String sep base) = (dir, base).
Proof.
  intros Hne He Hb. unfold split. rewrite rfind_last by exact Hb.
  replace (Z.of_nat (String.length dir) + 1)
    with (Z.of_nat (String.length (dir +:+ String sep ""))).
  2: { rewrite length_append. simpl. lia. }
  replace (dir +:+ String sep base) with ((dir +:+ String sep "") +:+ base).
  2: { rewrite append_assoc. reflexivity. }
  rewrite slice_to_prefix, slice_from_suffix, truthy_append_cons.
  rewrite all_char_unslashed by assumption. simpl.
  rewrite rstrip_unslashed by assumption. reflexivity.
Qed.

Lemma dirname_dir_base dir base :
  dir <> "" -> endswith sep dir = false -> contains sep base = false ->
  dirname (dir +:+ String sep base) = dir.
Proof.
  intros Hne He Hb. pose proof (split_dir_base dir base Hne He Hb) as Hs.
  unfold split in Hs. unfold dirname. injection Hs as Hs _. exact Hs.
Qed.

(** [os.path.split] of a name without a slash. *)
Lemma split_base base : contains sep base = false -> split base = ("", base).
Proof.
  intros Hb. unfold split. rewrite rfind_absent by exact Hb. simpl.
  unfold slice_to, slice_from. simpl. rewrite Nat.sub_0_r, substring_whole.
  destruct base; reflexivity.
Qed.

Lemma all_char_slice_whole c s b :
  all_char c (slice 0 (Z.of_nat (String.length s)) (s +:+ b)) = all_char c s.
Proof.
  unfold slice. rewrite Z.sub_0_r, Nat2Z.id. simpl. rewrite substring_prefix.
  reflexivity.
Qed.

(** [os.path.splitext] of [stem.ext]. *)
Lemma splitext_stem_ext stem ext :
  contains sep stem = false -> all_char extsep stem = false ->
  contains sep ext = false -> contains extsep ext = false ->
  splitext (stem +:+ String extsep ext) = (stem, String extsep ext).
Proof.
  intros Hs Hd Hes Hed. unfold splitext.
  rewrite (rfind_absent sep), (rfind_last extsep) by
    (try exact Hed; rewrite contains_append; simpl; rewrite Hs, Hes; reflexivity).
  replace (-1 + 1) with 0 by lia.
  rewrite all_char_slice_whole, Hd, slice_to_prefix, slice_from_suffix.
  destruct (Z.ltb_spec (-1) (Z.of_nat (String.length stem))); [reflexivity | lia].
Qed.

Lemma startswith_sep_false s b :
  contains sep s = false -> s <> "" -> startswith (String sep "") (s +:+ b) = false.
Proof.
  intros Hc Hne. destruct s as [| a r]; [congruence |].
  rewrite append_cons. unfold startswith.
  change (String.prefix (String sep "") (String a (r +:+ b)))
    with (if ascii_dec sep a then String.prefix "" (r +:+ b) else false).
  destruct (ascii_dec sep a) as [<- | Hn]; [| reflexivity].
  cbn [contains] in Hc. rewrite Ascii.eqb_refl in Hc. discriminate Hc.
Qed.

Lemma join_dir_name dir name :
  dir <> "" -> endswith sep dir = false ->
  startswith (String sep "") name = false ->
  join dir name = dir +:+ String sep name.
Proof.
  intros Hne He Hs. unfold join. rewrite Hs, He.
  destruct dir; [congruence | reflexivity].
Qed.

Lemma join_empty name :
  startswith (String sep "") name = false -> join "" name = name.
Proof. intros Hs. unfold join. rewrite Hs. reflexivity. Qed.

Lemma all_char_nonempty c s : all_char c s = false -> s <> "".
Proof. intros H ->. discriminate. Qed.

End PathFacts.

Section CompanionPaths.
Import PyStr posixpath Dwipi.
#[local] Arguments String.append !_ _ : simpl nomatch.

(** X4: For an image [dir/stem.ext] ([dir] not empty and without a final
    slash, [stem] without a slash and not made of dots only, [ext] without
    dot or slash) the companions looked for are [dir/stem.bval] and
    [dir/stem.bvec], and the confirmation names [stem.nii] whatever [ext]
    is.  For [scan.nii.gz] the stem is [scan.nii]. *)
Theorem companions_of_dir_stem_ext (dir stem ext : string) :
  dir <> "" -> endswith sep dir = false ->
  contains sep stem = false -> all_char extsep stem = false ->
  contains sep ext = false -> contains extsep ext = false ->
  let imPath := dir +:+ "/" +:+ stem +:+ "." +:+ ext in
  fName_of imPath = stem
  /\ bvalPath_of imPath = dir +:+ "/" +:+ stem +:+ ".bval"
  /\ bvecPath_of imPath = dir +:+ "/" +:+ stem +:+ ".bvec"
  /\ loaded_message imPath = "Image " +:+ stem +:+ ".nii loaded successfully".
Proof.
  intros Hne He Hs Hd Hes Hed imPath.
  assert (Hsplit : split imPath = (dir, stem +:+ String extsep ext)).
  { apply (split_dir_base dir (stem +:+ String extsep ext) Hne He).
    rewrite contains_append. cbn [contains]. rewrite Hs, Hes. reflexivity. }
  assert (Hf : fName_of imPath = stem).
  { unfold fName_of. rewrite Hsplit. cbn [fst snd].
    rewrite (splitext_stem_ext stem ext Hs Hd Hes Hed). reflexivity. }
  pose proof (all_char_nonempty _ _ Hd) as Hsne.
  unfold bvalPath_of, bvecPath_of, loaded_message. rewrite Hf, Hsplit.
  cbn [fst snd].
  rewrite !join_dir_name
    by (try assumption; apply startswith_sep_false; assumption).
  repeat split.
Qed.

(** X5: For an image named without a directory the companions are looked for
    under the bare names [stem.bval] and [stem.bvec], that is, in the
    current directory. *)
Theorem companions_of_bare_name (stem ext : string) :
  contains sep stem = false -> all_char extsep stem = false ->
  contains sep ext = false -> contains extsep ext = false ->
  let imPath := stem +:+ "." +:+ ext in
  bvalPath_of imPath = stem +:+ ".bval"
  /\ bvecPath_of imPath = stem +:+ ".bvec".
Proof.
  intros Hs Hd Hes Hed imPath.
  assert (Hsplit : split imPath = ("", stem +:+ String extsep ext)).
  { apply split_base. rewrite contains_append. cbn [contains].
    rewrite Hs, Hes. reflexivity. }
  pose proof (all_char_nonempty _ _ Hd) as Hsne.
  unfold bvalPath_of, bvecPath_of, fName_of. rewrite Hsplit. cbn [fst snd].
  rewrite (splitext_stem_ext stem ext Hs Hd Hes Hed). cbn [fst snd].
  rewrite !join_empty by (apply startswith_sep_false; assumption).
  split; reflexivity.
Qed.

End CompanionPaths.

Lemma companions_of_dir_stem_ext_witness :
  Dwipi.bvalPath_of "/data/sub-01/scan.nii.gz" = "/data/sub-01/scan.nii.bval"
  /\ Dwipi.loaded_message "/data/sub-01/scan.nii.gz"
     = "Image scan.nii.nii loaded successfully".
Proof.
  destruct (companions_of_dir_stem_ext "/data/sub-01" "scan.nii" "gz"
              ltac:(discriminate) eq_refl eq_refl eq_refl eq_refl eq_refl)
    as (_ & Hval & _ & Hmsg).
  split; [exact Hval | exact Hmsg].
Defined.

Lemma companions_of_bare_name_witness :
  Dwipi.bvalPath_of "scan.nii" = "scan.bval"
  /\ Dwipi.bvecPath_of "scan.nii" = "scan.bvec".
Proof.
  exact (companions_of_bare_name "scan" "nii" eq_refl eq_refl eq_refl eq_refl).
Defined.

(** * Further properties of the constructor *)
Section ConstructorOutcomes.
Import Py Numpy Dwipi.
Context {F Hdr Vox : Type} (rint : F -> F) (W : World F Hdr Vox).

Ltac run_ops :=
  cbv beta iota zeta delta
    [bind set_local get_local set_attr get_attr local_str local_floats
     as_str as_floats as_image lift ret raise print py_assert
     assert_companions_found assert_file_found
     locals self stdout PyStr.truthy].
Ltac read_map :=
  first [ rewrite lookup_insert_eq
        | rewrite lookup_insert_ne by (apply String.eqb_neq; reflexivity)
        | rewrite lookup_empty ].
Ltac run := run_ops; repeat (read_map; run_ops).

(** X1: How a construction can end.  When it returns, the image exists, [hdr]
    and [img] hold what the two readers gave, the confirmation line is the
    only output, and [grad] is set exactly when both companion paths exist.
    When it raises, nothing has been printed. *)
Theorem construction_outcome imPath :
  match DWI_new rint W imPath with
  | (Ok obj, out) =>
      path_exists W imPath = true
      /\ out = [loaded_message imPath]
      /\ (exists h v, nib_load W imPath = Ok h /\ dataobj_array W h = Ok v
                      /\ obj !! "hdr" = Some (VImage h)
                      /\ obj !! "img" = Some (VVoxels v))
      /\ (is_Some (obj !! "grad")
          <-> path_exists W (bvalPath_of imPath)
              && path_exists W (bvecPath_of imPath) = true)
  | (Raise e, out) => out = []
  end.
Proof.
  unfold DWI_new, DWI__init__, loaded_message, bvalPath_of, bvecPath_of, fName_of.
  run.
  destruct (path_exists W imPath); run; [| reflexivity].
  destruct (nib_load W imPath) as [hdr | e] eqn:Hn; run; [| reflexivity].
  destruct (dataobj_array W hdr) as [vox | e] eqn:Hd; run; [| reflexivity].
  destruct (path_exists W _ && path_exists W _) eqn:Hc; run.
  - destruct (loadtxt W _) as [a | e]; run; [| reflexivity].
    destruct (loadtxt W _) as [b | e]; run; [| reflexivity].
    destruct (np_c_ _ _) as [g | e]; run; [| reflexivity].
    split; [reflexivity |]. split; [reflexivity |]. split.
    + exists hdr, vox. repeat split; try assumption;
        repeat read_map; reflexivity.
    + split; [reflexivity |]. intros _. eauto.
  - split; [reflexivity |]. split; [reflexivity |]. split.
    + exists hdr, vox. repeat split; try assumption;
        repeat read_map; reflexivity.
    + repeat read_map. split; [intros [x Hx]; discriminate Hx | discriminate].
Qed.

(** X2: An exception raised by a reader is the exception of the construction:
    by [nib.load], by the read of the voxel data, or, when both companion
    paths exist, by [np.loadtxt] on the b-vector file or, after that one
    loaded, on the b-value file.  Nothing is printed. *)
Theorem reader_error_propagates imPath (e : exn) :
  path_exists W imPath = true ->
  nib_load W imPath = Raise e
  \/ (exists h, nib_load W imPath = Ok h /\ dataobj_array W h = Raise e)
  \/ (exists h v, nib_load W imPath = Ok h /\ dataobj_array W h = Ok v
        /\ path_exists W (bvalPath_of imPath) = true
        /\ path_exists W (bvecPath_of imPath) = true
        /\ (loadtxt W (bvecPath_of imPath) = Raise e
            \/ exists a, loadtxt W (bvecPath_of imPath) = Ok a
                         /\ loadtxt W (bvalPath_of imPath) = Raise e)) ->
  DWI_new rint W imPath = (Raise e, []).
Proof.
  intros He H.
  unfold DWI_new, DWI__init__, bvalPath_of, bvecPath_of, fName_of in *.
  run. rewrite He. run.
  destruct H as [Hn | [(h & Hn & Hd) | (h & v & Hn & Hd & Hb & Hc & Hl)]].
  - rewrite Hn. run. reflexivity.
  - rewrite Hn. run. rewrite Hd. run. reflexivity.
  - rewrite Hn. run. rewrite Hd. run. rewrite Hb, Hc. cbn [andb]. run.
    destruct Hl as [Hl | (a & Ha & Hl)].
    + rewrite Hl. run. reflexivity.
    + rewrite Ha. run. rewrite Hl. run. reflexivity.
Qed.

(** X3: The number of b-values has to be the number of columns of the
    b-vector table: otherwise [np.c_] raises [ValueError], the construction
    with it, and the confirmation is not printed. *)
Theorem mismatched_bvals_raise imPath hdr vox (rows : list (list F)) (bs : list F) :
  path_exists W imPath = true ->
  nib_load W imPath = Ok hdr ->
  dataobj_array W hdr = Ok vox ->
  path_exists W (bvalPath_of imPath) = true ->
  path_exists W (bvecPath_of imPath) = true ->
  loadtxt W (bvecPath_of imPath) = Ok (Arr2 rows) ->
  loadtxt W (bvalPath_of imPath) = Ok (Arr1 bs) ->
  ncols rows <> length bs ->
  exists msg, DWI_new rint W imPath = (Raise (ValueError msg), []).
Proof.
  intros H1 H2 H3 H4 H5 H6 H7 Hne.
  unfold DWI_new, DWI__init__, bvalPath_of, bvecPath_of, fName_of in *.
  run. rewrite H1. run. rewrite H2. run. rewrite H3. run.
  rewrite H4, H5. cbn [andb]. run. rewrite H6. run. rewrite H7. run.
  unfold np_c_, np_transpose, np_map, as_columns, transpose_rows.
  rewrite !length_map, length_seq.
  destruct (Nat.eqb (ncols rows) (length bs)) eqn:Hq.
  - apply Nat.eqb_eq in Hq. contradiction.
  - run. eexists. reflexivity.
Qed.

End ConstructorOutcomes.

Lemma reader_error_propagates_witness :
  Dwipi.DWI_new Numpy.rint_Q MoreSamples.unreadable_world "/data/scan.nii"
  = (Py.Raise (Py.LibraryError "nibabel: not a NIfTI file"), []).
Proof.
  apply (reader_error_propagates Numpy.rint_Q MoreSamples.unreadable_world
           "/data/scan.nii" _ eq_refl).
  left. reflexivity.
Defined.

Lemma mismatched_bvals_raise_witness :
  exists msg,
    Dwipi.DWI_new Numpy.rint_Q MoreSamples.short_bval_world "/data/scan.nii"
    = (Py.Raise (Py.ValueError msg), []).
Proof.
  apply (mismatched_bvals_raise Numpy.rint_Q MoreSamples.short_bval_world
           "/data/scan.nii" "scan.nii header" [7; 8; 9]
           [[1%Q; 0%Q; 0%Q]; [0%Q; 1%Q; 0%Q]; [0%Q; 0%Q; 1%Q]] [0%Q; 1000%Q]
           eq_refl eq_refl eq_refl eq_refl eq_refl eq_refl eq_refl).
  simpl. discriminate.
Defined.

(** ** What the two tables of [createTensorOrder] list *)
Section TensorTables.
Import Py Numpy Dwipi TensorIndex.
Context {F Hdr Vox : Type}.
Implicit Types (obj : gmap string (val F Hdr Vox)) (out : list string).

(** X6: Whenever the call returns, the order is a number n (2 or 4), [ind]
    lists every non-decreasing tuple of n indices over 0, 1, 2 once, in
    lexicographic order, and [cnt] gives for each of them the number of
    tuples of n indices that are rearrangements of it; so the rows stand
    for all the 3^n components of a fully symmetric tensor of order n. *)
Theorem tensor_tables_enumerate_symmetric_components order obj out cnt ind :
  (call (createTensorOrder order) obj out).1.1
  = Ok (VInts (Arr1 cnt), VInts (Arr2 ind)) ->
  exists n : nat,
    order = PyInt (Z.of_nat n)
    /\ ind = List.filter nondecreasing (tuples n)
    /\ cnt = List.map (rearrangements n) ind
    /\ foldr Z.add 0 cnt = Z.of_nat (length (tuples n))
    /\ length (tuples n) = (3 ^ n)%nat.
Proof.
  intros H.
  destruct (py_eq_int order 2) eqn:H2; [| destruct (py_eq_int order 4) eqn:H4].
  - apply py_eq_int_spec in H2; [subst | lia].
    rewrite createTensorOrder_2_run in H. cbn [fst] in H.
    injection H as <- <-. exists 2%nat. repeat split; vm_compute; reflexivity.
  - apply py_eq_int_spec in H4; [subst | lia].
    rewrite createTensorOrder_4_run in H. cbn [fst] in H.
    injection H as <- <-. exists 4%nat. repeat split; vm_compute; reflexivity.
  - rewrite (createTensorOrder_other_run order obj out H2 H4) in H.
    discriminate H.
Qed.

End TensorTables.

Lemma tensor_tables_enumerate_symmetric_components_witness :
  exists n : nat,
    Py.PyInt 4 = Py.PyInt (Z.of_nat n)
    /\ [1; 4; 4; 6; 12; 6; 4; 12; 12; 4; 1; 4; 6; 4; 1]
       = List.map (TensorIndex.rearrangements n)
           (List.filter TensorIndex.nondecreasing (TensorIndex.tuples n)).
Proof.
  destruct (tensor_tables_enumerate_symmetric_components
              (F := Q) (Hdr := string) (Vox := list Z) (Py.PyInt 4) ∅ []
              [1; 4; 4; 6; 12; 6; 4; 12; 12; 4; 1; 4; 6; 4; 1]
              [[0; 0; 0; 0]; [0; 0; 0; 1]; [0; 0; 0; 2]; [0; 0; 1; 1];
               [0; 0; 1; 2]; [0; 0; 2; 2]; [0; 1; 1; 1]; [0; 1; 1; 2];
               [0; 1; 2; 2]; [0; 2; 2; 2]; [1; 1; 1; 1]; [1; 1; 1; 2];
               [1; 1; 2; 2]; [1; 2; 2; 2]; [2; 2; 2; 2]] eq_refl)
    as (n & Hn & Hind & Hcnt & _).
  exists n. split; [exact Hn |]. rewrite <- Hind. exact Hcnt.
Defined.

(** ** An invariant of the parsing loop

    Every action the algorithm takes is one of the parser's, so a property
    of the namespace and of the destinations seen that holds at the start
    and that every action of the parser preserves holds of every
    namespace [parse_args] returns. *)
Section ParseInvariant.
Import Py Argparse.
Variable actions : list Action.
Let m := option_string_actions actions.

Lemma is_optional_of_elem a : is_optional_of actions a -> a ∈ actions.
Proof.
  intros [o Hin]. unfold option_string_actions in Hin.
  apply list_elem_of_In, in_flat_map in Hin. destruct Hin as (b & Hb & Hin).
  apply in_map_iff in Hin. destruct Hin as (o1 & Heq & _).
  injection Heq as _ <-. apply list_elem_of_In. exact Hb.
Qed.

Lemma lookup_option_action o a :
  lookup_option o (option_string_actions actions) = Some a -> a ∈ actions.
Proof.
  intros H. apply is_optional_of_elem.
  destruct (lookup_option_elem _ _ _ H) as [k Hk]. exists k. exact Hk.
Qed.

(** The table of a classification holds options of the parser only. *)
Lemma classify_tuples args : forall table,
  classify m args = inr table ->
  Forall (fun e => match e.2 with
                   | Some t => tuple_of actions t
                   | None => True
                   end) table.
Proof.
  induction args as [| a args IH]; intros table; simpl.
  - intros [= <-]. constructor.
  - destruct (String.eqb a "--").
    + intros [= <-]. constructor; [exact I |].
      apply Forall_forall. intros e He. apply list_elem_of_In, in_map_iff in He.
      destruct He as (s & <- & _). exact I.
    + destruct (parse_optional m a) as [| t | ms] eqn:Hp; [| | discriminate].
      * destruct (classify m args) as [h | l]; [discriminate |].
        intros [= <-]. constructor; [exact I | apply IH; reflexivity].
      * destruct (classify m args) as [h | l]; [discriminate |].
        intros [= <-]. constructor; [| apply IH; reflexivity].
        simpl. apply (parse_optional_tuple actions a). exact Hp.
Qed.

Variable I : gmap string pyval -> list string -> Prop.
Hypothesis store_step : forall a args ns seen,
  a ∈ actions -> kind a = Store -> I ns seen ->
  I (<[dest a := get_values a args]> ns) (dest a :: seen).
Hypothesis store_true_step : forall a ns seen,
  a ∈ actions -> kind a = StoreTrue -> I ns seen ->
  I (<[dest a := PyBool true]> ns) (dest a :: seen).

Variable arg_strings : list string.
Variable table : list (pat * option option_tuple).
Hypothesis table_tuples :
  Forall (fun e => match e.2 with
                   | Some t => tuple_of actions t
                   | None => True
                   end) table.

Let holds := ParseNotions.holds actions I.

Lemma take_action_holds a args st st1 :
  a ∈ actions -> holds st -> take_action a args st = Go tt st1 ->
  holds st1 /\ positionals st1 = positionals st.
Proof.
  intros Ha [Hi Hp]. unfold take_action.
  destruct (kind a) eqn:Hk; intros H; try discriminate; injection H as <-;
    (split; [split |]); simpl; try reflexivity; try exact Hp.
  - apply store_step; assumption.
  - apply store_true_step; assumption.
Qed.

Lemma take_actions_holds l : forall start st n st1,
  Forall (fun p => p.1 ∈ actions) l -> holds st ->
  take_actions arg_strings l start st = Go n st1 ->
  holds st1 /\ positionals st1 = positionals st.
Proof.
  induction l as [| [a c] l IH]; intros start st n st1 Hl Hst; simpl.
  - intros [= _ <-]. split; [exact Hst | reflexivity].
  - apply Forall_cons in Hl. destruct Hl as [Ha Hl].
    destruct (take_action a _ st) as [[] st2 |] eqn:Ht; [| discriminate].
    destruct (take_action_holds _ _ _ _ Ha Hst Ht) as [H2 Hp2].
    intros H. destruct (IH _ _ _ _ Hl H2 H) as [H1 Hp1].
    split; [exact H1 | congruence].
Qed.

Lemma consume_positionals_holds start st n st1 :
  holds st -> consume_positionals arg_strings table start st = Go n st1 ->
  holds st1.
Proof.
  intros Hst. unfold consume_positionals.
  destruct (take_actions _ _ _ _) as [k st2 |] eqn:Ht; [| discriminate].
  intros [= _ <-].
  assert (Hl : Forall (fun p : Action * nat => p.1 ∈ actions)
                 (zip (positionals st)
                    (match_arguments_partial (length (positionals st))
                       (drop start (List.map fst table))))).
  { apply Forall_forall. intros [a c] Hin.
    apply elem_of_zip_l in Hin. destruct Hst as [_ Hp].
    apply (proj1 (Forall_forall _ _) Hp a Hin). }
  destruct (take_actions_holds _ _ _ _ _ Hl Hst Ht) as [[Hi Hp] Heq].
  split; simpl; [exact Hi |]. apply Forall_drop. exact Hp.
Qed.

Lemma run_actions_holds l : forall st st1,
  Forall (fun p : Action * list string => p.1 ∈ actions) l -> holds st ->
  run_actions l st = Go tt st1 -> holds st1.
Proof.
  induction l as [| [a args] l IH]; intros st st1 Hl Hst; simpl.
  - intros [= <-]. exact Hst.
  - apply Forall_cons in Hl. destruct Hl as [Ha Hl].
    destruct (take_action a args st) as [[] st2 |] eqn:Ht; [| discriminate].
    apply IH; [exact Hl |].
    apply (take_action_holds _ _ _ _ Ha Hst Ht).
Qed.

Lemma without_explicit_arg_actions start a acc l stop :
  Forall (fun p => p.1 ∈ actions) acc -> a ∈ actions ->
  without_explicit_arg arg_strings table start a acc = inr (l, stop) ->
  Forall (fun p : Action * list string => p.1 ∈ actions) l.
Proof.
  intros Hacc Ha. unfold without_explicit_arg.
  destruct (match_argument _ _) as [h | c]; [discriminate |].
  intros [= <- _]. apply Forall_app. split; [exact Hacc |].
  constructor; [exact Ha | constructor].
Qed.

Lemma with_explicit_arg_actions start e : forall a o acc l stop,
  Forall (fun p => p.1 ∈ actions) acc -> a ∈ actions ->
  with_explicit_arg actions arg_strings table start a o e acc = inr (l, stop) ->
  Forall (fun p : Action * list string => p.1 ∈ actions) l.
Proof.
  induction e as [| c rest IH]; intros a o acc l stop Hacc Ha; simpl.
  - destruct (kind a); [| destruct (is_long o); discriminate ..].
    intros [= <- _]. apply Forall_app. split; [exact Hacc |].
    constructor; [exact Ha | constructor].
  - assert (Hacc1 : Forall (fun p : Action * list string => p.1 ∈ actions)
                      (acc ++ [(a, [])])).
    { apply Forall_app. split; [exact Hacc |]. constructor; [exact Ha | constructor]. }
    destruct (kind a);
      [intros [= <- _]; apply Forall_app; split; [exact Hacc |];
       constructor; [exact Ha | constructor] | |];
      (destruct (is_long o); [discriminate |]);
      (destruct (lookup_option _ _) as [a1 |] eqn:Hl; [| discriminate]);
      pose proof (lookup_option_action _ _ Hl) as Ha1;
      (destruct rest as [| c1 rest1];
       [apply without_explicit_arg_actions | apply IH]); assumption.
Qed.

Lemma option_at_action i a o e :
  option_at table i = Some (Some a, o, e) -> a ∈ actions.
Proof.
  unfold option_at. destruct (table !! i) as [[p [t1 |]] |] eqn:Hi; try discriminate.
  intros [= ->].
  apply (Forall_lookup_1 _ _ _ _ table_tuples) in Hi.
  apply is_optional_of_elem. exact Hi.
Qed.

Lemma consume_optional_holds start st n st1 :
  holds st -> consume_optional actions arg_strings table start st = Go n st1 ->
  holds st1.
Proof.
  intros Hst. unfold consume_optional.
  destruct (option_at table start) as [[[[a |] o] e] |] eqn:Ho.
  - pose proof (option_at_action _ _ _ _ Ho) as Ha.
    destruct (match e with Some _ => _ | None => _ end) as [h | [l stop]] eqn:Hp;
      [discriminate |].
    assert (Hl : Forall (fun p : Action * list string => p.1 ∈ actions) l).
    { destruct e as [e |].
      - apply (with_explicit_arg_actions _ _ _ _ _ _ _ (Forall_nil_2 _) Ha Hp).
      - apply (without_explicit_arg_actions _ _ _ _ _ (Forall_nil_2 _) Ha Hp). }
    destruct (run_actions l st) as [[] st2 |] eqn:Hr; [| discriminate].
    intros [= _ <-]. apply (run_actions_holds _ _ _ Hl Hst Hr).
  - intros [= _ <-]. exact Hst.
  - intros [= _ <-]. exact Hst.
Qed.

Lemma consume_loop_holds fuel : forall start st n st1,
  holds st ->
  consume_loop actions arg_strings table fuel start st = Go n st1 ->
  holds st1.
Proof.
  induction fuel as [| fuel IH]; intros start st n st1 Hst; simpl.
  - destruct (max_option_string_index table) as [mx |];
      [destruct (Nat.ltb mx start) |]; intros [= _ <-]; exact Hst.
  - destruct (max_option_string_index table) as [mx |];
      [destruct (Nat.ltb mx start) |]; try (intros [= _ <-]; exact Hst).
    destruct (Nat.eqb start (next_option_string_index table start)).
    + destruct (is_option_index table start);
        (destruct (consume_optional _ _ _ _ _) as [k st3 |] eqn:Ho; [| discriminate]);
        apply IH; (eapply consume_optional_holds; [| exact Ho]); exact Hst.
    + destruct (consume_positionals _ _ start st) as [stop st2 |] eqn:Hc;
        [| discriminate].
      pose proof (consume_positionals_holds _ _ _ _ Hst Hc) as H2.
      destruct (Nat.ltb start stop); [apply IH; exact H2 |].
      destruct (is_option_index table stop);
        (destruct (consume_optional _ _ _ _ _) as [k st3 |] eqn:Ho; [| discriminate]);
        apply IH; (eapply consume_optional_holds; [| exact Ho]); exact H2.
Qed.

Lemma required_actions_seen st a :
  required_actions actions st = [] -> a ∈ actions -> required a = true ->
  dest a ∈ seen_actions st.
Proof.
  unfold required_actions. intros Hnil Hin Hreq.
  apply (f_equal length) in Hnil. rewrite length_map in Hnil.
  apply length_zero_iff_nil in Hnil.
  destruct (existsb (String.eqb (dest a)) (seen_actions st)) eqn:Hex.
  - apply existsb_exists in Hex. destruct Hex as (y & Hy & Heq).
    apply String.eqb_eq in Heq. subst y. apply list_elem_of_In. exact Hy.
  - assert (Hmem : In a (List.filter
              (fun a0 => required a0
                 && negb (existsb (String.eqb (dest a0)) (seen_actions st)))
              actions)).
    { apply filter_In. split; [apply list_elem_of_In; exact Hin |].
      rewrite Hreq, Hex. reflexivity. }
    rewrite Hnil in Hmem. destruct Hmem.
Qed.

Lemma parse_classified_holds st ns :
  holds st -> parse_classified actions arg_strings table st = Parsed ns ->
  exists seen, I ns seen
    /\ forall a, a ∈ actions -> required a = true -> dest a ∈ seen.
Proof.
  intros Hst. unfold parse_classified.
  destruct (consume_loop _ _ _ _ _ _) as [start st1 | [e |]] eqn:Hloop;
    [| discriminate ..].
  pose proof (consume_loop_holds _ _ _ _ _ Hst Hloop) as H1.
  destruct (consume_positionals _ _ start st1) as [stop st2 | [e |]] eqn:Hc;
    [| discriminate ..].
  pose proof (consume_positionals_holds _ _ _ _ H1 Hc) as [H2 _].
  destruct (required_actions _ _) as [| r rs] eqn:Hreq; [| discriminate].
  destruct (extras _) as [| x xs]; [| discriminate].
  intros Hp. apply Parsed_inj in Hp. subst ns.
  exists (seen_actions st2). split; [exact H2 |].
  intros a Ha Hr. apply (required_actions_seen _ a Hreq Ha Hr).
Qed.

End ParseInvariant.

Section ParseArgsInvariant.
Import Py Argparse.

(** The invariant principle for [parse_args]. *)
Lemma parse_args_invariant (actions : list Action)
  (I : gmap string pyval -> list string -> Prop) (args : list string) ns :
  (forall a args ns seen, a ∈ actions -> kind a = Store -> I ns seen ->
     I (<[dest a := get_values a args]> ns) (dest a :: seen)) ->
  (forall a ns seen, a ∈ actions -> kind a = StoreTrue -> I ns seen ->
     I (<[dest a := PyBool true]> ns) (dest a :: seen)) ->
  I (default_namespace actions) [] ->
  parse_args actions args = Parsed ns ->
  exists seen, I ns seen
    /\ forall a, a ∈ actions -> required a = true -> dest a ∈ seen.
Proof.
  intros Hs Ht H0. unfold parse_args.
  destruct (classify _ args) as [[e |] | table] eqn:Hc; [discriminate ..|].
  apply (parse_classified_holds actions I Hs Ht args table
           (classify_tuples actions args table Hc)).
  split; [exact H0 |]. simpl.
  apply Forall_forall. intros a Ha.
  apply list_elem_of_In, filter_In in Ha. apply list_elem_of_In, Ha.
Qed.

End ParseArgsInvariant.

(** ** Every namespace the parser of [pydesigner.py] returns *)
Section ParserNamespace.
Import Py Argparse Pydesigner.

Lemma parser_dests_cases (a : Action) :
  a ∈ parser ->
  kind a = Help
  \/ (kind a = Store
      /\ dest a ∈ ["dwi"; "output"; "extent"; "fit_constraints";
                   "rpe_pair"; "rpe_all"; "pe_dir"])
  \/ (kind a = StoreTrue /\ dest a ∈ boolean_flags).
Proof.
  intros Ha.
  assert (Hall : Forall (fun a : Action =>
            match kind a with
            | Help => True
            | Store => dest a ∈ ["dwi"; "output"; "extent"; "fit_constraints";
                                 "rpe_pair"; "rpe_all"; "pe_dir"]
            | StoreTrue => dest a ∈ boolean_flags
            end) parser).
  { unfold parser, boolean_flags.
    repeat (constructor; [simpl; first [exact I | apply list_elem_of_In; simpl; tauto] |]).
    constructor. }
  pose proof (proj1 (Forall_forall _ _) Hall a Ha) as H. cbv beta in H.
  destruct (kind a); [right; left | right; right | left]; repeat split; exact H.
Qed.

Ltac read_ns :=
  repeat first [ rewrite lookup_insert_eq
               | rewrite lookup_insert_ne by (apply String.eqb_neq; reflexivity)
               | rewrite lookup_empty ].

Lemma default_namespace_dom (k : string) :
  is_Some (default_namespace parser !! k)
  <-> k ∈ "dwi" :: "output" :: "extent" :: "fit_constraints"
          :: "rpe_pair" :: "rpe_all" :: "pe_dir" :: boolean_flags.
Proof.
  rewrite default_namespace_parser. unfold boolean_flags.
  rewrite !lookup_insert_is_Some, lookup_empty. split.
  - intros H.
    repeat (destruct H as [<- | [_ H]]; [apply list_elem_of_In; simpl; tauto |]).
    destruct H as [v Hv]. discriminate Hv.
  - intros H.
    repeat (apply elem_of_cons in H; destruct H as [-> | H];
            [repeat first [ left; reflexivity
                          | right; split; [apply String.eqb_neq; reflexivity |] ] |]).
    apply elem_of_nil in H. destruct H.
Qed.

(** X7: Whatever the command line, a namespace that [parse_args] returns has
    exactly the 19 attributes of the parser's arguments: nothing is
    missing, nothing else is set. *)
Theorem parsed_namespace_attributes (args : list string) ns (k : string) :
  parse_args parser args = Parsed ns ->
  (is_Some (ns !! k)
   <-> k ∈ ["dwi"; "output"; "extent"; "fit_constraints"; "rpe_pair"; "rpe_all";
            "pe_dir"; "standard"; "denoise"; "eddy"; "b1correct";
            "scaleb0median"; "smooth"; "DTI"; "DKI"; "WMTI"; "kcumulants";
            "mask"; "rpe_none"]).
Proof.
  intros Hp.
  destruct (parse_args_invariant parser
              (fun ns _ => forall k, is_Some (ns !! k)
                                     <-> is_Some (default_namespace parser !! k))
              args ns) as (seen & H & _); try exact Hp.
  - intros a vs ns0 _ Ha Hk Hns k0. rewrite lookup_insert_is_Some, Hns.
    destruct (parser_dests_cases a Ha) as [Hh | [[_ Hd] | [Hb _]]]; [congruence | | congruence].
    split;
      [| intros Hs; destruct (decide (dest a = k0)); [left | right; split]; assumption].
    intros [<- | [_ Hs]]; [| exact Hs].
    apply default_namespace_dom.
    refine (names_included _ _ _ _ Hd). reflexivity.
  - intros a ns0 _ Ha Hk Hns k0. rewrite lookup_insert_is_Some, Hns.
    destruct (parser_dests_cases a Ha) as [Hh | [[Hs _] | [_ Hd]]]; [congruence | congruence |].
    split;
      [| intros Hs; destruct (decide (dest a = k0)); [left | right; split]; assumption].
    intros [<- | [_ Hs]]; [| exact Hs].
    apply default_namespace_dom.
    refine (names_included _ _ _ _ Hd). reflexivity.
  - intros k0. reflexivity.
  - rewrite H. apply default_namespace_dom.
Qed.

(** X8: Whatever the command line, in a namespace that [parse_args] returns
    every boolean flag holds [True] or [False], never [None] or text. *)
Theorem parsed_flags_are_booleans (args : list string) ns :
  parse_args parser args = Parsed ns ->
  Forall (fun f => exists b, ns !! f = Some (PyBool b)) boolean_flags.
Proof.
  intros Hp.
  destruct (parse_args_invariant parser
              (fun ns _ => forall f, f ∈ boolean_flags ->
                                     exists b, ns !! f = Some (PyBool b))
              args ns) as (seen & H & _); try exact Hp.
  - intros a vs ns0 _ Ha Hk Hns f Hf.
    destruct (parser_dests_cases a Ha) as [Hh | [[_ Hd] | [Hb _]]]; [congruence | | congruence].
    rewrite lookup_insert_ne; [apply Hns; exact Hf |].
    intros <-. refine (names_disjoint _ _ _ _ Hd Hf). reflexivity.
  - intros a ns0 _ Ha Hk Hns f Hf.
    destruct (decide (dest a = f)) as [<- | Hne].
    + rewrite lookup_insert_eq. eauto.
    + rewrite lookup_insert_ne by exact Hne. apply Hns. exact Hf.
  - intros f Hf. rewrite default_namespace_parser.
    unfold boolean_flags in Hf.
    repeat (apply elem_of_cons in Hf; destruct Hf as [-> | Hf];
            [read_ns; eauto |]).
    apply elem_of_nil in Hf. destruct Hf.
  - apply Forall_forall. exact H.
Qed.

End ParserNamespace.

Section RequiredOfParser.
Import Py Argparse Pydesigner.

Lemma required_actions_parser st :
  required_actions parser st
  = if existsb (String.eqb "dwi") (seen_actions st) then [] else ["dwi"].
Proof.
  unfold required_actions, parser.
  cbn [List.filter required help_action positional optional andb dest].
  destruct (existsb (String.eqb "dwi") (seen_actions st)); reflexivity.
Qed.

End RequiredOfParser.

(** ** One round of the parsing loop *)
Section LoopRounds.
Import Py Argparse ParseNotions.
Variable actions : list Action.
Variable arg_strings : list string.
Variable table : list (pat * option option_tuple).

Lemma last_filter_seq (f : nat -> bool) a n i :
  In i (List.filter f (seq a n)) ->
  exists mx, last (List.filter f (seq a n)) = Some mx /\ (i <= mx)%nat.
Proof.
  revert i. induction n as [| n IH]; intros i; [intros [] |].
  rewrite seq_S, List.filter_app. cbn [List.filter].
  intros Hin. apply in_app_iff in Hin.
  destruct (f (a + n)%nat) eqn:Hf.
  - exists (a + n)%nat. split; [apply last_snoc |].
    destruct Hin as [Hin | [<- | []]]; [| lia].
    apply filter_In in Hin. destruct Hin as [Hin _]. apply in_seq in Hin. lia.
  - rewrite app_nil_r. destruct Hin as [Hin | []]. apply IH. exact Hin.
Qed.

Lemma max_option_string_index_ge i :
  is_option_index table i = true -> (i < length table)%nat ->
  exists mx, max_option_string_index table = Some mx /\ (i <= mx)%nat.
Proof.
  intros Hi Hlt. apply last_filter_seq. apply filter_In.
  split; [apply in_seq; lia | exact Hi].
Qed.

Lemma is_option_index_bound i :
  is_option_index table i = true -> (i < length table)%nat.
Proof.
  unfold is_option_index, option_at. intros H.
  destruct (table !! i) as [e |] eqn:He; [| discriminate].
  apply lookup_lt_Some in He. exact He.
Qed.

Lemma next_option_string_index_here start :
  is_option_index table start = true ->
  next_option_string_index table start = start.
Proof.
  intros Hi. pose proof (is_option_index_bound _ Hi) as Hlt.
  unfold next_option_string_index.
  destruct (length table - start)%nat as [| k] eqn:Hk; [lia |].
  cbn [seq List.filter]. rewrite Hi. reflexivity.
Qed.

Lemma next_option_string_index_later start :
  is_option_index table start = false -> (start < length table)%nat ->
  (start < next_option_string_index table start)%nat.
Proof.
  intros Hi Hlt. unfold next_option_string_index.
  destruct (List.filter _ _) as [| i l] eqn:Hf; [exact Hlt |].
  assert (Hin : In i (List.filter (is_option_index table)
                        (seq start (length table - start))))
    by (rewrite Hf; left; reflexivity).
  apply filter_In in Hin. destruct Hin as [Hin Ht]. apply in_seq in Hin.
  destruct (decide (i = start)) as [-> | Hne]; [congruence | lia].
Qed.

(** A round that starts on an option consumes that option. *)
Lemma consume_loop_at_option fuel start st :
  is_option_index table start = true ->
  consume_loop actions arg_strings table (S fuel) start st
  = match consume_optional actions arg_strings table start st with
    | Halt h => Halt h
    | Go start3 st3 => consume_loop actions arg_strings table fuel start3 st3
    end.
Proof.
  intros Hi. pose proof (is_option_index_bound _ Hi) as Hlt.
  destruct (max_option_string_index_ge _ Hi Hlt) as (mx & Hmx & Hle).
  cbn [consume_loop]. rewrite Hmx.
  destruct (Nat.ltb_spec mx start) as [Hc | _]; [lia |].
  rewrite (next_option_string_index_here _ Hi), Nat.eqb_refl, Hi. reflexivity.
Qed.

(** A round that starts before an option, on strings of which the
    pending positionals consume some, goes on after them. *)
Lemma consume_loop_at_positional fuel start st i stop st1 :
  is_option_index table start = false ->
  (start < i)%nat -> is_option_index table i = true ->
  consume_positionals arg_strings table start st = Go stop st1 ->
  (start < stop)%nat ->
  consume_loop actions arg_strings table (S fuel) start st
  = consume_loop actions arg_strings table fuel stop st1.
Proof.
  intros Hs Hlt Hi Hc Hstop.
  pose proof (is_option_index_bound _ Hi) as Hb.
  destruct (max_option_string_index_ge _ Hi Hb) as (mx & Hmx & Hle).
  cbn [consume_loop]. rewrite Hmx.
  destruct (Nat.ltb_spec mx start) as [Hx | _]; [lia |].
  pose proof (next_option_string_index_later start Hs ltac:(lia)) as Hn.
  destruct (Nat.eqb_spec start (next_option_string_index table start)) as [He | _];
    [lia |].
  rewrite Hc. destruct (Nat.ltb_spec start stop) as [_ | Hx]; [reflexivity | lia].
Qed.

(** The loop stops once no option is left from [start] on. *)
Lemma consume_loop_done fuel start st :
  (forall i, (start <= i)%nat -> is_option_index table i = false) ->
  consume_loop actions arg_strings table fuel start st = Go start st.
Proof.
  intros Hno.
  assert (H : match max_option_string_index table with
              | Some mx => Nat.ltb mx start = true
              | None => True
              end).
  { destruct (max_option_string_index table) as [mx |] eqn:Hmx; [| exact I].
    unfold max_option_string_index in Hmx.
    apply last_Some_elem_of, list_elem_of_In, filter_In in Hmx.
    destruct Hmx as [_ Hmx].
    apply Nat.ltb_lt. destruct (Nat.lt_ge_cases mx start) as [Hlt | Hge]; [exact Hlt |].
    rewrite (Hno mx Hge) in Hmx. discriminate Hmx. }
  destruct fuel; cbn [consume_loop];
    destruct (max_option_string_index table) as [mx |]; try rewrite H; reflexivity.
Qed.

End LoopRounds.

(** ** The classification of the argument strings *)
Section Classification.
Import Py Argparse ParseNotions.
Variable m : list (string * Action).

(** The classification fails exactly on the first ambiguous string. *)
Lemma classify_first_ambiguous (args : list string) :
  match first_ambiguous m args with
  | Some (a, ms) => classify m args = inl (HaltError (AmbiguousOption a ms))
  | None => exists table, classify m args = inr table
  end.
Proof.
  induction args as [| a args IH]; simpl; [eauto |].
  destruct (String.eqb a "--"); [eauto |].
  destruct (parse_optional m a) as [| t | ms]; [| | reflexivity].
  - destruct (first_ambiguous m args) as [[b ms] |].
    + rewrite IH. reflexivity.
    + destruct IH as [table ->]. eauto.
  - destruct (first_ambiguous m args) as [[b ms] |].
    + rewrite IH. reflexivity.
    + destruct IH as [table ->]. eauto.
Qed.

(** Strings that are neither the separator nor ambiguous give one entry
    each, whatever follows them. *)
Lemma classify_app (xs rest : list string) :
  Forall (fun s => s <> "--" /\ forall ms, parse_optional m s <> Ambiguous ms) xs ->
  classify m (xs ++ rest)
  = match classify m rest with
    | inl h => inl h
    | inr l => inr (List.map (entry m) xs ++ l)
    end.
Proof.
  induction 1 as [| s xs [Hsep Hamb] Hxs IH]; simpl.
  - destruct (classify m rest); reflexivity.
  - apply String.eqb_neq in Hsep. rewrite Hsep, IH. unfold entry.
    destruct (parse_optional m s) as [| t | ms]; [| | destruct (Hamb ms); reflexivity];
      destruct (classify m rest); reflexivity.
Qed.

End Classification.

(** ** The loop on a table read from a given index on *)
Section LoopAt.
Import Py Argparse ParseNotions.
Variable actions : list Action.
Variables (pre_a : list string) (pre_t : list (pat * option option_tuple)).
Hypothesis pre_length : length pre_a = length pre_t.
Let start := length pre_t.

Lemma option_at_app suf_t i :
  option_at (pre_t ++ suf_t) (start + i) = option_at suf_t i.
Proof.
  unfold option_at, start. rewrite lookup_app_r by lia.
  replace (length pre_t + i - length pre_t)%nat with i by lia. reflexivity.
Qed.

Lemma option_at_start suf_t :
  option_at (pre_t ++ suf_t) start = option_at suf_t 0.
Proof. rewrite <- (option_at_app suf_t 0). f_equal. lia. Qed.

Lemma is_option_index_app suf_t i :
  is_option_index (pre_t ++ suf_t) (start + i) = is_option_index suf_t i.
Proof. unfold is_option_index. rewrite option_at_app. reflexivity. Qed.

Lemma is_option_index_start suf_t :
  is_option_index (pre_t ++ suf_t) start = is_option_index suf_t 0.
Proof. unfold is_option_index. rewrite option_at_start. reflexivity. Qed.

Lemma pattern_from_start suf_t k :
  drop (start + k) (List.map fst (pre_t ++ suf_t)) = drop k (List.map fst suf_t).
Proof.
  rewrite List.map_app, drop_app_add' by (rewrite length_map; reflexivity).
  reflexivity.
Qed.

Lemma strings_from_start suf_a k :
  drop (start + k) (pre_a ++ suf_a) = drop k suf_a.
Proof. apply drop_app_add'. symmetry. exact pre_length. Qed.

Lemma pattern_at_start suf_t :
  drop start (List.map fst (pre_t ++ suf_t)) = List.map fst suf_t.
Proof.
  pose proof (pattern_from_start suf_t 0) as H.
  rewrite Nat.add_0_r in H. exact H.
Qed.

Lemma strings_at_start suf_a : drop start (pre_a ++ suf_a) = suf_a.
Proof.
  pose proof (strings_from_start suf_a 0) as H.
  rewrite Nat.add_0_r in H. exact H.
Qed.

(** A switch: the option is taken with no argument. *)
Lemma consume_optional_switch a o x suf_a suf_t st :
  kind a = StoreTrue ->
  consume_optional actions (pre_a ++ x :: suf_a)
    (pre_t ++ (PO, Some (Some a, o, None)) :: suf_t) start st
  = Go (S start) (stored a (PyBool true) st).
Proof.
  intros Hk. unfold consume_optional. rewrite option_at_start.
  cbn [option_at lookup list_lookup]. unfold without_explicit_arg, match_argument.
  rewrite Hk. cbn [run_actions app]. unfold take_action. rewrite Hk.
  f_equal. lia.
Qed.

(** A one-argument option followed by a string that is not an option:
    the option is taken with that string. *)
Lemma consume_optional_valued a o x v e suf_a suf_t st :
  kind a = Store ->
  consume_optional actions (pre_a ++ x :: v :: suf_a)
    (pre_t ++ (PO, Some (Some a, o, None)) :: (PA, e) :: suf_t) start st
  = Go (S (S start)) (stored a (get_values a [v]) st).
Proof.
  intros Hk. unfold consume_optional. rewrite option_at_start.
  cbn [option_at lookup list_lookup]. unfold without_explicit_arg, match_argument.
  rewrite Hk.
  replace (S start) with (start + 1)%nat by lia.
  rewrite pattern_from_start, strings_from_start.
  cbn [drop List.map fst take app run_actions]. unfold take_action. rewrite Hk.
  f_equal. lia.
Qed.

(** A one-argument option with no string to take: the error of a
    missing argument. *)
Lemma consume_optional_no_value a o x suf_a suf_t st :
  kind a = Store ->
  head (List.map fst suf_t) <> Some PA ->
  consume_optional actions (pre_a ++ x :: suf_a)
    (pre_t ++ (PO, Some (Some a, o, None)) :: suf_t) start st
  = Halt (HaltError (ExpectedOneArgument a)).
Proof.
  intros Hk Hh. unfold consume_optional. rewrite option_at_start.
  cbn [option_at lookup list_lookup]. unfold without_explicit_arg, match_argument.
  rewrite Hk.
  replace (S start) with (start + 1)%nat by lia.
  rewrite pattern_from_start.
  destruct suf_t as [| [[] e] l]; try reflexivity.
  destruct Hh. reflexivity.
Qed.

(** A one-argument option with its value attached by [=]. *)
Lemma consume_optional_joined a o x v suf_a suf_t st :
  kind a = Store ->
  consume_optional actions (pre_a ++ x :: suf_a)
    (pre_t ++ (PO, Some (Some a, o, Some v)) :: suf_t) start st
  = Go (S start) (stored a (get_values a [v]) st).
Proof.
  intros Hk. unfold consume_optional. rewrite option_at_start.
  cbn [option_at lookup list_lookup].
  assert (Hw : with_explicit_arg actions (pre_a ++ x :: suf_a)
                 (pre_t ++ (PO, Some (Some a, o, Some v)) :: suf_t) start a o v []
               = inr ([(a, [v])], S start)).
  { destruct v; simpl; rewrite Hk; reflexivity. }
  rewrite Hw. cbn [run_actions]. unfold take_action. rewrite Hk. reflexivity.
Qed.

(** A long switch with a value attached by [=]: the error of an
    unexpected argument. *)
Lemma consume_optional_switch_joined a o x v suf_a suf_t st :
  kind a <> Store -> is_long o = true ->
  consume_optional actions (pre_a ++ x :: suf_a)
    (pre_t ++ (PO, Some (Some a, o, Some v)) :: suf_t) start st
  = Halt (HaltError (IgnoredExplicitArgument a v)).
Proof.
  intros Hk Hl. unfold consume_optional. rewrite option_at_start.
  cbn [option_at lookup list_lookup].
  assert (Hw : with_explicit_arg actions (pre_a ++ x :: suf_a)
                 (pre_t ++ (PO, Some (Some a, o, Some v)) :: suf_t) start a o v []
               = inl (HaltError (IgnoredExplicitArgument a v))).
  { destruct v; simpl; destruct (kind a); try congruence; rewrite Hl; reflexivity. }
  rewrite Hw. reflexivity.
Qed.

(** The help option. *)
Lemma consume_optional_help a o x suf_a suf_t st :
  kind a = Help ->
  consume_optional actions (pre_a ++ x :: suf_a)
    (pre_t ++ (PO, Some (Some a, o, None)) :: suf_t) start st
  = Halt HaltHelp.
Proof.
  intros Hk. unfold consume_optional. rewrite option_at_start.
  cbn [option_at lookup list_lookup]. unfold without_explicit_arg, match_argument.
  rewrite Hk. cbn [run_actions app]. unfold take_action. rewrite Hk.
  reflexivity.
Qed.

(** One pending one-argument positional and a string for it that is
    followed by no separator. *)
Lemma consume_positionals_one p d e suf_a suf_t st :
  positionals st = [p] -> kind p = Store ->
  head (List.map fst suf_t) <> Some PDash ->
  consume_positionals (pre_a ++ d :: suf_a) (pre_t ++ (PA, e) :: suf_t) start st
  = Go (S start)
      {| namespace := <[dest p := get_values p [d]]> (namespace st);
         seen_actions := dest p :: seen_actions st;
         positionals := [];
         extras := extras st |}.
Proof.
  intros Hp Hk Hh. unfold consume_positionals. rewrite Hp.
  rewrite !pattern_at_start. cbn [List.map fst length].
  assert (Hm : match_arguments_partial 1 (PA :: List.map fst suf_t) = [1%nat]).
  { cbn [match_arguments_partial match_groups]. unfold match_one.
    cbn [count_dashes drop].
    assert (Hc : count_dashes (List.map fst suf_t) = 0%nat).
    { destruct suf_t as [| [[] e1] l]; try reflexivity.
      destruct Hh. reflexivity. }
    rewrite Hc. reflexivity. }
  rewrite Hm. cbn [zip zip_with take_actions].
  rewrite strings_at_start. cbn [take]. unfold take_action. rewrite Hk.
  cbn [positionals length drop namespace seen_actions extras].
  rewrite Hp, take_0. f_equal. lia.
Qed.

(** Nothing pending: nothing is consumed. *)
Lemma consume_positionals_none arg_strings table i st :
  positionals st = [] ->
  consume_positionals arg_strings table i st = Go i st.
Proof.
  intros Hp. unfold consume_positionals. rewrite Hp. cbn.
  destruct st; simpl in *; subst; reflexivity.
Qed.

(** A pending positional and no string left. *)
Lemma consume_positionals_end p st :
  positionals st = [p] ->
  consume_positionals pre_a pre_t start st = Go start st.
Proof.
  intros Hp. unfold consume_positionals. rewrite Hp.
  unfold start. rewrite drop_ge by (rewrite length_map; lia). cbn.
  destruct st; simpl in *; subst; reflexivity.
Qed.

End LoopAt.

(** ** How the loop can stop early *)
Section Halts.
Import Py Argparse ParseNotions.
Variable actions : list Action.
Variable arg_strings : list string.
Variable table : list (pat * option option_tuple).
Hypothesis table_tuples :
  Forall (fun e => match e.2 with
                   | Some t => tuple_of actions t
                   | None => True
                   end) table.
Let good := holds actions (fun _ _ => True).

Lemma good_step a args st st1 :
  a ∈ actions -> good st -> take_action a args st = Go tt st1 -> good st1.
Proof.
  intros Ha Hst Ht.
  apply (take_action_holds actions (fun _ _ => True)
           ltac:(auto) ltac:(auto) a args st st1 Ha Hst Ht).
Qed.

Lemma take_action_halt a args st h :
  a ∈ actions -> take_action a args st = Halt h -> expected_halt actions h.
Proof.
  intros Ha. unfold take_action. destruct (kind a) eqn:Hk; try discriminate.
  intros [= <-]. exists a. split; assumption.
Qed.

Lemma take_actions_halt l : forall start st h,
  Forall (fun p => p.1 ∈ actions) l -> good st ->
  take_actions arg_strings l start st = Halt h -> expected_halt actions h.
Proof.
  induction l as [| [a c] l IH]; intros start st h Hl Hst; simpl; [discriminate |].
  apply Forall_cons in Hl. destruct Hl as [Ha Hl].
  destruct (take_action a _ st) as [[] st2 |] eqn:Ht.
  - apply IH; [exact Hl | apply (good_step _ _ _ _ Ha Hst Ht)].
  - intros [= <-]. apply (take_action_halt _ _ _ _ Ha Ht).
Qed.

Lemma consume_positionals_halt start st h :
  good st -> consume_positionals arg_strings table start st = Halt h ->
  expected_halt actions h.
Proof.
  intros Hst. unfold consume_positionals.
  destruct (take_actions _ _ _ _) as [k st2 |] eqn:Ht; [discriminate |].
  intros [= <-]. refine (take_actions_halt _ _ _ _ _ Hst Ht).
  apply Forall_forall. intros [a c] Hin.
  apply elem_of_zip_l in Hin. destruct Hst as [_ Hp].
  apply (proj1 (Forall_forall _ _) Hp a Hin).
Qed.

Lemma run_actions_halt l : forall st h,
  Forall (fun p : Action * list string => p.1 ∈ actions) l -> good st ->
  run_actions l st = Halt h -> expected_halt actions h.
Proof.
  induction l as [| [a args] l IH]; intros st h Hl Hst; simpl; [discriminate |].
  apply Forall_cons in Hl. destruct Hl as [Ha Hl].
  destruct (take_action a args st) as [[] st2 |] eqn:Ht.
  - apply IH; [exact Hl | apply (good_step _ _ _ _ Ha Hst Ht)].
  - intros [= <-]. apply (take_action_halt _ _ _ _ Ha Ht).
Qed.

Lemma lookup_option_optional o a :
  lookup_option o (option_string_actions actions) = Some a ->
  is_optional_of actions a.
Proof.
  intros H. destruct (lookup_option_elem _ _ _ H) as [k Hk]. exists k. exact Hk.
Qed.

Lemma without_explicit_arg_halt start a acc h :
  is_optional_of actions a ->
  without_explicit_arg arg_strings table start a acc = inl h ->
  expected_halt actions h.
Proof.
  intros Ha. unfold without_explicit_arg, match_argument.
  destruct (kind a) eqn:Hk; try discriminate.
  destruct (drop _ _) as [| [] l]; try discriminate;
    intros [= <-]; split; assumption.
Qed.

Lemma with_explicit_arg_halt start e : forall a o acc h,
  is_optional_of actions a ->
  with_explicit_arg actions arg_strings table start a o e acc = inl h ->
  expected_halt actions h.
Proof.
  assert (Hbad : forall a x, is_optional_of actions a -> kind a <> Store ->
            expected_halt actions (HaltError (IgnoredExplicitArgument a x))).
  { intros a x Ha Hk. split; assumption. }
  induction e as [| c rest IH]; intros a o acc h Ha; simpl.
  - destruct (kind a) eqn:Hk; [discriminate | |];
      (destruct (is_long o); intros [= <-]; (apply Hbad; [exact Ha | congruence])).
  - destruct (kind a) eqn:Hk; [discriminate | |].
    all: destruct (is_long o);
      [intros [= <-]; (apply Hbad; [exact Ha | congruence]) |].
    all: destruct (lookup_option _ _) as [a1 |] eqn:Hl;
      [| intros [= <-]; (apply Hbad; [exact Ha | congruence])].
    all: pose proof (lookup_option_optional _ _ Hl) as Ha1.
    all: destruct rest as [| c1 rest1];
      [apply without_explicit_arg_halt | apply IH]; exact Ha1.
Qed.

Lemma consume_optional_halt start st h :
  good st -> consume_optional actions arg_strings table start st = Halt h ->
  expected_halt actions h.
Proof.
  intros Hst. unfold consume_optional.
  destruct (option_at table start) as [[[[a |] o] e] |] eqn:Ho; try discriminate.
  assert (Ha : is_optional_of actions a).
  { unfold option_at in Ho.
    destruct (table !! start) as [[p [t1 |]] |] eqn:Hi; try discriminate.
    injection Ho as ->.
    apply (Forall_lookup_1 _ _ _ _ table_tuples) in Hi. exact Hi. }
  destruct (match e with Some _ => _ | None => _ end) as [h1 | [l stop]] eqn:Hp.
  - intros [= <-]. destruct e as [e |].
    + apply (with_explicit_arg_halt _ _ _ _ _ _ Ha Hp).
    + apply (without_explicit_arg_halt _ _ _ _ Ha Hp).
  - assert (Hl : Forall (fun p : Action * list string => p.1 ∈ actions) l).
    { pose proof (is_optional_of_elem actions a Ha) as Hin. destruct e as [e |].
      - apply (with_explicit_arg_actions actions arg_strings table _ _ _ _ _ _ _
                 (Forall_nil_2 _) Hin Hp).
      - apply (without_explicit_arg_actions actions arg_strings table _ _ _ _ _
                 (Forall_nil_2 _) Hin Hp). }
    destruct (run_actions l st) as [[] st2 |] eqn:Hr; [discriminate |].
    intros [= <-]. apply (run_actions_halt _ _ _ Hl Hst Hr).
Qed.

Lemma good_consume_optional start st n st1 :
  good st -> consume_optional actions arg_strings table start st = Go n st1 ->
  good st1.
Proof.
  apply (consume_optional_holds actions (fun _ _ => True)
           ltac:(auto) ltac:(auto) arg_strings table table_tuples).
Qed.

Lemma good_consume_positionals start st n st1 :
  good st -> consume_positionals arg_strings table start st = Go n st1 ->
  good st1.
Proof.
  apply (consume_positionals_holds actions (fun _ _ => True)
           ltac:(auto) ltac:(auto) arg_strings table).
Qed.

Lemma consume_loop_halt fuel : forall start st h,
  good st -> consume_loop actions arg_strings table fuel start st = Halt h ->
  expected_halt actions h.
Proof.
  induction fuel as [| fuel IH]; intros start st h Hst; simpl.
  - destruct (max_option_string_index table) as [mx |];
      [destruct (Nat.ltb mx start) |]; discriminate.
  - destruct (max_option_string_index table) as [mx |];
      [destruct (Nat.ltb mx start) |]; try discriminate.
    destruct (Nat.eqb start (next_option_string_index table start)).
    + destruct (is_option_index table start);
        (destruct (consume_optional _ _ _ _ _) as [k st3 |] eqn:Ho;
         [apply IH; (eapply good_consume_optional; [| exact Ho]); exact Hst
         | intros [= <-]; (eapply consume_optional_halt; [| exact Ho]); exact Hst]).
    + destruct (consume_positionals _ _ start st) as [stop st2 |] eqn:Hc.
      2: { intros [= <-]. apply (consume_positionals_halt _ _ _ Hst Hc). }
      pose proof (good_consume_positionals _ _ _ _ Hst Hc) as H2.
      destruct (Nat.ltb start stop); [apply IH; exact H2 |].
      destruct (is_option_index table stop);
        (destruct (consume_optional _ _ _ _ _) as [k st3 |] eqn:Ho;
         [apply IH; (eapply good_consume_optional; [| exact Ho]); exact H2
         | intros [= <-]; (eapply consume_optional_halt; [| exact Ho]); exact H2]).
Qed.

Lemma good_consume_loop fuel start st n st1 :
  good st -> consume_loop actions arg_strings table fuel start st = Go n st1 ->
  good st1.
Proof.
  apply (consume_loop_holds actions (fun _ _ => True)
           ltac:(auto) ltac:(auto) arg_strings table table_tuples).
Qed.

(** What [parse_classified] can end with. *)
Lemma parse_classified_ends st :
  good st ->
  match parse_classified actions arg_strings table st with
  | Parsed _ => True
  | HelpExit => exists a, a ∈ actions /\ kind a = Help
  | UsageError (RequiredArguments names) =>
      exists st1, names = required_actions actions st1 /\ names <> []
  | UsageError (UnrecognizedArguments ex) => ex <> []
  | UsageError e => expected_halt actions (HaltError e)
  end.
Proof.
  intros Hst. unfold parse_classified.
  destruct (consume_loop _ _ _ _ _ _) as [start st1 | h] eqn:Hloop.
  2: { pose proof (consume_loop_halt _ _ _ _ Hst Hloop) as Hh.
       destruct h as [[] |]; simpl in Hh; try contradiction; exact Hh. }
  pose proof (good_consume_loop _ _ _ _ _ Hst Hloop) as H1.
  destruct (consume_positionals _ _ start st1) as [stop st2 | h] eqn:Hc.
  2: { pose proof (consume_positionals_halt _ _ _ H1 Hc) as Hh.
       destruct h as [[] |]; simpl in Hh; try contradiction; exact Hh. }
  destruct (required_actions _ _) as [| r rs] eqn:Hreq.
  - destruct (extras _) as [| x xs]; [exact I | discriminate].
  - eexists. split; [symmetry; exact Hreq | discriminate].
Qed.

End Halts.

(** ** The errors of [parse_args] *)
Section ParseArgsErrors.
Import Py Argparse Pydesigner ParseNotions CommandLine.

(** What [parse_args] can end with, for any parser. *)
Lemma parse_args_ends (actions : list Action) (args : list string) :
  match parse_args actions args with
  | Parsed _ => True
  | HelpExit => exists a, a ∈ actions /\ kind a = Help
  | UsageError (AmbiguousOption a ms) =>
      first_ambiguous (option_string_actions actions) args = Some (a, ms)
  | UsageError (RequiredArguments names) =>
      exists st1, names = required_actions actions st1 /\ names <> []
  | UsageError (UnrecognizedArguments ex) => ex <> []
  | UsageError e => expected_halt actions (HaltError e)
  end.
Proof.
  unfold parse_args.
  pose proof (classify_first_ambiguous (option_string_actions actions) args) as Hf.
  destruct (first_ambiguous _ args) as [[a ms] |].
  - rewrite Hf. reflexivity.
  - destruct Hf as [table Hc]. rewrite Hc.
    match goal with
    | |- context [parse_classified actions args table ?st] =>
        pose proof (parse_classified_ends actions args table
                      (classify_tuples actions args table Hc) st) as H
    end.
    assert (Hgood : forall P : Prop, (holds actions (fun _ _ => True)
              {| namespace := default_namespace actions; seen_actions := [];
                 positionals := List.filter is_positional actions;
                 extras := [] |} -> P) -> P).
    { intros P HP. apply HP. split; [exact I |]. simpl.
      apply Forall_forall. intros a Ha.
      apply list_elem_of_In, filter_In in Ha. apply list_elem_of_In, Ha. }
    apply Hgood. intros Hg. specialize (H Hg).
    destruct (parse_classified _ _ _ _) as [ns | [] |]; simpl in *;
      try exact H; try contradiction.
Qed.

(** X16: The ambiguity error is reported exactly when a string before any
    separator [--] can be read as several options, and it is reported for
    the first such string: ahead of the help option, of a missing dataset
    and of any other error. *)
Theorem ambiguity_error_iff (actions : list Action) (args : list string)
  (a : string) (ms : list string) :
  parse_args actions args = UsageError (AmbiguousOption a ms)
  <-> first_ambiguous (option_string_actions actions) args = Some (a, ms).
Proof.
  split.
  - intros H. pose proof (parse_args_ends actions args) as He.
    rewrite H in He. exact He.
  - intros H. unfold parse_args.
    pose proof (classify_first_ambiguous (option_string_actions actions) args) as Hc.
    rewrite H in Hc. rewrite Hc. reflexivity.
Qed.

Lemma parser_option_strings (o : string) (a : Action) :
  (o, a) ∈ option_string_actions parser ->
  a = option_action o
  /\ match kind a with
     | Store => o ∈ value_strings
     | StoreTrue => o ∈ switch_strings
     | Help => o ∈ ["-h"; "--help"]
     end.
Proof.
  intros Hin.
  assert (Hall : Forall (fun oa : string * Action =>
            oa.2 = option_action oa.1
            /\ match kind oa.2 with
               | Store => oa.1 ∈ value_strings
               | StoreTrue => oa.1 ∈ switch_strings
               | Help => oa.1 ∈ ["-h"; "--help"]
               end) (option_string_actions parser)).
  { let t := eval vm_compute in (option_string_actions parser) in
    change (option_string_actions parser) with t.
    repeat (constructor;
            [split; [vm_compute; reflexivity
                    | apply list_elem_of_In; vm_compute; tauto] |]).
    constructor. }
  apply (proj1 (Forall_forall _ _) Hall (o, a) Hin).
Qed.

(** X17: The usage errors the parser of [pydesigner.py] can end with, and
    nothing else: an ambiguous abbreviation; a one-value option without
    its value; a switch, or the help option, with a value attached; the
    missing dataset, which is the only argument ever reported as required;
    strings left over. *)
Theorem usage_errors_of_the_parser (args : list string) (e : usage_error) :
  parse_args parser args = UsageError e ->
  match e with
  | AmbiguousOption a ms =>
      first_ambiguous (option_string_actions parser) args = Some (a, ms)
  | ExpectedOneArgument a =>
      exists o, o ∈ value_strings /\ a = option_action o
  | IgnoredExplicitArgument a _ =>
      exists o, o ∈ switch_strings ++ ["-h"; "--help"] /\ a = option_action o
  | RequiredArguments names => names = ["dwi"]
  | UnrecognizedArguments ex => ex <> []
  end.
Proof.
  intros H. pose proof (parse_args_ends parser args) as He. rewrite H in He.
  destruct e as [a ms | a | a x | names | ex]; simpl in He.
  - exact He.
  - destruct He as [[o Hin] Hk]. destruct (parser_option_strings o a Hin) as [Ha Ho].
    rewrite Hk in Ho. exists o. split; assumption.
  - destruct He as [[o Hin] Hk]. destruct (parser_option_strings o a Hin) as [Ha Ho].
    exists o. split; [| exact Ha]. apply elem_of_app.
    destruct (kind a); [congruence | left; exact Ho | right; exact Ho].
  - destruct He as (st1 & -> & Hne). rewrite required_actions_parser in *.
    destruct (existsb _ _); [congruence | reflexivity].
  - exact He.
Qed.

End ParseArgsErrors.

Lemma ambiguity_error_iff_witness :
  Argparse.parse_args Pydesigner.parser ["-h"; "--rpe"; "/data/scan.nii"]
  = Argparse.UsageError
      (Argparse.AmbiguousOption "--rpe" ["--rpe_none"; "--rpe_pair"; "--rpe_all"]).
Proof.
  apply (proj2 (ambiguity_error_iff Pydesigner.parser
                  ["-h"; "--rpe"; "/data/scan.nii"] "--rpe"
                  ["--rpe_none"; "--rpe_pair"; "--rpe_all"])).
  vm_compute. reflexivity.
Defined.

Lemma usage_errors_of_the_parser_witness :
  exists o, o ∈ CommandLine.value_strings
    /\ Argparse.optional ["--extent"] Argparse.Store (Some (Py.PyStr "5,5,5"))
       = CommandLine.option_action o.
Proof.
  apply (usage_errors_of_the_parser ["/data/scan.nii"; "--extent"]
           (Argparse.ExpectedOneArgument
              (Argparse.optional ["--extent"] Argparse.Store (Some (Py.PyStr "5,5,5"))))).
  vm_compute. reflexivity.
Defined.

(** ** Reading option strings *)
Section OptionStrings.
Import Py PyStr Argparse ParseNotions.
#[local] Arguments String.append !_ _ : simpl nomatch.
Variable m : list (string * Action).

Lemma parse_optional_exact o r a :
  o = String dash r -> lookup_option o m = Some a ->
  parse_optional m o = Optional (Some a, o, None).
Proof.
  intros -> Hl. unfold parse_optional. rewrite Ascii.eqb_refl. cbn [negb].
  rewrite Hl. reflexivity.
Qed.

Lemma lookup_option_absent s :
  Forall (fun ka : string * Action => ka.1 <> s) m -> lookup_option s m = None.
Proof.
  induction 1 as [| [k a] l Hk Hl IH]; [reflexivity |].
  cbn [lookup_option]. simpl in Hk. apply String.eqb_neq in Hk. rewrite Hk.
  exact IH.
Qed.

Lemma split_first_joined c o v :
  contains c o = false -> split_first c (o +:+ String c v) = (o, v).
Proof.
  induction o as [| x o IH]; intros Hc.
  - simpl. rewrite Ascii.eqb_refl. reflexivity.
  - cbn [contains] in Hc. apply orb_false_elim in Hc. destruct Hc as [Hx Hc].
    rewrite append_cons. cbn [split_first]. rewrite Hx, IH by exact Hc.
    reflexivity.
Qed.

Lemma contains_joined c o v : contains c (o +:+ String c v) = true.
Proof.
  rewrite contains_append. cbn [contains]. rewrite Ascii.eqb_refl.
  apply orb_true_r.
Qed.

(** [option=value] in one string, for an option string without [=] of a
    parser none of whose option strings holds [=]. *)
Lemma parse_optional_joined o r v a :
  o = String dash r -> lookup_option o m = Some a ->
  contains "=" o = false ->
  Forall (fun ka : string * Action => contains "=" ka.1 = false) m ->
  parse_optional m (o +:+ "=" +:+ v) = Optional (Some a, o, Some v).
Proof.
  intros Ho Hl Hc Hm. change ("=" +:+ v) with (String "="%char v).
  assert (Hnone : lookup_option (o +:+ String "="%char v) m = None).
  { apply lookup_option_absent. eapply Forall_impl; [exact Hm |].
    intros [k b] Hk Heq. simpl in *. rewrite Heq, contains_joined in Hk.
    discriminate Hk. }
  unfold parse_optional. rewrite Hnone.
  rewrite contains_joined, split_first_joined, Hl by exact Hc.
  subst o. rewrite append_cons, Ascii.eqb_refl. cbn [negb String.length].
  destruct (r +:+ String "="%char v) eqn:Hr.
  - destruct r; discriminate Hr.
  - reflexivity.
Qed.

Lemma joined_not_separator o v : o +:+ "=" +:+ v <> "--".
Proof.
  intros H. pose proof (contains_joined "=" o v) as Hc.
  change (String "="%char v) with ("=" +:+ v) in Hc. rewrite H in Hc.
  discriminate Hc.
Qed.

End OptionStrings.

(** ** Command lines written option by option *)
Section WellFormedCommandLines.
Import Py PyStr Argparse Pydesigner ParseNotions CommandLine.
Let m := option_string_actions parser.

Lemma switch_string_action o :
  o ∈ switch_strings ->
  (exists r, o = String dash r)
  /\ lookup_option o m = Some (option_action o)
  /\ kind (option_action o) = StoreTrue
  /\ attribute o ∈ boolean_flags.
Proof.
  intros H. unfold switch_strings in H.
  repeat (apply elem_of_cons in H; destruct H as [-> | H];
          [split; [eexists; reflexivity |];
           split; [vm_compute; reflexivity |];
           split; [vm_compute; reflexivity |];
           apply list_elem_of_In; vm_compute; tauto |]).
  apply elem_of_nil in H. destruct H.
Qed.

Lemma value_string_action o :
  o ∈ value_strings ->
  (exists r, o = String dash r)
  /\ lookup_option o m = Some (option_action o)
  /\ kind (option_action o) = Store
  /\ contains "=" o = false
  /\ attribute o ∈ ["output"; "extent"; "fit_constraints";
                    "rpe_pair"; "rpe_all"; "pe_dir"].
Proof.
  intros H. unfold value_strings in H.
  repeat (apply elem_of_cons in H; destruct H as [-> | H];
          [split; [eexists; reflexivity |];
           split; [vm_compute; reflexivity |];
           split; [vm_compute; reflexivity |];
           split; [vm_compute; reflexivity |];
           apply list_elem_of_In; vm_compute; tauto |]).
  apply elem_of_nil in H. destruct H.
Qed.

Lemma parser_strings_without_equals :
  Forall (fun ka : string * Action => contains "=" ka.1 = false) m.
Proof.
  apply Forall_forall. intros ka Hin.
  assert (H : forallb (fun ka : string * Action => negb (contains "=" ka.1)) m = true)
    by (vm_compute; reflexivity).
  rewrite forallb_forall in H. apply list_elem_of_In in Hin.
  apply negb_true_iff. apply H. exact Hin.
Qed.

Lemma entry_switch o :
  o ∈ switch_strings -> entry m o = (PO, Some (Some (option_action o), o, None)).
Proof.
  intros H. destruct (switch_string_action o H) as ([r Hr] & Hl & _).
  unfold entry. rewrite (parse_optional_exact m o r _ Hr Hl). reflexivity.
Qed.

Lemma entry_value o :
  o ∈ value_strings -> entry m o = (PO, Some (Some (option_action o), o, None)).
Proof.
  intros H. destruct (value_string_action o H) as ([r Hr] & Hl & _).
  unfold entry. rewrite (parse_optional_exact m o r _ Hr Hl). reflexivity.
Qed.

Lemma entry_joined o v :
  o ∈ value_strings ->
  entry m (o +:+ "=" +:+ v) = (PO, Some (Some (option_action o), o, Some v)).
Proof.
  intros H. destruct (value_string_action o H) as ([r Hr] & Hl & _ & Hc & _).
  unfold entry.
  rewrite (parse_optional_joined m o r v _ Hr Hl Hc parser_strings_without_equals).
  reflexivity.
Qed.

Lemma entry_plain d : startswith "-" d = false -> entry m d = (PA, None).
Proof.
  intros H. unfold entry. destruct (no_dash_positional m d H) as [-> _].
  reflexivity.
Qed.

Lemma plain_not_separator d : startswith "-" d = false -> d <> "--".
Proof. intros H ->. discriminate H. Qed.

Lemma get_values_one a v : kind a = Store -> v <> "--" -> get_values a [v] = PyStr v.
Proof.
  intros Hk Hv. unfold get_values. cbn [remove_first].
  apply String.eqb_neq in Hv. rewrite Hv, Hk. reflexivity.
Qed.

(** No string of a well-formed item is the separator or ambiguous: each
    has the entry [entry] gives. *)
Lemma tokens_classified i :
  well_formed i ->
  Forall (fun s => s <> "--" /\ forall ms, parse_optional m s <> Ambiguous ms)
         (tokens i).
Proof.
  assert (He : forall s p t, entry m s = (p, Some t) ->
                 forall ms, parse_optional m s <> Ambiguous ms).
  { intros s p t. unfold entry. destruct (parse_optional m s); discriminate. }
  destruct i as [o | o v | o v]; simpl.
  - intros H. constructor; [| constructor]. split.
    + intros ->. revert H. unfold switch_strings. rewrite list_elem_of_In.
      simpl. intros H. repeat (destruct H as [H | H]; [discriminate H |]). exact H.
    + exact (He _ _ _ (entry_switch o H)).
  - intros [H Hv]. constructor; [| constructor; [| constructor]]; split.
    + intros ->. revert H. unfold value_strings. rewrite list_elem_of_In.
      simpl. intros H. repeat (destruct H as [H | H]; [discriminate H |]). exact H.
    + exact (He _ _ _ (entry_value o H)).
    + apply plain_not_separator. exact Hv.
    + intros ms. destruct (no_dash_positional m v Hv) as [-> _]. discriminate.
  - intros [H Hv]. constructor; [| constructor]. split.
    + apply joined_not_separator.
    + exact (He _ _ _ (entry_joined o v H)).
Qed.

Lemma items_classified items :
  Forall well_formed items ->
  Forall (fun s => s <> "--" /\ forall ms, parse_optional m s <> Ambiguous ms)
         (flat_map tokens items).
Proof.
  induction 1 as [| i items Hi _ IH]; simpl; [constructor |].
  apply Forall_app. split; [apply tokens_classified; exact Hi | exact IH].
Qed.

(** The rounds of the loop over well-formed items: one round each. *)
Lemma loop_items items : forall pre_a pre_t suf_a suf_t fuel st,
  length pre_a = length pre_t -> Forall well_formed items ->
  consume_loop parser (pre_a ++ flat_map tokens items ++ suf_a)
    (pre_t ++ List.map (entry m) (flat_map tokens items) ++ suf_t)
    (length items + fuel) (length pre_t) st
  = consume_loop parser (pre_a ++ flat_map tokens items ++ suf_a)
      (pre_t ++ List.map (entry m) (flat_map tokens items) ++ suf_t)
      fuel (length pre_t + length (flat_map tokens items))
      (fold_left run_item items st).
Proof.
  induction items as [| i items IH]; intros pre_a pre_t suf_a suf_t fuel st Hlen Hwf.
  - simpl. rewrite Nat.add_0_r. reflexivity.
  - apply Forall_cons in Hwf. destruct Hwf as [Hi Hwf].
    cbn [flat_map fold_left length Nat.add].
    rewrite List.map_app, <- !app_assoc.
    set (F := flat_map tokens items) in *.
    destruct i as [o | o v | o v]; cbn [tokens List.map app run_item].
    + simpl in Hi. rewrite (entry_switch o Hi).
      destruct (switch_string_action o Hi) as (_ & _ & Hk & _).
      rewrite consume_loop_at_option
        by (rewrite (is_option_index_start pre_a pre_t Hlen); reflexivity).
      rewrite (consume_optional_switch parser pre_a pre_t Hlen _ _ _ _ _ _ Hk).
      specialize (IH (pre_a ++ [o])
                    (pre_t ++ [(PO, Some (Some (option_action o), o, None))])
                    suf_a suf_t fuel (stored (option_action o) (PyBool true) st)).
      rewrite !length_app, <- !app_assoc in IH. cbn [length app] in IH.
      fold F in IH. rewrite !Nat.add_1_r in IH.
      etrans; [apply IH; [lia | exact Hwf] |].
      f_equal. cbn [length]. lia.
    + simpl in Hi. destruct Hi as [Ho Hv]. rewrite (entry_value o Ho), (entry_plain v Hv).
      destruct (value_string_action o Ho) as (_ & _ & Hk & _).
      rewrite consume_loop_at_option
        by (rewrite (is_option_index_start pre_a pre_t Hlen); reflexivity).
      rewrite (consume_optional_valued parser pre_a pre_t Hlen _ _ _ _ _ _ _ _ Hk).
      rewrite (get_values_one _ _ Hk (plain_not_separator v Hv)).
      specialize (IH (pre_a ++ [o; v])
                    (pre_t ++ [(PO, Some (Some (option_action o), o, None)); (PA, None)])
                    suf_a suf_t fuel (stored (option_action o) (PyStr v) st)).
      rewrite !length_app, <- !app_assoc in IH. cbn [length app] in IH.
      fold F in IH.
      replace (length pre_t + 2)%nat with (S (S (length pre_t))) in IH by lia.
      etrans; [apply IH; [lia | exact Hwf] |].
      f_equal. cbn [length]. lia.
    + simpl in Hi. destruct Hi as [Ho Hv]. rewrite (entry_joined o v Ho).
      destruct (value_string_action o Ho) as (_ & _ & Hk & _).
      rewrite consume_loop_at_option
        by (rewrite (is_option_index_start pre_a pre_t Hlen); reflexivity).
      rewrite (consume_optional_joined parser pre_a pre_t Hlen _ _ _ _ _ _ _ Hk).
      rewrite (get_values_one _ _ Hk Hv).
      specialize (IH (pre_a ++ [o +:+ "=" +:+ v])
                    (pre_t ++ [(PO, Some (Some (option_action o), o, Some v))])
                    suf_a suf_t fuel (stored (option_action o) (PyStr v) st)).
      rewrite !length_app, <- !app_assoc in IH. cbn [length app] in IH.
      fold F in IH. rewrite !Nat.add_1_r in IH.
      etrans; [apply IH; [lia | exact Hwf] |].
      f_equal. cbn [length]. lia.
Qed.

Lemma fold_run_item items : forall st,
  namespace (fold_left run_item items st) = fold_left effect items (namespace st)
  /\ positionals (fold_left run_item items st) = positionals st
  /\ extras (fold_left run_item items st) = extras st
  /\ (forall x, x ∈ seen_actions st -> x ∈ seen_actions (fold_left run_item items st)).
Proof.
  induction items as [| i items IH]; intros st; [repeat split; auto |].
  cbn [fold_left]. destruct (IH (run_item st i)) as (Hn & Hp & He & Hs).
  rewrite Hn, Hp, He. repeat split.
  - destruct i; reflexivity.
  - intros x Hx. apply Hs. unfold run_item, stored. cbn [seen_actions].
    right. exact Hx.
Qed.

Lemma seen_dwi (l : list string) :
  "dwi" ∈ l -> existsb (String.eqb "dwi") l = true.
Proof.
  intros H. apply existsb_exists. exists "dwi".
  split; [apply list_elem_of_In; exact H | reflexivity].
Qed.

Lemma is_option_index_beyond (table : list (pat * option option_tuple)) i :
  (length table <= i)%nat -> is_option_index table i = false.
Proof.
  intros H. unfold is_option_index, option_at.
  rewrite lookup_ge_None_2 by exact H. reflexivity.
Qed.

Lemma first_entry_of_items i items suf_t :
  well_formed i ->
  is_option_index (List.map (entry m) (flat_map tokens (i :: items)) ++ suf_t) 0 = true
  /\ head (List.map fst (List.map (entry m) (flat_map tokens (i :: items)) ++ suf_t))
     <> Some PDash.
Proof.
  intros Hi. cbn [flat_map]. rewrite List.map_app.
  destruct i as [o | o v | o v]; cbn [tokens List.map app]; simpl in Hi.
  - rewrite (entry_switch o Hi). split; [reflexivity | discriminate].
  - destruct Hi as [Ho _]. rewrite (entry_value o Ho). split; [reflexivity | discriminate].
  - destruct Hi as [Ho _]. rewrite (entry_joined o v Ho). split; [reflexivity | discriminate].
Qed.

Lemma tokens_length (l : list item) :
  (length l <= length (flat_map tokens l) <= 2 * length l)%nat.
Proof.
  induction l as [| x l IH]; cbn [flat_map length]; [lia |].
  rewrite length_app. destruct x; cbn [tokens length]; lia.
Qed.

Lemma parse_args_classified args table :
  classify m args = inr table ->
  parse_args parser args = parse_classified parser args table initial_state.
Proof. intros H. unfold parse_args. fold m. rewrite H. reflexivity. Qed.

Lemma classify_items_then before rest rest_t :
  Forall well_formed before -> classify m rest = inr rest_t ->
  classify m (flat_map tokens before ++ rest)
  = inr (List.map (entry m) (flat_map tokens before) ++ rest_t).
Proof.
  intros Hb Hr. rewrite (classify_app m _ rest (items_classified before Hb)), Hr.
  reflexivity.
Qed.

Lemma classify_dataset_items d after :
  startswith "-" d = false -> Forall well_formed after ->
  classify m (d :: flat_map tokens after)
  = inr ((PA, None) :: List.map (entry m) (flat_map tokens after)).
Proof.
  intros Hd Ha.
  pose proof (classify_app m (d :: flat_map tokens after) []) as H.
  rewrite app_nil_r in H. rewrite H.
  - cbn [classify List.map]. rewrite (entry_plain d Hd), app_nil_r. reflexivity.
  - constructor; [| apply items_classified; exact Ha].
    split; [apply plain_not_separator; exact Hd |].
    intros ms. destruct (no_dash_positional m d Hd) as [-> _]. discriminate.
Qed.

(** The run of [parse_args] on options, the dataset, options. *)
Lemma parse_items_dataset before after d :
  Forall well_formed before -> Forall well_formed after ->
  startswith "-" d = false ->
  parse_args parser (flat_map tokens before ++ d :: flat_map tokens after)
  = Parsed (fold_left effect after
              (<["dwi" := PyStr d]>
                 (fold_left effect before (default_namespace parser)))).
Proof.
  intros Hb Ha Hd.
  rewrite (parse_args_classified _ _
             (classify_items_then before _ _ Hb (classify_dataset_items d after Hd Ha))).
  set (tb := flat_map tokens before). set (ta := flat_map tokens after).
  set (args := tb ++ d :: ta).
  set (table := List.map (entry m) tb ++ (PA, None) :: List.map (entry m) ta).
  assert (Hlt : length table = length args).
  { unfold table, args. rewrite !length_app. cbn [length]. rewrite !length_map.
    reflexivity. }
  assert (Hlb : length (List.map (entry m) tb) = length tb) by apply length_map.
  assert (Hbt : (length before <= length args)%nat).
  { unfold args, tb. rewrite length_app. pose proof (tokens_length before). lia. }
  unfold parse_classified.
  (* the options before the dataset *)
  rewrite (consume_loop_fuel parser args table (S (length args))
             (length before + S (length args)) 0 initial_state) by lia.
  pose proof (loop_items before [] [] (d :: ta) ((PA, None) :: List.map (entry m) ta)
                (S (length args)) initial_state eq_refl Hb) as HA.
  cbn [app length Nat.add] in HA. fold tb args table in HA. rewrite HA. clear HA.
  destruct (fold_run_item before initial_state) as (Hn1 & Hp1 & He1 & _).
  set (st1 := fold_left run_item before initial_state) in *.
  set (st2 := {| namespace := <["dwi" := PyStr d]> (namespace st1);
                 seen_actions := "dwi" :: seen_actions st1;
                 positionals := [];
                 extras := extras st1 |}).
  assert (Hpos : forall suf_a suf_t,
             head (List.map fst suf_t) <> Some PDash ->
             consume_positionals (tb ++ d :: suf_a)
               (List.map (entry m) tb ++ (PA, None) :: suf_t) (length tb) st1
             = Go (S (length tb)) st2).
  { intros suf_a suf_t Hh. rewrite <- Hlb.
    rewrite (consume_positionals_one tb (List.map (entry m) tb) (eq_sym Hlb)
               (positional "dwi") d None suf_a suf_t st1 Hp1 eq_refl Hh).
    rewrite (get_values_one (positional "dwi") d eq_refl (plain_not_separator d Hd)).
    reflexivity. }
  destruct after as [| i after].
  - (* the dataset comes last: the loop is over *)
    rewrite consume_loop_done.
    2: { intros j Hj. unfold table. rewrite <- Hlb in Hj.
         replace j with (length (List.map (entry m) tb) + (j - length (List.map (entry m) tb)))%nat
           by lia.
         rewrite (is_option_index_app tb _ (eq_sym Hlb)).
         destruct (j - _)%nat as [| [| k]]; reflexivity. }
    unfold args, table, ta. cbn [flat_map List.map].
    rewrite (Hpos [] []) by discriminate.
    rewrite required_actions_parser. cbn [add_extras seen_actions extras st2].
    rewrite (seen_dwi ("dwi" :: seen_actions st1)) by left.
    rewrite drop_ge by (rewrite length_app; cbn [length]; lia).
    rewrite He1. cbn [initial_state extras app fold_left].
    unfold add_extras, st2. cbn [namespace]. rewrite Hn1. reflexivity.
  - (* the dataset, then the options after it *)
    destruct (first_entry_of_items i after [] (Forall_inv Ha)) as [Hopt Hdash].
    rewrite app_nil_r in Hopt, Hdash. fold ta in Hopt, Hdash.
    rewrite (consume_loop_at_positional parser args table (length args) (length tb)
               st1 (S (length tb)) (S (length tb)) st2).
    2: { unfold table. rewrite <- Hlb.
         rewrite (is_option_index_start tb _ (eq_sym Hlb)). reflexivity. }
    2: lia.
    2: { unfold table. rewrite <- Hlb.
         replace (S (length (List.map (entry m) tb)))
           with (length (List.map (entry m) tb) + 1)%nat by lia.
         rewrite (is_option_index_app tb _ (eq_sym Hlb)). exact Hopt. }
    2: { unfold args, table. apply Hpos. exact Hdash. }
    2: lia.
    rewrite (consume_loop_fuel parser args table (length args)
               (length (i :: after) + S (length args)) (S (length tb)) st2).
    2: { rewrite Hlt. unfold args. rewrite length_app. cbn [length]. lia. }
    2: { rewrite Hlt. lia. }
    pose proof (loop_items (i :: after) (tb ++ [d])
                  (List.map (entry m) tb ++ [(PA, None)]) [] []
                  (S (length args)) st2) as HC.
    rewrite !app_nil_r, <- !app_assoc in HC. cbn [app] in HC.
    fold ta args table in HC.
    rewrite !length_app in HC. cbn [length] in HC.
    replace (length (List.map (entry m) tb) + 1)%nat with (S (length tb)) in HC by lia.
    change (length (i :: after)) with (S (length after)).
    rewrite HC by (try exact Ha; lia). clear HC.
    destruct (fold_run_item (i :: after) st2) as (Hn3 & Hp3 & He3 & Hs3).
    set (st3 := fold_left run_item (i :: after) st2) in *.
    rewrite consume_loop_done.
    2: { intros j Hj. apply is_option_index_beyond. rewrite Hlt. unfold args.
         rewrite length_app. cbn [length]. lia. }
    rewrite consume_positionals_none by (rewrite Hp3; reflexivity).
    rewrite required_actions_parser. cbn [add_extras seen_actions extras].
    rewrite (seen_dwi _ (Hs3 "dwi" ltac:(left))).
    rewrite drop_ge by (unfold args; rewrite length_app; cbn [length]; lia).
    rewrite He3. unfold st2 at 1. cbn [extras]. rewrite He1.
    cbn [initial_state extras app].
    unfold add_extras. cbn [namespace]. rewrite Hn3. unfold st2. cbn [namespace].
    rewrite Hn1. reflexivity.
Qed.

Lemma fold_effect_elsewhere items : forall ns k,
  Forall (fun i => target i <> k) items ->
  fold_left effect items ns !! k = ns !! k.
Proof.
  induction items as [| i items IH]; intros ns k Hk; [reflexivity |].
  apply Forall_cons in Hk. destruct Hk as [Hi Hk]. cbn [fold_left].
  rewrite (IH _ _ Hk). unfold effect. apply lookup_insert_ne. exact Hi.
Qed.

Lemma last_written_from items k : forall acc,
  fold_left (fun acc i => if String.eqb (target i) k then Some (value i) else acc)
            items acc
  = match last_written k items with
    | Some v => Some v
    | None => acc
    end.
Proof.
  unfold last_written. induction items as [| i items IH]; intros acc; [reflexivity |].
  cbn [fold_left]. rewrite (IH (if String.eqb (target i) k then _ else acc)).
  rewrite (IH (if String.eqb (target i) k then _ else None)).
  destruct (fold_left _ items None); [reflexivity |].
  destruct (String.eqb (target i) k); reflexivity.
Qed.

Lemma last_written_app k l1 l2 :
  last_written k (l1 ++ l2)
  = match last_written k l2 with
    | Some v => Some v
    | None => last_written k l1
    end.
Proof.
  unfold last_written at 1. rewrite fold_left_app. apply last_written_from.
Qed.

Lemma lookup_fold_effect items : forall ns k,
  fold_left effect items ns !! k
  = match last_written k items with
    | Some v => Some v
    | None => ns !! k
    end.
Proof.
  induction items as [| i items IH] using rev_ind; intros ns k; [reflexivity |].
  rewrite fold_left_app, last_written_app. cbn [fold_left]. unfold effect at 1.
  unfold last_written at 1. cbn [fold_left].
  destruct (String.eqb_spec (target i) k) as [-> | Hne].
  - apply lookup_insert_eq.
  - rewrite lookup_insert_ne by exact Hne. apply IH.
Qed.

Lemma well_formed_target i :
  well_formed i ->
  match i with
  | Switch _ => target i ∈ boolean_flags
  | _ => target i ∈ ["output"; "extent"; "fit_constraints";
                     "rpe_pair"; "rpe_all"; "pe_dir"]
  end.
Proof.
  destruct i as [o | o v | o v]; simpl.
  - intros H. apply (switch_string_action o H).
  - intros [H _]. apply (value_string_action o H).
  - intros [H _]. apply (value_string_action o H).
Qed.

Lemma well_formed_not_dwi items :
  Forall well_formed items -> Forall (fun i => target i <> "dwi") items.
Proof.
  intros H. eapply Forall_impl; [exact H |]. intros i Hi Heq. pose proof (well_formed_target i Hi) as Ht.
  rewrite Heq in Ht.
  destruct i; [refine (names_disjoint ["dwi"] _ "dwi" _ _ Ht)
              | refine (names_disjoint ["dwi"] _ "dwi" _ _ Ht) ..];
    first [reflexivity | left].
Qed.

Lemma flags_fold items f : forall ns b,
  Forall well_formed items -> f ∈ boolean_flags ->
  ns !! f = Some (PyBool b) ->
  fold_left effect items ns !! f = Some (PyBool (b || switched f items)).
Proof.
  induction items as [| i items IH]; intros ns b Hwf Hf Hb.
  - simpl. rewrite orb_false_r. exact Hb.
  - apply Forall_cons in Hwf. destruct Hwf as [Hi Hwf]. cbn [fold_left].
    pose proof (well_formed_target i Hi) as Ht.
    destruct i as [o | o v | o v]; cbn [switched existsb]; fold (switched f items).
    + destruct (String.eqb_spec (attribute o) f) as [Heq | Hne].
      * rewrite (IH _ true Hwf Hf); [rewrite orb_true_r; reflexivity |].
        unfold effect. cbn [target value]. rewrite Heq. apply lookup_insert_eq.
      * rewrite (IH _ b Hwf Hf); [reflexivity |].
        unfold effect. cbn [target]. rewrite lookup_insert_ne by exact Hne. exact Hb.
    + rewrite (IH _ b Hwf Hf); [reflexivity |].
      unfold effect. rewrite lookup_insert_ne; [exact Hb |].
      intros Heq. rewrite Heq in Ht.
      refine (names_disjoint _ _ f _ Ht Hf). reflexivity.
    + rewrite (IH _ b Hwf Hf); [reflexivity |].
      unfold effect. rewrite lookup_insert_ne; [exact Hb |].
      intros Heq. rewrite Heq in Ht.
      refine (names_disjoint _ _ f _ Ht Hf). reflexivity.
Qed.

Lemma default_flag f :
  f ∈ boolean_flags -> default_namespace parser !! f = Some (PyBool false).
Proof.
  intros Hf. rewrite default_namespace_parser. unfold boolean_flags in Hf.
  repeat (apply elem_of_cons in Hf; destruct Hf as [-> | Hf];
          [repeat first [ apply lookup_insert_eq
                        | rewrite lookup_insert_ne
                            by (apply String.eqb_neq; reflexivity) ] |]).
  apply elem_of_nil in Hf. destruct Hf.
Qed.

(** X10: A command line made of options written in full, the dataset, and more
    such options is accepted, and the namespace is what it spells out:
    [dwi] is the dataset; every other attribute holds the value of the
    last option that writes it, or its default when none does; so a
    boolean flag is true exactly when one of its switches is given, and
    no option touches another option's attribute. *)
Theorem parse_well_formed_command_line (before after : list item) (d : string) :
  Forall well_formed before -> Forall well_formed after ->
  startswith "-" d = false ->
  exists ns,
    parse_args parser (flat_map tokens before ++ d :: flat_map tokens after)
    = Parsed ns
    /\ ns !! "dwi" = Some (PyStr d)
    /\ (forall k, k <> "dwi" ->
        ns !! k = match last_written k (before ++ after) with
                  | Some v => Some v
                  | None => default_namespace parser !! k
                  end)
    /\ (forall f, f ∈ boolean_flags ->
        ns !! f = Some (PyBool (switched f (before ++ after)))).
Proof.
  intros Hb Ha Hd. eexists. split; [apply parse_items_dataset; assumption |].
  split; [| split].
  - rewrite (fold_effect_elsewhere after _ "dwi" (well_formed_not_dwi after Ha)).
    apply lookup_insert_eq.
  - intros k Hk. rewrite lookup_fold_effect, last_written_app.
    destruct (last_written k after); [reflexivity |].
    rewrite lookup_insert_ne by congruence. apply lookup_fold_effect.
  - intros f Hf. unfold switched. rewrite existsb_app. fold (switched f before).
    fold (switched f after).
    assert (Hne : "dwi" <> f).
    { intros <-. refine (names_disjoint ["dwi"] _ "dwi" _ _ Hf); [reflexivity | left]. }
    rewrite (flags_fold after f _ (switched f before) Ha Hf); [reflexivity |].
    rewrite lookup_insert_ne by exact Hne.
    rewrite (flags_fold before f _ false Hb Hf (default_flag f Hf)). reflexivity.
Qed.

Lemma classify_unambiguous rest :
  first_ambiguous m rest = None -> exists rest_t, classify m rest = inr rest_t.
Proof.
  intros H. pose proof (classify_first_ambiguous m rest) as Hc.
  rewrite H in Hc. exact Hc.
Qed.

Lemma classify_cons_entry s rest rest_t :
  s <> "--" -> (forall ms, parse_optional m s <> Ambiguous ms) ->
  classify m rest = inr rest_t ->
  classify m (s :: rest) = inr (entry m s :: rest_t).
Proof.
  intros Hs Ha Hr. change (s :: rest) with ([s] ++ rest).
  rewrite (classify_app m [s] rest), Hr; [reflexivity |].
  constructor; [split; assumption | constructor].
Qed.

Lemma fold_run_item_unseen items x : forall st,
  Forall (fun i => target i <> x) items -> x ∉ seen_actions st ->
  x ∉ seen_actions (fold_left run_item items st).
Proof.
  induction items as [| i items IH]; intros st Hi Hst; [exact Hst |].
  apply Forall_cons in Hi. destruct Hi as [Hi Hl]. cbn [fold_left].
  apply IH; [exact Hl |]. unfold run_item, stored. cbn [seen_actions].
  apply not_elem_of_cons. split; [| exact Hst].
  intros Heq. apply Hi. rewrite Heq. destruct i; reflexivity.
Qed.

(** The loop over the options that open a command line, with the fuel
    of [parse_args]. *)
Lemma loop_opening before rest rest_t :
  Forall well_formed before -> classify m rest = inr rest_t ->
  consume_loop parser (flat_map tokens before ++ rest)
    (List.map (entry m) (flat_map tokens before) ++ rest_t)
    (S (length (flat_map tokens before ++ rest))) 0 initial_state
  = consume_loop parser (flat_map tokens before ++ rest)
      (List.map (entry m) (flat_map tokens before) ++ rest_t)
      (S (length (flat_map tokens before ++ rest)))
      (length (flat_map tokens before))
      (fold_left run_item before initial_state).
Proof.
  intros Hb Hr. pose proof (classify_length _ _ _ Hr) as Hlr.
  set (tb := flat_map tokens before).
  rewrite (consume_loop_fuel parser (tb ++ rest) (List.map (entry m) tb ++ rest_t)
             (S (length (tb ++ rest)))
             (length before + S (length (tb ++ rest))) 0 initial_state).
  2, 3: rewrite !length_app, length_map; lia.
  pose proof (loop_items before [] [] rest rest_t (S (length (tb ++ rest)))
                initial_state eq_refl Hb) as H.
  cbn [app length Nat.add] in H. exact H.
Qed.

(** X11: A one-value option written without its value, at the end of the
    command line or before another option or the separator, after any
    options written in full: the error of a missing argument, for that
    option.  A negative number, in the digits of any script, is read as
    an argument and not as an option: it is taken as the value. *)
Theorem value_option_without_value (before : list item) (o : string)
  (rest : list string) :
  Forall well_formed before -> o ∈ value_strings ->
  first_ambiguous m rest = None ->
  (forall s, head rest = Some s -> s = "--" \/ parse_optional m s <> Positional) ->
  parse_args parser (flat_map tokens before ++ o :: rest)
  = UsageError (ExpectedOneArgument (option_action o)).
Proof.
  intros Hb Ho Hamb Hhead.
  destruct (classify_unambiguous rest Hamb) as [rest_t Hr].
  destruct (value_string_action o Ho) as ([r Hor] & Hl & Hk & _).
  assert (Hc : classify m (o :: rest) = inr (entry m o :: rest_t)).
  { pose proof (tokens_classified (Valued o "") (conj Ho eq_refl)) as Ht.
    apply Forall_cons in Ht. destruct Ht as [[Ht1 Ht2] _].
    apply classify_cons_entry; assumption. }
  assert (Hh : head (List.map fst rest_t) <> Some PA).
  { destruct rest as [| s rest]; [injection Hr as <-; discriminate |].
    cbn [classify] in Hr. destruct (String.eqb s "--") eqn:Hs.
    - injection Hr as <-. discriminate.
    - destruct (parse_optional m s) as [| t | ms] eqn:Hp; [| | discriminate].
      + destruct (Hhead s eq_refl) as [-> | Hne]; [discriminate Hs | congruence].
      + destruct (classify m rest); [discriminate |]. injection Hr as <-. discriminate. }
  rewrite (parse_args_classified _ _ (classify_items_then before _ _ Hb Hc)).
  unfold parse_classified. rewrite (loop_opening before _ _ Hb Hc).
  rewrite (entry_value o Ho) in *.
  rewrite consume_loop_at_option.
  2: { rewrite <- (length_map (entry m)).
       rewrite (is_option_index_start (flat_map tokens before) _
                  (eq_sym (length_map _ _))). reflexivity. }
  rewrite <- (length_map (entry m) (flat_map tokens before)).
  rewrite (consume_optional_no_value parser (flat_map tokens before) _
             (eq_sym (length_map _ _)) _ _ _ _ _ _ Hk Hh).
  reflexivity.
Qed.

(** X12: A switch written in its long form with a value attached by [=],
    after any options written in full: the error of an unexpected
    argument, for that switch. *)
Theorem switch_with_value (before : list item) (o v : string)
  (rest : list string) :
  Forall well_formed before -> o ∈ switch_strings -> is_long o = true ->
  first_ambiguous m rest = None ->
  parse_args parser (flat_map tokens before ++ (o +:+ "=" +:+ v) :: rest)
  = UsageError (IgnoredExplicitArgument (option_action o) v).
Proof.
  intros Hb Ho Hlong Hamb.
  destruct (classify_unambiguous rest Hamb) as [rest_t Hr].
  destruct (switch_string_action o Ho) as ([r Hor] & Hl & Hk & _).
  assert (Hc0 : contains "=" o = false).
  { pose proof parser_strings_without_equals as H.
    destruct (lookup_option_elem _ _ _ Hl) as [k Hin].
    clear -Ho. revert Ho. unfold switch_strings. intros Ho.
    repeat (apply elem_of_cons in Ho; destruct Ho as [-> | Ho]; [reflexivity |]).
    apply elem_of_nil in Ho. destruct Ho. }
  pose proof (parse_optional_joined m o r v _ Hor Hl Hc0 parser_strings_without_equals)
    as Hp.
  assert (He : entry m (o +:+ "=" +:+ v)
               = (PO, Some (Some (option_action o), o, Some v))).
  { unfold entry. rewrite Hp. reflexivity. }
  assert (Hc : classify m ((o +:+ "=" +:+ v) :: rest)
               = inr ((PO, Some (Some (option_action o), o, Some v)) :: rest_t)).
  { rewrite <- He. apply classify_cons_entry; [apply joined_not_separator | | exact Hr].
    intros ms. rewrite Hp. discriminate. }
  rewrite (parse_args_classified _ _ (classify_items_then before _ _ Hb Hc)).
  unfold parse_classified. rewrite (loop_opening before _ _ Hb Hc).
  rewrite consume_loop_at_option.
  2: { rewrite <- (length_map (entry m)).
       rewrite (is_option_index_start (flat_map tokens before) _
                  (eq_sym (length_map _ _))). reflexivity. }
  rewrite <- (length_map (entry m) (flat_map tokens before)).
  rewrite (consume_optional_switch_joined parser (flat_map tokens before) _
             (eq_sym (length_map _ _)) _ _ _ _ _ _ _
             ltac:(rewrite Hk; discriminate) Hlong).
  reflexivity.
Qed.

(** X13: The help option, after any options written in full and whatever
    follows it, as long as nothing before a separator is ambiguous: the
    help is printed and the process exits with status 0; a dataset is
    not asked for. *)
Theorem help_option_exits (before : list item) (h : string) (rest : list string) :
  Forall well_formed before -> h ∈ ["-h"; "--help"] ->
  first_ambiguous m rest = None ->
  parse_args parser (flat_map tokens before ++ h :: rest) = HelpExit.
Proof.
  intros Hb Hh Hamb.
  destruct (classify_unambiguous rest Hamb) as [rest_t Hr].
  assert (Hp : parse_optional m h = Optional (Some help_action, h, None)
               /\ h <> "--").
  { repeat (apply elem_of_cons in Hh; destruct Hh as [-> | Hh];
            [split; [vm_compute; reflexivity | discriminate] |]).
    apply elem_of_nil in Hh. destruct Hh. }
  destruct Hp as [Hp Hsep].
  assert (Hc : classify m (h :: rest)
               = inr ((PO, Some (Some help_action, h, None)) :: rest_t)).
  { replace (PO, Some (Some help_action, h, None)) with (entry m h)
      by (unfold entry; rewrite Hp; reflexivity).
    apply classify_cons_entry; [exact Hsep | | exact Hr].
    intros ms. rewrite Hp. discriminate. }
  rewrite (parse_args_classified _ _ (classify_items_then before _ _ Hb Hc)).
  unfold parse_classified. rewrite (loop_opening before _ _ Hb Hc).
  rewrite consume_loop_at_option.
  2: { rewrite <- (length_map (entry m)).
       rewrite (is_option_index_start (flat_map tokens before) _
                  (eq_sym (length_map _ _))). reflexivity. }
  rewrite <- (length_map (entry m) (flat_map tokens before)).
  rewrite (consume_optional_help parser (flat_map tokens before) _
             (eq_sym (length_map _ _)) help_action _ _ _ _ _ eq_refl).
  reflexivity.
Qed.

(** X14: Options written in full and no dataset: the error that names
    [dwi] as the required argument. *)
Theorem options_without_dataset (before : list item) :
  Forall well_formed before ->
  parse_args parser (flat_map tokens before)
  = UsageError (RequiredArguments ["dwi"]).
Proof.
  intros Hb.
  pose proof (classify_items_then before [] [] Hb eq_refl) as Hc.
  rewrite <- (app_nil_r (flat_map tokens before)).
  rewrite (parse_args_classified _ _ Hc).
  unfold parse_classified.
  rewrite (loop_opening before [] [] Hb eq_refl).
  rewrite !app_nil_r.
  set (tb := flat_map tokens before).
  destruct (fold_run_item before initial_state) as (_ & Hp1 & He1 & _).
  pose proof (fold_run_item_unseen before "dwi" initial_state
                (well_formed_not_dwi before Hb) (not_elem_of_nil _)) as Hs1.
  set (st1 := fold_left run_item before initial_state) in *.
  rewrite consume_loop_done.
  2: { intros j Hj. apply is_option_index_beyond. rewrite length_map. exact Hj. }
  rewrite <- (length_map (entry m) tb).
  rewrite (consume_positionals_end tb _ (eq_sym (length_map _ _))
             (positional "dwi") st1 Hp1).
  rewrite required_actions_parser. cbn [add_extras seen_actions].
  destruct (existsb (String.eqb "dwi") (seen_actions st1)) eqn:Hex; [| reflexivity].
  apply existsb_exists in Hex. destruct Hex as (y & Hy & Heq).
  apply String.eqb_eq in Heq. subst y. apply list_elem_of_In in Hy. contradiction.
Qed.

(** X15: More than one plain string: the first is the dataset, and the parse
    ends with the error that lists the others as unrecognized. *)
Theorem second_dataset_is_unrecognized (before : list item) (d e : string)
  (more : list string) :
  Forall well_formed before ->
  Forall (fun s => startswith "-" s = false) (d :: e :: more) ->
  parse_args parser (flat_map tokens before ++ d :: e :: more)
  = UsageError (UnrecognizedArguments (e :: more)).
Proof.
  intros Hb Hplain.
  assert (Hc : classify m (d :: e :: more)
               = inr (List.map (fun _ => (PA, None)) (d :: e :: more))).
  { pose proof (classify_app m (d :: e :: more) []) as H.
    rewrite app_nil_r in H. rewrite H.
    - cbn [classify]. rewrite app_nil_r. f_equal. apply map_ext_Forall.
      eapply Forall_impl; [exact Hplain |]. intros s Hs. apply entry_plain. exact Hs.
    - eapply Forall_impl; [exact Hplain |]. intros s Hs.
      split; [apply plain_not_separator; exact Hs |].
      intros ms. destruct (no_dash_positional m s Hs) as [-> _]. discriminate. }
  rewrite (parse_args_classified _ _ (classify_items_then before _ _ Hb Hc)).
  unfold parse_classified. rewrite (loop_opening before _ _ Hb Hc).
  set (tb := flat_map tokens before).
  destruct (fold_run_item before initial_state) as (_ & Hp1 & He1 & _).
  set (st1 := fold_left run_item before initial_state) in *.
  assert (Hlb : length (List.map (entry m) tb) = length tb) by apply length_map.
  rewrite consume_loop_done.
  2: { intros j Hj. rewrite <- Hlb in Hj.
       replace j with (length (List.map (entry m) tb)
                       + (j - length (List.map (entry m) tb)))%nat by lia.
       rewrite (is_option_index_app tb _ (eq_sym Hlb)).
       unfold is_option_index, option_at.
       rewrite map_is_fmap, list_lookup_fmap.
       destruct ((d :: e :: more) !! _); reflexivity. }
  cbn [List.map]. rewrite <- Hlb.
  assert (Hh : head (List.map fst ((PA, None : option option_tuple)
                                   :: List.map (fun _ => (PA, None)) more))
               <> Some PDash) by discriminate.
  rewrite (consume_positionals_one tb _ (eq_sym Hlb) (positional "dwi") d None
             (e :: more) _ st1 Hp1 eq_refl Hh).
  rewrite required_actions_parser.
  cbn [add_extras seen_actions extras dest positional].
  rewrite (seen_dwi ("dwi" :: seen_actions st1)) by left.
  rewrite He1. cbn [initial_state extras app].
  replace (S (length (List.map (entry m) tb))) with (length tb + 1)%nat by lia.
  rewrite drop_app_add' by reflexivity. reflexivity.
Qed.

End WellFormedCommandLines.

(** ** The dataset is always a string *)
Section SeparatorShape.
Import Py PyStr Argparse ParseNotions DatasetNotions.
Variable m : list (string * Action).

Lemma classify_shape (args : list string) : forall table,
  classify m args = inr table ->
  exists xs tail tail_t, separator_shape m args table xs tail tail_t.
Proof.
  induction args as [| a args IH]; intros table; cbn [classify].
  - intros [= <-]. exists [], [], []. repeat split; [apply not_elem_of_nil | auto].
  - destruct (String.eqb_spec a "--") as [-> | Hne].
    + intros [= <-]. exists [], ("--" :: args), ((PDash, None) :: List.map (fun _ => (PA, None)) args).
      repeat split; [apply not_elem_of_nil |]. right. eauto.
    + assert (Hstep : forall l e, entry m a = e -> classify m args = inr l ->
                exists xs tail tail_t, separator_shape m (a :: args) (e :: l) xs tail tail_t).
      { intros l e He Hl. destruct (IH l Hl) as (xs & tail & tail_t & Ha & Ht & Hx & Hs).
        exists (a :: xs), tail, tail_t. repeat split.
        - rewrite Ha. reflexivity.
        - rewrite Ht, <- He. reflexivity.
        - apply not_elem_of_cons. split; [congruence | exact Hx].
        - exact Hs. }
      destruct (parse_optional m a) as [| t | ms] eqn:Hp; [| | discriminate].
      * destruct (classify m args) as [h | l] eqn:Hl; [discriminate |].
        intros [= <-]. apply Hstep; [unfold entry; rewrite Hp |]; reflexivity.
      * destruct (classify m args) as [h | l] eqn:Hl; [discriminate |].
        intros [= <-]. apply Hstep; [unfold entry; rewrite Hp |]; reflexivity.
Qed.

Lemma entry_letter s : (entry m s).1 = PA \/ (entry m s).1 = PO.
Proof. unfold entry. destruct (parse_optional m s); auto. Qed.

Lemma entry_option s : (entry m s).1 = PA -> (entry m s).2 = None.
Proof. unfold entry. destruct (parse_optional m s); [reflexivity | discriminate | reflexivity]. Qed.

Lemma count_dashes_entries xs (l : list pat) :
  xs <> [] -> count_dashes (List.map fst (List.map (entry m) xs) ++ l) = 0%nat.
Proof.
  destruct xs as [| s xs]; [congruence |]. intros _. cbn [List.map app count_dashes].
  destruct (entry_letter s) as [-> | ->]; reflexivity.
Qed.

Lemma count_dashes_arguments (ys : list string) :
  count_dashes (List.map fst (List.map (fun _ => (PA, None : option option_tuple)) ys))
  = 0%nat.
Proof. destruct ys; reflexivity. Qed.

(** What a one-argument positional is given, when it is matched at or
    before the separator: one string, once the separator is dropped. *)
Lemma match_one_values (xs2 tail : list string)
  (tail_t : list (pat * option option_tuple)) (c : nat) :
  "--" ∉ xs2 ->
  ((tail = [] /\ tail_t = [])
   \/ exists ys, tail = "--" :: ys
                 /\ tail_t = (PDash, None) :: List.map (fun _ => (PA, None)) ys) ->
  match_one (List.map fst (List.map (entry m) xs2 ++ tail_t)) = Some c ->
  exists s, remove_first "--" (take c (xs2 ++ tail)) = [s].
Proof.
  intros Hx Hs. rewrite List.map_app. unfold match_one.
  destruct xs2 as [| s xs3].
  - cbn [List.map app].
    destruct Hs as [[-> ->] | (ys & -> & ->)]; [discriminate |].
    cbn [List.map fst count_dashes]. rewrite count_dashes_arguments.
    destruct ys as [| y ys]; [discriminate |].
    cbn [drop List.map fst]. rewrite count_dashes_arguments.
    intros [= <-]. exists y. reflexivity.
  - apply not_elem_of_cons in Hx. destruct Hx as [Hne Hx3].
    cbn [List.map app].
    destruct (entry_letter s) as [Hl | Hl]; rewrite Hl; cbn [count_dashes drop];
      [| discriminate].
    assert (Hfirst : remove_first "--" [s] = [s]).
    { cbn [remove_first]. assert (String.eqb s "--" = false) as ->; [| reflexivity].
      apply String.eqb_neq. congruence. }
    destruct xs3 as [| s1 xs4].
    + cbn [List.map app].
      destruct Hs as [[-> ->] | (ys & -> & ->)].
      * intros [= <-]. exists s. exact Hfirst.
      * cbn [List.map fst count_dashes]. rewrite count_dashes_arguments.
        intros [= <-]. exists s. cbn [app take remove_first].
        assert (String.eqb s "--" = false) as ->; [| reflexivity].
        apply String.eqb_neq. congruence.
    + rewrite count_dashes_entries by discriminate.
      intros [= <-]. exists s. exact Hfirst.
Qed.

(** No option stands at or after the separator. *)
Lemma no_option_from_separator args table xs tail tail_t i :
  separator_shape m args table xs tail tail_t ->
  (length xs <= i)%nat -> is_option_index table i = false.
Proof.
  intros (_ & -> & _ & Hs) Hi. unfold is_option_index, option_at.
  rewrite lookup_app_r by (rewrite length_map; exact Hi).
  destruct Hs as [[_ ->] | (ys & _ & ->)]; [rewrite lookup_nil; reflexivity |].
  destruct (i - length (List.map (entry m) xs))%nat as [| k]; [reflexivity |].
  change (((PDash, None) :: List.map (fun _ => (PA, None : option option_tuple)) ys) !! S k)
    with (List.map (fun _ => (PA, None : option option_tuple)) ys !! k).
  rewrite map_is_fmap, list_lookup_fmap.
  destruct (ys !! k); reflexivity.
Qed.

End SeparatorShape.

Section OptionalRounds.
Import Py PyStr Argparse ParseNotions DatasetNotions.
Variable actions : list Action.
Variable x : string.
Hypothesis optional_dest : forall a, is_optional_of actions a -> dest a <> x.
Variable arg_strings : list string.
Variable table : list (pat * option option_tuple).
Hypothesis table_tuples :
  Forall (fun e => match e.2 with
                   | Some t => tuple_of actions t
                   | None => True
                   end) table.

Lemma run_actions_keeps l : forall st st1,
  Forall (fun p : Action * list string => dest p.1 <> x) l ->
  run_actions l st = Go tt st1 ->
  namespace st1 !! x = namespace st !! x /\ positionals st1 = positionals st.
Proof.
  induction l as [| [a args] l IH]; intros st st1 Hl; cbn [run_actions].
  - intros [= <-]. split; reflexivity.
  - apply Forall_cons in Hl. destruct Hl as [Ha Hl]. simpl in Ha.
    unfold take_action.
    destruct (kind a); [| | discriminate]; intros H;
      destruct (IH _ _ Hl H) as [Hn Hp]; rewrite Hn, Hp; cbn [namespace positionals];
      (split; [apply lookup_insert_ne; exact Ha | reflexivity]).
Qed.

Lemma drop_head {A} (l r : list A) (n : nat) (a : A) :
  drop n l = a :: r -> l !! n = Some a.
Proof.
  intros H. rewrite <- (Nat.add_0_r n), <- lookup_drop, H. reflexivity.
Qed.

Lemma without_explicit_arg_stop start a acc l stop :
  without_explicit_arg arg_strings table start a acc = inr (l, stop) ->
  stop = S start
  \/ (stop = S (S start) /\ List.map fst table !! S start = Some PA).
Proof.
  unfold without_explicit_arg, match_argument.
  destruct (kind a).
  - destruct (drop (S start) (List.map fst table)) as [| [] r] eqn:Hd;
      try discriminate.
    intros [= _ <-]. right. split; [lia | apply (drop_head _ _ _ _ Hd)].
  - intros [= _ <-]. left. lia.
  - intros [= _ <-]. left. lia.
Qed.

Lemma with_explicit_arg_stop start e : forall a o acc l stop,
  with_explicit_arg actions arg_strings table start a o e acc = inr (l, stop) ->
  stop = S start
  \/ (stop = S (S start) /\ List.map fst table !! S start = Some PA).
Proof.
  induction e as [| c rest IH]; intros a o acc l stop; simpl.
  - destruct (kind a); [| destruct (is_long o); discriminate ..].
    intros [= _ <-]. left. reflexivity.
  - destruct (kind a); [intros [= _ <-]; left; reflexivity | |];
      (destruct (is_long o); [discriminate |]);
      (destruct (lookup_option _ _) as [a1 |]; [| discriminate]);
      (destruct rest as [| c1 rest1];
       [apply without_explicit_arg_stop | apply IH]).
Qed.

(** A round on an option leaves the attribute [x], which no option
    writes, and the pending positionals as they are, and stops one or two
    strings further. *)
Lemma consume_optional_keeps start st stop st1 :
  consume_optional actions arg_strings table start st = Go stop st1 ->
  namespace st1 !! x = namespace st !! x
  /\ positionals st1 = positionals st
  /\ (x ∉ seen_actions st -> x ∉ seen_actions st1)
  /\ (stop = S start
      \/ (stop = S (S start) /\ List.map fst table !! S start = Some PA)).
Proof.
  unfold consume_optional.
  destruct (option_at table start) as [[[[a |] o] e] |] eqn:Ho.
  - assert (Ha : is_optional_of actions a).
    { unfold option_at in Ho.
      destruct (table !! start) as [[p [t1 |]] |] eqn:Hi; try discriminate.
      injection Ho as ->.
      apply (Forall_lookup_1 _ _ _ _ table_tuples) in Hi. exact Hi. }
    pose proof (optional_dest a Ha) as Hd.
    destruct (match e with Some _ => _ | None => _ end) as [h | [l stop1]] eqn:Hp;
      [discriminate |].
    assert (Hl : Forall (fun p : Action * list string => dest p.1 <> x) l
                 /\ (stop1 = S start
                     \/ (stop1 = S (S start)
                         /\ List.map fst table !! S start = Some PA))).
    { destruct e as [e |]; split.
      - apply (with_explicit_arg_dests actions x optional_dest _ _ _ _ _ _ _ _ _
                 (Forall_nil_2 _) Hd Hp).
      - apply (with_explicit_arg_stop _ _ _ _ _ _ _ Hp).
      - apply (without_explicit_arg_dests x _ _ _ _ _ _ _ (Forall_nil_2 _) Hd Hp).
      - apply (without_explicit_arg_stop _ _ _ _ _ Hp). }
    destruct Hl as [Hl Hstop].
    destruct (run_actions l st) as [[] st2 |] eqn:Hr; [| discriminate].
    intros [= <- <-]. destruct (run_actions_keeps _ _ _ Hl Hr) as [Hn Hpos].
    repeat split; try assumption.
    intros Hs. apply (run_actions_unseen x _ _ _ Hl Hs Hr).
  - intros [= <- <-]. repeat split; auto.
  - intros [= <- <-]. repeat split; auto.
Qed.

Lemma next_option_string_index_cases start :
  is_option_index table (next_option_string_index table start) = true
  \/ next_option_string_index table start = length table.
Proof.
  unfold next_option_string_index.
  destruct (List.filter _ _) as [| i l] eqn:Hf; [right; reflexivity |].
  left.
  assert (Hin : In i (List.filter (is_option_index table)
                        (seq start (length table - start))))
    by (rewrite Hf; left; reflexivity).
  apply filter_In in Hin. apply Hin.
Qed.

End OptionalRounds.

Section DatasetString.
Import Py PyStr Argparse Pydesigner ParseNotions DatasetNotions.
Let m := option_string_actions parser.
Variables (args : list string) (table : list (pat * option option_tuple)).
Variables (xs tail : list string) (tail_t : list (pat * option option_tuple)).
Hypothesis shape : separator_shape m args table xs tail tail_t.
Hypothesis table_tuples :
  Forall (fun e => match e.2 with
                   | Some t => tuple_of parser t
                   | None => True
                   end) table.
Let q := length xs.
Let len := length table.

Lemma dataset_state_extras l st : dataset_state st -> dataset_state (add_extras l st).
Proof. intros H. exact H. Qed.

Lemma dataset_argument_extras l st :
  dataset_argument args st -> dataset_argument args (add_extras l st).
Proof. intros H. exact H. Qed.

Lemma remove_first_elem (y : string) (l : list string) (s : string) :
  s ∈ remove_first y l -> s ∈ l.
Proof.
  induction l as [| z l IH]; cbn [remove_first]; [auto |].
  destruct (String.eqb z y).
  - intros H. apply elem_of_cons. right. exact H.
  - intros H. apply elem_of_cons in H. destruct H as [-> | H];
      apply elem_of_cons; [left; reflexivity | right; apply IH; exact H].
Qed.

Lemma values_among_arguments start c s :
  remove_first "--" (take c (drop start args)) = [s] -> s ∈ args.
Proof.
  intros Hv.
  assert (Hs : s ∈ remove_first "--" (take c (drop start args)))
    by (rewrite Hv; constructor).
  apply remove_first_elem in Hs.
  apply (elem_of_sublist _ _ _ Hs).
  etrans; [apply sublist_take | apply sublist_drop].
Qed.

Lemma pattern_before_separator start :
  (start <= q)%nat ->
  drop start (List.map fst table)
  = List.map fst (List.map (entry m) (drop start xs) ++ tail_t)
  /\ drop start args = drop start xs ++ tail.
Proof.
  intros Hs. destruct shape as (-> & -> & _). split.
  - rewrite !List.map_app, drop_app_le by (rewrite !length_map; exact Hs).
    rewrite !map_is_fmap, !fmap_drop. reflexivity.
  - apply drop_app_le. exact Hs.
Qed.

Lemma separator_absent_after start : "--" ∉ drop start xs.
Proof.
  destruct shape as (_ & _ & Hx & _). intros Hin. apply Hx.
  apply (elem_of_sublist _ _ _ Hin). apply sublist_drop.
Qed.

(** The final or an intermediate consumption of positionals: the dataset
    stays pending, or is consumed and is a string. *)
Lemma consume_positionals_dataset start st :
  dataset_invariant q len start st ->
  exists stop st1,
    consume_positionals args table start st = Go stop st1
    /\ dataset_invariant q len stop st1
    /\ (positionals st1 <> [] -> stop = start)
    /\ (dataset_argument args st -> dataset_argument args st1).
Proof.
  intros [[(Hp & Hs) | (Hp & s & Hn)] Hsafe].
  - unfold consume_positionals. rewrite Hp. cbn [length match_arguments_partial match_groups].
    destruct (match_one (drop start (List.map fst table))) as [c |] eqn:Hm.
    + assert (Hle : (start <= q)%nat).
      { destruct (Hsafe ltac:(rewrite Hp; discriminate)) as [Hle | Hge]; [exact Hle |].
        rewrite drop_ge in Hm by (rewrite length_map; exact Hge). discriminate Hm. }
      destruct (pattern_before_separator start Hle) as [Hpat Hargs].
      rewrite Hpat in Hm.
      destruct (match_one_values m (drop start xs) tail tail_t c
                  (separator_absent_after start)
                  (proj2 (proj2 (proj2 shape))) Hm) as [s Hv].
      cbn [zip zip_with take_actions]. unfold take_action. cbn [positional kind dest].
      assert (Hin : s ∈ args).
      { apply (values_among_arguments start c). rewrite Hargs. exact Hv. }
      rewrite Hargs. unfold get_values. rewrite Hv. cbn [positional kind].
      eexists _, _. split; [reflexivity |].
      cbn [length positionals namespace seen_actions extras].
      rewrite Hp. cbn [drop].
      split; [| split; [intros H; destruct H; reflexivity |]].
      * split; [| intros H; destruct H; reflexivity].
        right. cbn [positionals namespace]. split; [reflexivity |].
        exists s. apply lookup_insert_eq.
      * intros _ _. exists s. split; [exact Hin | apply lookup_insert_eq].
    + cbn [match_arguments_partial zip zip_with take_actions length drop].
      eexists _, _. split; [reflexivity |].
      cbn [positionals namespace seen_actions extras].
      split; [| split; [reflexivity |]].
      * split; [left; cbn [positionals seen_actions]; rewrite drop_0; split; assumption |].
        intros _. apply Hsafe. rewrite Hp. discriminate.
      * intros _. unfold dataset_argument. cbn [positionals].
        rewrite drop_0, Hp. discriminate.
  - rewrite (consume_positionals_none args table start st Hp).
    eexists _, _. split; [reflexivity |].
    split; [| split; [intros H; congruence | auto]].
    split; [right; split; [exact Hp | eauto] | intros H; congruence].
Qed.

Lemma option_before_separator i :
  is_option_index table i = true -> (i < q)%nat.
Proof.
  intros Hi. destruct (Nat.lt_ge_cases i q) as [Hlt | Hge]; [exact Hlt |].
  rewrite (no_option_from_separator m args table xs tail tail_t i shape Hge) in Hi.
  discriminate Hi.
Qed.

Lemma no_argument_at_separator : List.map fst table !! q <> Some PA.
Proof.
  destruct shape as (_ & -> & _ & Hs).
  rewrite List.map_app, lookup_app_r by (rewrite !length_map; reflexivity).
  rewrite !length_map. unfold q. rewrite Nat.sub_diag.
  destruct Hs as [[_ ->] | (ys & _ & ->)]; discriminate.
Qed.

(** A round on an option. *)
Lemma consume_optional_dataset start st stop st1 :
  is_option_index table start = true -> dataset_state st ->
  consume_optional parser args table start st = Go stop st1 ->
  dataset_invariant q len stop st1.
Proof.
  intros Hi Hst Ho.
  destruct (consume_optional_keeps parser "dwi" parser_optional_dests args table
              table_tuples start st stop st1 Ho) as (Hn & Hp & Hs & Hstop).
  pose proof (option_before_separator start Hi) as Hlt.
  split.
  - destruct Hst as [(Hp0 & Hs0) | (Hp0 & s & Hn0)].
    + left. split; [congruence | apply Hs; exact Hs0].
    + right. split; [congruence |]. exists s. congruence.
  - intros _. left. destruct Hstop as [-> | [-> Hpa]]; [lia |].
    destruct (Nat.eq_dec (S start) q) as [Heq | Hne]; [| lia].
    rewrite Heq in Hpa. destruct (no_argument_at_separator Hpa).
Qed.

Lemma consume_optional_argument start st stop st1 :
  dataset_argument args st ->
  consume_optional parser args table start st = Go stop st1 ->
  dataset_argument args st1.
Proof.
  intros Hst Ho.
  destruct (consume_optional_keeps parser "dwi" parser_optional_dests args table
              table_tuples start st stop st1 Ho) as (Hn & Hp & _).
  unfold dataset_argument. rewrite Hn, Hp. exact Hst.
Qed.

(** A round that finds no option where it stands. *)
Lemma consume_optional_nothing start st :
  is_option_index table start = false ->
  consume_optional parser args table start st = Go (S start) st.
Proof.
  unfold is_option_index, consume_optional.
  destruct (option_at table start); [discriminate | reflexivity].
Qed.

Lemma consume_loop_dataset fuel : forall start st n st1,
  dataset_invariant q len start st -> dataset_argument args st ->
  consume_loop parser args table fuel start st = Go n st1 ->
  dataset_invariant q len n st1 /\ dataset_argument args st1.
Proof.
  induction fuel as [| fuel IH]; intros start st n st1 HJ HA; cbn [consume_loop].
  - destruct (max_option_string_index table) as [mx |];
      [destruct (Nat.ltb mx start) |]; intros [= <- <-]; split; assumption.
  - destruct (max_option_string_index table) as [mx |];
      [destruct (Nat.ltb mx start) |]; try (intros [= <- <-]; split; assumption).
    assert (Hskip : forall i st2 k st3,
              dataset_state st2 ->
              (is_option_index table i = true \/ i = length table) ->
              consume_optional parser args table i st2 = Go k st3 ->
              dataset_invariant q len k st3).
    { intros i st2 k st3 Hst [Hi | ->] Ho.
      - apply (consume_optional_dataset _ _ _ _ Hi Hst Ho).
      - rewrite consume_optional_nothing in Ho
          by (apply is_option_index_beyond; lia).
        injection Ho as <- <-. split; [exact Hst |]. intros _. right. unfold len. lia. }
    destruct (Nat.eqb_spec start (next_option_string_index table start)) as [Heq | Hne].
    + destruct (is_option_index table start) eqn:Hi.
      * destruct (consume_optional _ _ _ start st) as [k st3 |] eqn:Ho; [| discriminate].
        apply IH; [apply (Hskip start st k st3 (proj1 HJ) (or_introl Hi) Ho) |].
        apply (consume_optional_argument _ _ _ _ HA Ho).
      * destruct (consume_optional _ _ _ _ _) as [k st3 |] eqn:Ho; [| discriminate].
        apply IH; [refine (Hskip _ _ k st3 _ _ Ho) |].
        -- apply dataset_state_extras. exact (proj1 HJ).
        -- destruct (next_option_string_index_cases table start) as [Hn | Hn];
             [rewrite <- Heq in Hn; congruence | right; exact Hn].
        -- refine (consume_optional_argument _ _ _ _ _ Ho).
           apply dataset_argument_extras. exact HA.
    + destruct (consume_positionals_dataset start st HJ)
        as (stop & st2 & Hc & HJ2 & _ & HA2).
      specialize (HA2 HA).
      rewrite Hc. destruct (Nat.ltb start stop); [apply IH; assumption |].
      destruct (is_option_index table stop) eqn:Hi.
      * destruct (consume_optional _ _ _ stop st2) as [k st3 |] eqn:Ho; [| discriminate].
        apply IH; [apply (Hskip stop st2 k st3 (proj1 HJ2) (or_introl Hi) Ho) |].
        apply (consume_optional_argument _ _ _ _ HA2 Ho).
      * destruct (consume_optional _ _ _ _ _) as [k st3 |] eqn:Ho; [| discriminate].
        apply IH; [refine (Hskip _ _ k st3 _ _ Ho) |].
        -- apply dataset_state_extras. exact (proj1 HJ2).
        -- destruct (next_option_string_index_cases table start) as [Hn | Hn];
             [left; exact Hn | right; exact Hn].
        -- refine (consume_optional_argument _ _ _ _ _ Ho).
           apply dataset_argument_extras. exact HA2.
Qed.

Lemma parse_classified_dataset ns :
  parse_classified parser args table CommandLine.initial_state = Parsed ns ->
  exists s, s ∈ args /\ ns !! "dwi" = Some (PyStr s).
Proof.
  unfold parse_classified.
  destruct (consume_loop _ _ _ _ _ _) as [start st1 | [e |]] eqn:Hloop;
    [| discriminate ..].
  assert (H0 : dataset_invariant q len 0 CommandLine.initial_state).
  { split; [left; split; [reflexivity | apply not_elem_of_nil] |].
    intros _. left. lia. }
  assert (A0 : dataset_argument args CommandLine.initial_state).
  { intros H. discriminate H. }
  destruct (consume_loop_dataset _ _ _ _ _ H0 A0 Hloop) as [H1 A1].
  destruct (consume_positionals_dataset start st1 H1)
    as (stop & st2 & Hc & [Hst _] & _ & A2).
  specialize (A2 A1).
  rewrite Hc. rewrite required_actions_parser.
  unfold add_extras. cbn [seen_actions extras namespace].
  destruct (existsb (String.eqb "dwi") (seen_actions st2)) eqn:Hex; [| discriminate].
  destruct (extras st2 ++ drop stop args); [| discriminate].
  intros Hp. apply Parsed_inj in Hp. subst ns.
  destruct Hst as [(_ & Hs) | (Hp & _)]; [| apply A2; exact Hp].
  exfalso. apply Hs. apply existsb_exists in Hex. destruct Hex as (y & Hy & He).
  apply String.eqb_eq in He. subst y. apply list_elem_of_In. exact Hy.
Qed.

(** Every outcome of the parse: a namespace whose dataset is one of the
    argument strings, a usage error, or the exit of the help action. *)
Lemma parse_classified_outcome :
  match parse_classified parser args table CommandLine.initial_state with
  | Parsed ns => exists s, s ∈ args /\ ns !! "dwi" = Some (PyStr s)
  | UsageError _ | HelpExit => True
  end.
Proof.
  destruct (parse_classified _ _ _ _) as [ns | e |] eqn:Hp; [| exact I ..].
  apply parse_classified_dataset. exact Hp.
Qed.

End DatasetString.

Section DatasetStringTheorem.
Import Py PyStr Argparse Pydesigner ParseNotions DatasetNotions.

(** The dataset of a namespace is one of the argument strings. *)
Lemma parsed_dataset_among_arguments (args : list string) ns :
  parse_args parser args = Parsed ns ->
  exists s, s ∈ args /\ ns !! "dwi" = Some (PyStr s).
Proof.
  unfold parse_args.
  destruct (classify (option_string_actions parser) args) as [[e |] | table] eqn:Hc;
    [discriminate ..|].
  destruct (classify_shape _ _ _ Hc) as (xs & tail & tail_t & Hshape).
  apply (parse_classified_dataset args table xs tail tail_t Hshape
           (classify_tuples parser args table Hc)).
Qed.

(** X9: whatever the command line, in a namespace that [parse_args]
    returns [dwi] is a string: never [None], and never a list, also when
    the separator [--] is used. *)
Theorem parsed_dataset_is_a_string (args : list string) ns :
  parse_args parser args = Parsed ns ->
  exists s, ns !! "dwi" = Some (PyStr s).
Proof.
  intros Hp.
  destruct (parsed_dataset_among_arguments args ns Hp) as (s & _ & Hs).
  exists s. exact Hs.
Qed.

End DatasetStringTheorem.

Lemma parsed_dataset_is_a_string_witness :
  exists ns s,
    Argparse.parse_args Pydesigner.parser ["-k"; "--"; "-scan.nii"] = Argparse.Parsed ns
    /\ ns !! "dwi" = Some (Py.PyStr s).
Proof.
  destruct (Argparse.parse_args Pydesigner.parser ["-k"; "--"; "-scan.nii"])
    as [ns | e |] eqn:Hp.
  - destruct (parsed_dataset_is_a_string _ ns Hp) as (s & Hs).
    exists ns, s. split; [reflexivity | exact Hs].
  - vm_compute in Hp. discriminate Hp.
  - vm_compute in Hp. discriminate Hp.
Defined.

(** ** Where the dataset stands among the options *)
Section DatasetPosition.
Import Py PyStr Argparse Pydesigner ParseNotions CommandLine.

Lemma lookup_items_namespace (before after : list item) (d k : string) :
  Forall well_formed after ->
  fold_left effect after
    (<["dwi" := PyStr d]> (fold_left effect before (default_namespace parser))) !! k
  = if String.eqb k "dwi" then Some (PyStr d)
    else match last_written k (before ++ after) with
         | Some v => Some v
         | None => default_namespace parser !! k
         end.
Proof.
  intros Ha. destruct (String.eqb_spec k "dwi") as [-> | Hne].
  - rewrite (fold_effect_elsewhere after _ "dwi" (well_formed_not_dwi after Ha)).
    apply lookup_insert_eq.
  - rewrite lookup_fold_effect, last_written_app.
    destruct (last_written k after); [reflexivity |].
    rewrite lookup_insert_ne by congruence. apply lookup_fold_effect.
Qed.

(** X19: the namespace does not depend on where the dataset stands among
    options written in full: two command lines with the same options in
    the same order and the same dataset, placed anywhere between them,
    parse to the same namespace. *)
Theorem dataset_position_is_irrelevant (b1 a1 b2 a2 : list item) (d : string) :
  Forall well_formed (b1 ++ a1) -> b1 ++ a1 = b2 ++ a2 ->
  startswith "-" d = false ->
  parse_args parser (flat_map tokens b1 ++ d :: flat_map tokens a1)
  = parse_args parser (flat_map tokens b2 ++ d :: flat_map tokens a2).
Proof.
  intros Hwf Heq Hd.
  assert (Hwf2 : Forall well_formed (b2 ++ a2)) by (rewrite <- Heq; exact Hwf).
  apply Forall_app in Hwf. destruct Hwf as [Hb1 Ha1].
  apply Forall_app in Hwf2. destruct Hwf2 as [Hb2 Ha2].
  rewrite !parse_items_dataset by assumption.
  f_equal. apply map_eq. intros k.
  rewrite !lookup_items_namespace by assumption. rewrite Heq. reflexivity.
Qed.

End DatasetPosition.

Lemma dataset_position_is_irrelevant_witness :
  Argparse.parse_args Pydesigner.parser ["/data/scan.nii"; "--DKI"; "--extent"; "3,3,3"]
  = Argparse.parse_args Pydesigner.parser ["--DKI"; "--extent"; "3,3,3"; "/data/scan.nii"].
Proof.
  apply (dataset_position_is_irrelevant
           [] [CommandLine.Switch "--DKI"; CommandLine.Valued "--extent" "3,3,3"]
           [CommandLine.Switch "--DKI"; CommandLine.Valued "--extent" "3,3,3"] []
           "/data/scan.nii").
  - constructor; [apply list_elem_of_In; vm_compute; tauto |].
    constructor; [split; [apply list_elem_of_In; vm_compute; tauto | reflexivity] |].
    constructor.
  - reflexivity.
  - reflexivity.
Defined.

(** ** The script with both tools installed *)
Section ScriptWithTools.
Import Py PyStr Argparse Pydesigner.
Variable h : Host.

(** X18: With [dwidenoise] found in the directory [dir1] and [fsl] in [dir2],
    the script looks the two tools up, in that order, and then parses the
    command line.  If the parse succeeds the script ends normally with
    [mrtrix3path] set to [dir1], [fslpath] to [dir2] and [args] to the
    namespace; a usage error ends it with exit status 2 and the help
    option with exit status 0, after the message or the help text. *)
Theorem script_with_tools (dir1 dir2 : string) :
  dir1 <> "" -> endswith "/" dir1 = false ->
  dir2 <> "" -> endswith "/" dir2 = false ->
  which h "dwidenoise" = Some (dir1 +:+ "/dwidenoise") ->
  which h "fsl" = Some (dir2 +:+ "/fsl") ->
  run h
  = match parse_args parser (argv h) with
    | Parsed ns =>
        (Ok {| mrtrix3path := dir1; fslpath := dir2; args := ns |},
         [Which "dwidenoise"; Which "fsl"; ParseArgs (argv h)])
    | UsageError e =>
        (Raise (SystemExit 2),
         [Which "dwidenoise"; Which "fsl"; ParseArgs (argv h); Stderr e])
    | HelpExit =>
        (Raise (SystemExit 0),
         [Which "dwidenoise"; Which "fsl"; ParseArgs (argv h); PrintHelp])
    end.
Proof.
  intros Hn1 He1 Hn2 He2 Hw1 Hw2.
  cbv beta iota zeta delta
    [run script bind shutil_which found_or_raise parse_args_call ret raise].
  rewrite Hw1. cbv beta iota zeta. rewrite Hw2. cbv beta iota zeta.
  change (dir1 +:+ "/dwidenoise") with (dir1 +:+ String posixpath.sep "dwidenoise").
  change (dir2 +:+ "/fsl") with (dir2 +:+ String posixpath.sep "fsl").
  rewrite !dirname_dir_base by (assumption || reflexivity).
  destruct (parse_args parser (argv h)); reflexivity.
Qed.

End ScriptWithTools.

Lemma script_with_tools_witness :
  exists ns,
    Pydesigner.run (Sample.host_with_tools ["/data/scan.nii"; "--DKI"])
    = (Py.Ok {| Pydesigner.mrtrix3path := "/opt/mrtrix3/bin";
                Pydesigner.fslpath := "/usr/local/fsl/bin";
                Pydesigner.args := ns |},
       [Pydesigner.Which "dwidenoise"; Pydesigner.Which "fsl";
        Pydesigner.ParseArgs ["/data/scan.nii"; "--DKI"]])
    /\ ns !! "DKI" = Some (Py.PyBool true).
Proof.
  pose proof (script_with_tools (Sample.host_with_tools ["/data/scan.nii"; "--DKI"])
                "/opt/mrtrix3/bin" "/usr/local/fsl/bin"
                ltac:(discriminate) eq_refl ltac:(discriminate) eq_refl
                eq_refl eq_refl) as H.
  destruct (Argparse.parse_args Pydesigner.parser
              (Pydesigner.argv (Sample.host_with_tools ["/data/scan.nii"; "--DKI"])))
    as [ns | e |] eqn:Hp.
  - exists ns. split; [exact H |].
    vm_compute in Hp. injection Hp as <-. vm_compute. reflexivity.
  - vm_compute in Hp. discriminate Hp.
  - vm_compute in Hp. discriminate Hp.
Defined.

(** The further theorems with hypotheses, at sample inputs. *)

Lemma parsed_namespace_attributes_witness :
  exists ns,
    Argparse.parse_args Pydesigner.parser ["/data/scan.nii"; "--DKI"]
    = Argparse.Parsed ns
    /\ is_Some (ns !! "rpe_pair") /\ ~ is_Some (ns !! "help").
Proof.
  destruct (Argparse.parse_args Pydesigner.parser ["/data/scan.nii"; "--DKI"])
    as [ns | e |] eqn:Hp.
  - exists ns. split; [reflexivity |]. split.
    + apply (proj2 (parsed_namespace_attributes _ ns "rpe_pair" Hp)).
      apply list_elem_of_In. vm_compute. tauto.
    + intros Hs.
      apply (proj1 (parsed_namespace_attributes _ ns "help" Hp)) in Hs.
      apply list_elem_of_In in Hs. simpl in Hs.
      repeat (destruct Hs as [Hs | Hs]; [discriminate Hs |]). exact Hs.
  - vm_compute in Hp. discriminate Hp.
  - vm_compute in Hp. discriminate Hp.
Defined.

Lemma parsed_flags_are_booleans_witness :
  exists ns,
    Argparse.parse_args Pydesigner.parser ["-k"; "/data/scan.nii"; "--extent=3,3,3"]
    = Argparse.Parsed ns
    /\ Forall (fun f => exists b, ns !! f = Some (Py.PyBool b))
         Pydesigner.boolean_flags.
Proof.
  destruct (Argparse.parse_args Pydesigner.parser
              ["-k"; "/data/scan.nii"; "--extent=3,3,3"]) as [ns | e |] eqn:Hp.
  - exists ns. split; [reflexivity |].
    exact (parsed_flags_are_booleans _ ns Hp).
  - vm_compute in Hp. discriminate Hp.
  - vm_compute in Hp. discriminate Hp.
Defined.

Lemma parse_well_formed_command_line_witness :
  exists ns,
    Argparse.parse_args Pydesigner.parser
      ["--extent"; "3,3,3"; "-k"; "/data/scan.nii"; "-o=/out"; "--denoise"]
    = Argparse.Parsed ns
    /\ ns !! "dwi" = Some (Py.PyStr "/data/scan.nii")
    /\ ns !! "extent" = Some (Py.PyStr "3,3,3")
    /\ ns !! "output" = Some (Py.PyStr "/out")
    /\ ns !! "DKI" = Some (Py.PyBool true)
    /\ ns !! "DTI" = Some (Py.PyBool false).
Proof.
  assert (Hin : forall (x : string) l, In x l -> x ∈ l)
    by (intros x l; apply list_elem_of_In).
  destruct (parse_well_formed_command_line
              [CommandLine.Valued "--extent" "3,3,3"; CommandLine.Switch "-k"]
              [CommandLine.Joined "-o" "/out"; CommandLine.Switch "--denoise"]
              "/data/scan.nii")
    as (ns & Hp & Hdwi & Hval & Hflag).
  - constructor; [split; [apply Hin; vm_compute; tauto | reflexivity] |].
    constructor; [apply Hin; vm_compute; tauto | constructor].
  - constructor; [split; [apply Hin; vm_compute; tauto | discriminate] |].
    constructor; [apply Hin; vm_compute; tauto | constructor].
  - reflexivity.
  - exists ns. split; [exact Hp |]. split; [exact Hdwi |].
    split; [exact (Hval "extent" ltac:(discriminate)) |].
    split; [exact (Hval "output" ltac:(discriminate)) |].
    split.
    + exact (Hflag "DKI" (Hin "DKI" Pydesigner.boolean_flags ltac:(vm_compute; tauto))).
    + exact (Hflag "DTI" (Hin "DTI" Pydesigner.boolean_flags ltac:(vm_compute; tauto))).
Defined.

Lemma value_option_without_value_witness :
  Argparse.parse_args Pydesigner.parser ["-k"; "--extent"; "--denoise"; "/data/scan.nii"]
  = Argparse.UsageError
      (Argparse.ExpectedOneArgument (CommandLine.option_action "--extent")).
Proof.
  apply (value_option_without_value [CommandLine.Switch "-k"] "--extent"
           ["--denoise"; "/data/scan.nii"]).
  - constructor; [apply list_elem_of_In; vm_compute; tauto | constructor].
  - apply list_elem_of_In. vm_compute. tauto.
  - vm_compute. reflexivity.
  - intros s Hs. injection Hs as <-. right. vm_compute. discriminate.
Defined.

Lemma switch_with_value_witness :
  Argparse.parse_args Pydesigner.parser ["--denoise=1"; "/data/scan.nii"]
  = Argparse.UsageError
      (Argparse.IgnoredExplicitArgument (CommandLine.option_action "--denoise") "1").
Proof.
  apply (switch_with_value [] "--denoise" "1" ["/data/scan.nii"]).
  - constructor.
  - apply list_elem_of_In. vm_compute. tauto.
  - reflexivity.
  - vm_compute. reflexivity.
Defined.

Lemma help_option_exits_witness :
  Argparse.parse_args Pydesigner.parser ["--denoise"; "--help"; "--nonsense"; "-o"]
  = Argparse.HelpExit.
Proof.
  apply (help_option_exits [CommandLine.Switch "--denoise"] "--help"
           ["--nonsense"; "-o"]).
  - constructor; [apply list_elem_of_In; vm_compute; tauto | constructor].
  - apply list_elem_of_In. vm_compute. tauto.
  - vm_compute. reflexivity.
Defined.

Lemma options_without_dataset_witness :
  Argparse.parse_args Pydesigner.parser ["--DKI"; "--extent"; "3,3,3"]
  = Argparse.UsageError (Argparse.RequiredArguments ["dwi"]).
Proof.
  apply (options_without_dataset
           [CommandLine.Switch "--DKI"; CommandLine.Valued "--extent" "3,3,3"]).
  constructor; [apply list_elem_of_In; vm_compute; tauto |].
  constructor; [split; [apply list_elem_of_In; vm_compute; tauto | reflexivity] |].
  constructor.
Defined.

Lemma second_dataset_is_unrecognized_witness :
  Argparse.parse_args Pydesigner.parser ["--DKI"; "a.nii"; "b.nii"; "c.nii"]
  = Argparse.UsageError (Argparse.UnrecognizedArguments ["b.nii"; "c.nii"]).
Proof.
  apply (second_dataset_is_unrecognized [CommandLine.Switch "--DKI"]
           "a.nii" "b.nii" ["c.nii"]).
  - constructor; [apply list_elem_of_In; vm_compute; tauto | constructor].
  - repeat constructor.
Defined.

(** ** The command line that holds the dataset alone *)
Section DatasetAlone.
Import Py PyStr Argparse Pydesigner DatasetNotions.
Let m := option_string_actions parser.

(** Strings that start with a dash and are still read as arguments: a
    negative number, in the digits of any script, and the lone dash. *)
Example negative_numbers :
  negative_number_like "-5" = true
  /\ negative_number_like "-.5" = true
  /\ negative_number_like "-5.5" = true
  /\ negative_number_like "-5." = false
  /\ negative_number_like "-5x" = false
  /\ negative_number_like ("-" +:+ arabic_indic_three) = true
  /\ negative_number_like ("-1." +:+ arabic_indic_three) = true
  /\ negative_number_like ("-" +:+ arabic_indic_three +:+ ".") = false.
Proof. repeat split. Qed.

Example negative_numbers_are_arguments :
  parse_optional m "-5" = Positional
  /\ parse_optional m ("-" +:+ arabic_indic_three) = Positional
  /\ parse_optional m "-" = Positional
  /\ parse_optional m "" = Positional.
Proof. repeat split. Qed.

Example negative_number_as_dataset :
  parse_args parser ["-5"]
  = Parsed (<["dwi" := PyStr "-5"]> (default_namespace parser)).
Proof. vm_compute. reflexivity. Qed.

Example arabic_indic_number_as_dataset :
  parse_args parser ["-" +:+ arabic_indic_three]
  = Parsed (<["dwi" := PyStr ("-" +:+ arabic_indic_three)]> (default_namespace parser)).
Proof. vm_compute. reflexivity. Qed.

(** A negative number is also taken as the value of an option. *)
Example arabic_indic_number_as_output :
  parse_args parser ["--output"; "-" +:+ arabic_indic_three; "scan.nii"]
  = Parsed (<["dwi" := PyStr "scan.nii"]>
              (<["output" := PyStr ("-" +:+ arabic_indic_three)]>
                 (default_namespace parser))).
Proof. vm_compute. reflexivity. Qed.

(** Lists without a dataset: the separator alone, an option with its
    value, the help option. *)
Example separator_alone :
  parse_args parser ["--"] = UsageError (RequiredArguments ["dwi"]).
Proof. vm_compute. reflexivity. Qed.

Example option_and_value_alone :
  parse_args parser ["--extent"; "3,3,3"] = UsageError (RequiredArguments ["dwi"]).
Proof. vm_compute. reflexivity. Qed.

Example help_alone : exit_status (parse_args parser ["--help"]) = Some 0.
Proof. vm_compute. reflexivity. Qed.

(** C7, what the code does.  Parsing an argument list that holds only
    the dataset argument, any string the parser reads as an argument,
    gives a namespace with [dwi] that string, [extent] 5,5,5,
    [fit_constraints] 0,1,0, every boolean flag false and the three
    reverse-phase-encoding options [None]; [output] is [None] and not
    the directory of the dataset, which the help text of lines 70 to 73
    announces as its default.  Whatever the argument list, a namespace
    comes back only with a dataset that is one of its strings: a list
    with no dataset argument ends the process, with exit status 2 after
    a usage error or with status 0 when the help action was met; for the
    empty list it is the usage error that names [dwi]. *)
Theorem parse_dataset_only (d : string) (args : list string) :
  d <> "--" ->
  parse_optional (option_string_actions parser) d = Positional ->
  (exists ns,
     parse_args parser [d] = Parsed ns
     /\ ns !! "dwi" = Some (PyStr d)
     /\ ns !! "output" = Some PyNone
     /\ ns !! "output" <> Some (PyStr (posixpath.dirname d))
     /\ ns !! "extent" = Some (PyStr "5,5,5")
     /\ ns !! "fit_constraints" = Some (PyStr "0,1,0")
     /\ Forall (fun f => ns !! f = Some (PyBool false)) boolean_flags
     /\ Forall (fun f => ns !! f = Some PyNone) ["rpe_pair"; "rpe_all"; "pe_dir"])
  /\ ((exists ns s, parse_args parser args = Parsed ns
                     /\ s ∈ args /\ ns !! "dwi" = Some (PyStr s))
      \/ (exists e, parse_args parser args = UsageError e
                    /\ exit_status (parse_args parser args) = Some 2)
      \/ (parse_args parser args = HelpExit
          /\ exit_status (parse_args parser args) = Some 0))
  /\ parse_args parser [] = UsageError (RequiredArguments ["dwi"]).
Proof.
  intros Hsep Hpos. split; [| split].
  - apply String.eqb_neq in Hsep.
    exists (<["dwi" := PyStr d]> (default_namespace parser)).
    split; [apply parse_args_single; assumption |].
    rewrite default_namespace_parser.
    split; [apply lookup_insert_eq |].
    match goal with |- ?B /\ _ => assert (Hout : B) end.
    { repeat first [ apply lookup_insert_eq
                   | rewrite lookup_insert_ne
                       by (apply String.eqb_neq; reflexivity) ]. }
    split; [exact Hout |]. split; [rewrite Hout; discriminate |].
    repeat split; unfold boolean_flags; repeat constructor;
      repeat first [ apply lookup_insert_eq
                   | rewrite lookup_insert_ne
                       by (apply String.eqb_neq; reflexivity) ].
  - destruct (parse_args parser args) as [ns | e |] eqn:Hp.
    + left. destruct (parsed_dataset_among_arguments args ns Hp) as (s & Hin & Hs).
      exists ns, s. repeat split; assumption.
    + right. left. exists e. split; reflexivity.
    + right. right. split; reflexivity.
  - apply parse_args_empty.
Qed.

End DatasetAlone.

Lemma parse_dataset_only_witness :
  (exists ns,
     Argparse.parse_args Pydesigner.parser ["/data/scan.nii"] = Argparse.Parsed ns
     /\ ns !! "dwi" = Some (Py.PyStr "/data/scan.nii")
     /\ ns !! "output" = Some Py.PyNone
     /\ ns !! "output" <> Some (Py.PyStr "/data"))
  /\ Argparse.exit_status
       (Argparse.parse_args Pydesigner.parser ["--extent"; "3,3,3"]) = Some 2.
Proof.
  assert (Hsep : "/data/scan.nii" <> "--") by discriminate.
  destruct (parse_dataset_only "/data/scan.nii" ["--extent"; "3,3,3"] Hsep eq_refl)
    as ((ns & Hp & Hdwi & Hout & Hdir & _) & Hexit & _).
  split.
  - exists ns. repeat split; assumption.
  - destruct Hexit as [(ns1 & s & Hp1 & _) | [(e & _ & He) | [Hhelp _]]].
    + vm_compute in Hp1. discriminate Hp1.
    + exact He.
    + vm_compute in Hhelp. discriminate Hhelp.
Defined.
